(** * The Link client of grenache-nodejs-link (src/index.js)

    A shallow embedding of the [Link] class: its request registry, reply
    dispatch, result cache, retry wrapper, announce scheduler and the
    public operations built on them.  JavaScript closures are
    defunctionalised into the inductive type [callback]; the instance, the
    host's timers and the pending transport exchanges are threaded through
    a state-and-exception monad. *)

From Stdlib Require Import ZArith Lia Bool Ascii String.
From stdpp Require Import base gmap strings list fin_maps pretty.

Set Warnings "-register-all".

Local Open Scope string_scope.
Local Open Scope Z_scope.

(** ** JavaScript values *)

(** The values that flow through the client.  Numbers are the integral
    ones; [VBuf] is a Buffer (its bytes as characters); [VErr] is an
    [Error] object with the two properties the client sets, the value
    handed to the constructor and [code]; [VRef] is a reference to a
    caller-owned object that the client mutates in place. *)
Inductive jsval : Type :=
  | VUndefined
  | VNull
  | VBool (b : bool)
  | VNum (z : Z)
  | VStr (s : string)
  | VBuf (bytes : string)
  | VArr (items : list jsval)
  | VObj (fields : list (string * jsval))
  | VErr (message : jsval) (code : jsval)
  | VRef (a : nat).

(** ToBoolean. *)
Definition truthy (v : jsval) : bool :=
  match v with
  | VUndefined | VNull => false
  | VBool b => b
  | VNum z => negb (z =? 0)
  | VStr s => negb (String.eqb s "")
  | VBuf _ | VArr _ | VObj _ | VErr _ _ | VRef _ => true
  end.

(** [a || b] *)
Definition js_or (a b : jsval) : jsval := if truthy a then a else b.

(** [a && b] *)
Definition js_and (a b : jsval) : jsval := if truthy a then b else a.

(** Own property of an object literal, [undefined] when missing. *)
Fixpoint field (k : string) (fs : list (string * jsval)) : jsval :=
  match fs with
  | [] => VUndefined
  | (k', v) :: fs' => if String.eqb k k' then v else field k fs'
  end.

(** [obj.k = v] on an object literal: replace in place or append. *)
Fixpoint set_field (k : string) (v : jsval) (fs : list (string * jsval))
  : list (string * jsval) :=
  match fs with
  | [] => [(k, v)]
  | (k', v') :: fs' =>
      if String.eqb k k' then (k, v) :: fs' else (k', v') :: set_field k v fs'
  end.

(** Property read [v.k] on a value that is neither [undefined] nor [null]
    (reading from those throws a TypeError and is handled where it can
    occur).  Primitives and arrays carry none of the properties the client
    reads. *)
Definition prop (v : jsval) (k : string) : jsval :=
  match v with
  | VObj fs => field k fs
  | VErr m c =>
      if String.eqb k "message" then m
      else if String.eqb k "code" then c else VUndefined
  | _ => VUndefined
  end.

(** [v.length] of an array or a string. *)
Definition js_length (v : jsval) : jsval :=
  match v with
  | VArr l => VNum (Z.of_nat (length l))
  | VStr s | VBuf s => VNum (Z.of_nat (String.length s))
  | _ => prop v "length"
  end.

(** [_.isArray] *)
Definition isArray (v : jsval) : bool :=
  match v with VArr _ => true | _ => false end.

(** [_.defaults(target, src)]: every own property of [src] that is
    [undefined] on [target] is copied. *)
Fixpoint defaults_fields (target src : list (string * jsval))
  : list (string * jsval) :=
  match src with
  | [] => target
  | (k, v) :: src' =>
      defaults_fields
        (match field k target with
         | VUndefined => set_field k v target
         | _ => target
         end) src'
  end.

(** The own enumerable properties [_.defaults] sees on a source or target
    value: those of an object literal, none for anything else. *)
Definition own_fields (v : jsval) : list (string * jsval) :=
  match v with VObj fs => fs | _ => [] end.

Definition js_defaults (target : jsval) (src : list (string * jsval)) : jsval :=
  VObj (defaults_fields (own_fields target) src).

Definition nullish (v : jsval) : bool :=
  match v with VUndefined | VNull => true | _ => false end.

(** ToString, as used by [+] with a string operand and by [RegExp.test].
    An array is the comma-separated join of its elements, where
    [undefined] and [null] elements contribute the empty string. *)
Fixpoint js_to_string (v : jsval) : string :=
  match v with
  | VUndefined => "undefined"
  | VNull => "null"
  | VBool true => "true"
  | VBool false => "false"
  | VNum z => pretty z
  | VStr s => s
  | VBuf b => b
  | VArr l =>
      (fix join (l : list jsval) : string :=
         match l with
         | [] => ""
         | x :: l' =>
             (if nullish x then "" else js_to_string x)
             +:+ match l' with [] => "" | _ => "," +:+ join l' end
         end) l
  | VObj _ | VRef _ => "[object Object]"
  | VErr m _ => "Error: " +:+ js_to_string m
  end.

(** [_.extend(target, src)]: every property of [src] is assigned. *)
Definition js_extend (target src : list (string * jsval)) : list (string * jsval) :=
  fold_left (fun acc kv => set_field kv.1 kv.2 acc) src target.

(** [v === 'lit'] for a string literal. *)
Definition is_string (lit : string) (v : jsval) : bool :=
  match v with VStr s => String.eqb s lit | _ => false end.

(** [/^2..$/.test(v)]: the argument is converted to a string, which must
    consist of the character 2 followed by two characters other than line
    terminators. *)
Definition line_terminator (c : ascii) : bool :=
  (Ascii.eqb c "010" || Ascii.eqb c "013")%bool.

Definition test_2xx (v : jsval) : bool :=
  match js_to_string v with
  | String "2" (String c1 (String c2 EmptyString)) =>
      negb (line_terminator c1) && negb (line_terminator c2)
  | _ => false
  end.

(** [buf.toString('hex')] *)
Definition hex_digit (n : N) : ascii :=
  match n with
  | 0%N => "0" | 1%N => "1" | 2%N => "2" | 3%N => "3" | 4%N => "4"
  | 5%N => "5" | 6%N => "6" | 7%N => "7" | 8%N => "8" | 9%N => "9"
  | 10%N => "a" | 11%N => "b" | 12%N => "c" | 13%N => "d" | 14%N => "e"
  | _ => "f"
  end%char.

Fixpoint hex (bytes : string) : string :=
  match bytes with
  | EmptyString => EmptyString
  | String c rest =>
      let n := N_of_ascii c in
      String (hex_digit (n / 16)) (String (hex_digit (n mod 16)) (hex rest))
  end.

(** ** The result cache *)

(** Modelled from the spec: the cache class of the [lru] package, which the
    client instantiates once per cache-eligible type, is not part of the
    repository.  A region is bounded by a maximum entry count (the least
    recently used entry is evicted first) and by a maximum age (an entry
    older than the age bound is treated as absent).  As in the package, a
    bound of zero stands for the package default (1000 entries, no age
    limit).  Entries are kept most recently used first. *)
Module LRU.

Record entry := Entry { key : string; value : jsval; modified : Z }.

Record t := Make { max : Z; maxAge : Z; items : list entry }.

Definition create (max maxAge : Z) : t :=
  {| max := if max =? 0 then 1000 else max; maxAge := maxAge; items := [] |}.

Definition find (k : string) (l : list entry) : option entry :=
  List.find (fun e => String.eqb (key e) k) l.

Definition remove (k : string) (l : list entry) : list entry :=
  List.filter (fun e => negb (String.eqb (key e) k)) l.

Definition expired (c : t) (now : Z) (e : entry) : bool :=
  negb (maxAge c =? 0) && (maxAge c <? now - modified e).

(** [cache.get(k)] at time [now]: the value, if present and not older
    than the age bound, and the region afterwards (an expired entry is
    dropped, a live one becomes the most recently used). *)
Definition get (now : Z) (k : string) (c : t) : jsval * t :=
  match find k (items c) with
  | None => (VUndefined, c)
  | Some e =>
      if expired c now e
      then (VUndefined, Make (max c) (maxAge c) (remove k (items c)))
      else (value e, Make (max c) (maxAge c) (e :: remove k (items c)))
  end.

(** Drop the least recently used entry. *)
Definition evict (l : list entry) : list entry := removelast l.

(** [cache.set(k, v)] at time [now]. *)
Definition set (now : Z) (k : string) (v : jsval) (c : t) : t :=
  let e := Entry k v (if maxAge c =? 0 then 0 else now) in
  match find k (items c) with
  | Some _ => Make (max c) (maxAge c) (e :: remove k (items c))
  | None =>
      let rest :=
        if Z.of_nat (length (items c)) =? max c
        then evict (items c) else items c in
      Make (max c) (maxAge c) (e :: rest)
  end.

Definition clear (c : t) : t := Make (max c) (maxAge c) [].

End LRU.

(** ** Functions as data *)

(** A function supplied by the caller of the library is known by a number
    [f]; when it is invoked, the invocation is recorded and the function
    then makes the library calls of [body] in order.  This covers callers
    that re-enter the client from inside a completion callback. *)
Inductive user_fn : Type :=
  | UFun (f : nat) (body : list call)
with call : Type :=
  | CHandleReply (rid : nat) (err data : jsval)
  | CRequest (type : string) (payload _opts : jsval) (cb : option user_fn)
  | CLookup (key : jsval) (_opts : arg) (cb : option user_fn)
  | CAnnounce (key port : jsval) (_opts : arg) (cb : option user_fn)
  | CStartAnnouncing (key port : jsval) (opts : arg) (cb : option user_fn)
  | CStopAnnouncing (key port : jsval)
  | CPut (opts : jsval) (cb : option user_fn)
  | CPutMutable (data opts : jsval) (cb : option user_fn)
  | CGet (hash : jsval) (cb : option user_fn)
  | CStart
  | CStop
with arg : Type :=
  | AVal (v : jsval)
  | AFun (u : user_fn).

(** The function values the client passes around: what a caller supplied
    ([CbUndefined] when it supplied nothing) and the closures the client
    creates itself, each named after the place that creates it. *)
Inductive callback : Type :=
  | CbUndefined
  | CbUser (u : user_fn)
  | CbNoop                       (* [() => { }], lines 133 and 209 *)
  | CbPost (cb : callback)       (* the handler given to [request.post], line 51 *)
  | CbReply (rid : nat)          (* the handler given to [post], line 102 *)
  | CbRetry (attempt : nat) (times : Z) (type : string)
            (payload _opts : jsval) (done : callback)
                                 (* the [next] of [async.retry], line 72 *)
  | CbLookup (cb : callback)     (* the handler of [lookup], line 161 *)
  | CbAnn (a : nat)              (* [ann], line 182 *)
  | CbReann (a : nat).           (* [reann], line 183 *)

Definition of_user (o : option user_fn) : callback :=
  match o with Some u => CbUser u | None => CbUndefined end.

(** [_.isFunction] *)
Definition isFunction (cb : callback) : bool :=
  match cb with CbUndefined => false | _ => true end.

(** ** State *)

Record Conf := {
  grape : string;
  monitorTimeout : Z;
  requestTimeout : Z;
  lruMaxSizeLookup : Z;
  lruMaxAgeLookup : Z
}.

(** A pending request (lines 128-137). *)
Record Request := {
  req_rid : nat;
  req_type : string;
  req_payload : jsval;
  req_opts : jsval;
  req_cb : callback;
  req_ts : Z;
  req_qhash : string
}.

(** One activation of [startAnnouncing]: the [info] object (lines 180) and
    the variables its closures [ann] and [reann] capture.  [ann_cb] is the
    parameter [cb], which [reann] overwrites with [null]. *)
Record Announcer := {
  info_timeout : option nat;
  info_stopped : bool;
  ann_key : jsval;
  ann_port : jsval;
  ann_opts : jsval;
  ann_interval : jsval;
  ann_cb : option user_fn
}.

(** What the client does to the outside, most recent first in the trace. *)
Inductive event : Type :=
  | EvPost (x : nat) (options : jsval)           (* [request.post(options, ...)] *)
  | EvCall (f : nat) (args : list jsval)         (* caller function [f] invoked *)
  | EvDispatch (rid : nat) (err data : jsval)    (* [req.cb(err, data)], line 122 *)
  | EvSetTimeout (h : nat) (fn : callback) (ms : option Z)
  | EvClearTimeout (h : option nat)
  | EvEncode (v : jsval)                         (* [bencode.encode(v)] *)
  | EvSign (msg : string) (publicKey secretKey : jsval)
  | EvWarn (msg : string).

(** The instance ([conf] to [_announces]) and the part of the host it
    works with: the heap of [Announcer]s and of caller-owned objects, the
    pending timers and transport exchanges, the source of fresh
    identifiers, the clock, and the upcoming [Math.random()] draws given as
    numerators over [2^53]. *)
Record World := {
  conf : Conf;
  _inited : bool;
  cache : gmap string LRU.t;
  _reqs : gmap nat Request;
  _announces : gmap string nat;
  announcers : gmap nat Announcer;
  objects : gmap nat (list (string * jsval));
  timers : gmap nat callback;
  exchanges : gmap nat callback;
  fresh : nat;
  now : Z;
  random : list Z;
  trace : list event
}.

Definition set_cache (c : gmap string LRU.t) (w : World) : World :=
  {| conf := conf w; _inited := _inited w; cache := c; _reqs := _reqs w;
     _announces := _announces w; announcers := announcers w;
     objects := objects w; timers := timers w; exchanges := exchanges w;
     fresh := fresh w; now := now w; random := random w; trace := trace w |}.

Definition set_reqs (r : gmap nat Request) (w : World) : World :=
  {| conf := conf w; _inited := _inited w; cache := cache w; _reqs := r;
     _announces := _announces w; announcers := announcers w;
     objects := objects w; timers := timers w; exchanges := exchanges w;
     fresh := fresh w; now := now w; random := random w; trace := trace w |}.

Definition set_announces (a : gmap string nat) (w : World) : World :=
  {| conf := conf w; _inited := _inited w; cache := cache w; _reqs := _reqs w;
     _announces := a; announcers := announcers w;
     objects := objects w; timers := timers w; exchanges := exchanges w;
     fresh := fresh w; now := now w; random := random w; trace := trace w |}.

Definition set_announcers (a : gmap nat Announcer) (w : World) : World :=
  {| conf := conf w; _inited := _inited w; cache := cache w; _reqs := _reqs w;
     _announces := _announces w; announcers := a;
     objects := objects w; timers := timers w; exchanges := exchanges w;
     fresh := fresh w; now := now w; random := random w; trace := trace w |}.

Definition set_objects (o : gmap nat (list (string * jsval))) (w : World) : World :=
  {| conf := conf w; _inited := _inited w; cache := cache w; _reqs := _reqs w;
     _announces := _announces w; announcers := announcers w;
     objects := o; timers := timers w; exchanges := exchanges w;
     fresh := fresh w; now := now w; random := random w; trace := trace w |}.

Definition set_timers (t : gmap nat callback) (w : World) : World :=
  {| conf := conf w; _inited := _inited w; cache := cache w; _reqs := _reqs w;
     _announces := _announces w; announcers := announcers w;
     objects := objects w; timers := t; exchanges := exchanges w;
     fresh := fresh w; now := now w; random := random w; trace := trace w |}.

Definition set_exchanges (x : gmap nat callback) (w : World) : World :=
  {| conf := conf w; _inited := _inited w; cache := cache w; _reqs := _reqs w;
     _announces := _announces w; announcers := announcers w;
     objects := objects w; timers := timers w; exchanges := x;
     fresh := fresh w; now := now w; random := random w; trace := trace w |}.

Definition set_fresh (n : nat) (w : World) : World :=
  {| conf := conf w; _inited := _inited w; cache := cache w; _reqs := _reqs w;
     _announces := _announces w; announcers := announcers w;
     objects := objects w; timers := timers w; exchanges := exchanges w;
     fresh := n; now := now w; random := random w; trace := trace w |}.

Definition set_now (t : Z) (w : World) : World :=
  {| conf := conf w; _inited := _inited w; cache := cache w; _reqs := _reqs w;
     _announces := _announces w; announcers := announcers w;
     objects := objects w; timers := timers w; exchanges := exchanges w;
     fresh := fresh w; now := t; random := random w; trace := trace w |}.

Definition set_random (r : list Z) (w : World) : World :=
  {| conf := conf w; _inited := _inited w; cache := cache w; _reqs := _reqs w;
     _announces := _announces w; announcers := announcers w;
     objects := objects w; timers := timers w; exchanges := exchanges w;
     fresh := fresh w; now := now w; random := r; trace := trace w |}.

Definition set_trace (t : list event) (w : World) : World :=
  {| conf := conf w; _inited := _inited w; cache := cache w; _reqs := _reqs w;
     _announces := _announces w; announcers := announcers w;
     objects := objects w; timers := timers w; exchanges := exchanges w;
     fresh := fresh w; now := now w; random := random w; trace := t |}.

(** ** The monad of the client's code *)

(** What a JavaScript [throw] carries. *)
Inductive exn : Type :=
  | TypeError (msg : string)
  | ReferenceError (name : string)
  | RangeError (msg : string)
  | Thrown (v : jsval).

(** A computation returns, throws, or is cut off by the recursion bound of
    the interpreter; the state reached is kept in each case. *)
Inductive outcome (A : Type) : Type :=
  | Ret (a : A)
  | Throw (e : exn)
  | OutOfFuel.
Arguments Ret {A} a.
Arguments Throw {A} e.
Arguments OutOfFuel {A}.

Definition M (A : Type) : Type := World -> outcome A * World.

Definition ret {A} (a : A) : M A := fun w => (Ret a, w).

Definition throw {A} (e : exn) : M A := fun w => (Throw e, w).

Definition out_of_fuel {A} : M A := fun w => (OutOfFuel, w).

Definition bind {A B} (m : M A) (k : A -> M B) : M B :=
  fun w =>
    match m w with
    | (Ret a, w') => k a w'
    | (Throw e, w') => (Throw e, w')
    | (OutOfFuel, w') => (OutOfFuel, w')
    end.

Notation "'do' x <- m ; k" := (bind m (fun x => k))
  (at level 10, x name, m at level 100, k at level 200).
Notation "m ;; k" := (bind m (fun _ => k))
  (at level 100, k at level 200, right associativity).

Definition gets {A} (f : World -> A) : M A := fun w => (Ret (f w), w).

Definition modify (f : World -> World) : M unit := fun w => (Ret tt, f w).

Definition emit (e : event) : M unit := modify (fun w => set_trace (e :: trace w) w).

(** A fresh identifier: a uuid, a timer handle, an exchange or an address. *)
Definition fresh_id : M nat :=
  fun w => (Ret (fresh w), set_fresh (S (fresh w)) w).

(** [Date.now()] *)
Definition Date_now : M Z := gets now.

(** [Math.random()]: the next draw [r], standing for [r / 2^53]. *)
Definition Math_random : M Z :=
  fun w =>
    match random w with
    | [] => (Ret 0, w)
    | r :: rest => (Ret r, set_random rest w)
    end.

Fixpoint for_each {A} (f : A -> M unit) (l : list A) : M unit :=
  match l with
  | [] => ret tt
  | x :: l' => f x ;; for_each f l'
  end.

(** The [n]-th argument of a call, [undefined] when not supplied. *)
Definition nth_arg (n : nat) (args : list jsval) : jsval := nth n args VUndefined.

(** [setTimeout(fn, ms)] and [clearTimeout(h)]; [ms] is [None] when the
    delay is not an integral number. *)
Definition setTimeout (fn : callback) (ms : option Z) : M nat :=
  do h <- fresh_id;
  modify (fun w => set_timers (<[h := fn]> (timers w)) w);;
  emit (EvSetTimeout h fn ms);;
  ret h.

Definition clearTimeout (h : option nat) : M unit :=
  modify (fun w =>
    match h with
    | Some h' => set_timers (delete h' (timers w)) w
    | None => w
    end);;
  emit (EvClearTimeout h).

(** Property read and assignment that follow a reference into the heap of
    caller-owned objects.  An assignment to an object literal that was
    written in the call itself yields the updated literal; strict mode
    refuses to create a property on a primitive. *)
Definition peek (w : World) (v : jsval) (k : string) : jsval :=
  match v with
  | VRef a => field k (default [] (objects w !! a))
  | _ => prop v k
  end.

Definition read (v : jsval) (k : string) : M jsval :=
  gets (fun w => peek w v k).

Definition write (v : jsval) (k : string) (x : jsval) : M jsval :=
  match v with
  | VRef a =>
      modify (fun w =>
        set_objects (<[a := set_field k x (default [] (objects w !! a))]> (objects w)) w);;
      ret v
  | VObj fs => ret (VObj (set_field k x fs))
  | _ => throw (TypeError "Cannot create property")
  end.

(** The object a reference denotes at the moment it is serialised. *)
Definition deref (w : World) (v : jsval) : jsval :=
  match v with
  | VRef a => VObj (default [] (objects w !! a))
  | _ => v
  end.

(** The names bound at the top level of the module (lines 3-8 and 11). *)
Definition module_bindings : list string :=
  ["_"; "async"; "uuidv4"; "LRU"; "request"; "bencode"; "Link"].

(** Evaluating an identifier that is neither bound in the module nor a
    global of the host throws a ReferenceError. *)
Definition resolve (name : string) : M unit :=
  if bool_decide (name ∈ module_bindings) then ret tt
  else throw (ReferenceError name).

(** [v.toString('hex')] *)
Definition toString_hex (v : jsval) : M jsval :=
  match v with
  | VBuf b => ret (VStr (hex b))
  | VNum _ => throw (RangeError "toString() radix must be between 2 and 36")
  | _ => ret (VStr (js_to_string v))
  end.

(** [s.slice(1, -1)] *)
Definition slice_1_m1 (s : string) : string :=
  match s with
  | EmptyString => EmptyString
  | String _ rest => String.substring 0 (String.length rest - 1) rest
  end.

(** [Math.ceil(0.5 * interval + Math.random() * interval)] for the draw
    [r / 2^53], in exact arithmetic. *)
Definition jitter (interval : jsval) (r : Z) : option Z :=
  match interval with
  | VNum i => Some (- ((- (i * 2 ^ 52 + r * i)) / 2 ^ 53))
  | _ => None
  end.

(** The uuid string that stands for identifier [n]. *)
Definition uuid (n : nat) : jsval := VStr (pretty n).

(** Modelled from the spec: [async.retry] is not part of the repository.
    After an attempt's callback has fired with [err], the attempt function
    is invoked again when the attempt failed and fewer than [times]
    attempts have been made; otherwise the final callback receives what the
    attempt's callback received.  [attempt] counts the attempts started. *)
Definition retry_again (attempt : nat) (times : Z) (err : jsval) : bool :=
  truthy err && (Z.of_nat attempt <? times).

(** Modelled from the spec: the number of attempts [async.retry] reads
    from its first argument; the spec gives it as a number, any other value
    is read as a single attempt. *)
Definition retry_times (t : jsval) : Z :=
  match t with VNum z => z | _ => 1 end.

(** ** The retry executor on its own *)

Section Retry.

Context {S : Type}.

(** The attempt function: from the number of the attempt and the state
    it starts in, the state in which its callback fires and the
    arguments the callback receives. *)
Variable attemptFn : nat -> S -> S * list jsval.

(** Modelled from the spec: [async.retry(times, attemptFn, done)].  The
    result is the state in which [done] is called, the arguments it
    receives and the number of attempts made. *)
Fixpoint retryAttempt (fuel attempt : nat) (times : Z) (s : S)
  : option (S * list jsval * nat) :=
  let '(s1, args) := attemptFn attempt s in
  if retry_again attempt times (nth_arg 0 args) then
    match fuel with
    | O => None
    | Datatypes.S fuel' => retryAttempt fuel' (Datatypes.S attempt) times s1
    end
  else Some (s1, args, attempt).

Definition retry (times : Z) (s : S) : option (S * list jsval * nat) :=
  retryAttempt (Z.to_nat times) 1 times s.

End Retry.

(** ** The methods of [Link] *)

Definition default_conf : Conf :=
  {| grape := ""; monitorTimeout := 2000; requestTimeout := 2500;
     lruMaxSizeLookup := 2500; lruMaxAgeLookup := 10000 |}.

(** The configuration object a caller hands to the constructor: each
    key is optional. *)
Record ConfArg := {
  arg_grape : option string;
  arg_monitorTimeout : option Z;
  arg_requestTimeout : option Z;
  arg_lruMaxSizeLookup : option Z;
  arg_lruMaxAgeLookup : option Z
}.

(** [_.extend(this.conf, conf)] (line 21) *)
Definition extend_conf (c : Conf) (a : ConfArg) : Conf :=
  {| grape := default (grape c) (arg_grape a);
     monitorTimeout := default (monitorTimeout c) (arg_monitorTimeout a);
     requestTimeout := default (requestTimeout c) (arg_requestTimeout a);
     lruMaxSizeLookup := default (lruMaxSizeLookup c) (arg_lruMaxSizeLookup a);
     lruMaxAgeLookup := default (lruMaxAgeLookup c) (arg_lruMaxAgeLookup a) |}.

(** The cache-eligible types (line 32) with the bounds of their regions. *)
Definition cache_regions (c : Conf) : list (string * LRU.t) :=
  [("lookup", LRU.create (lruMaxSizeLookup c) (lruMaxAgeLookup c))].

(** [init()] (lines 26-44) *)
Definition init (w : World) : World :=
  {| conf := conf w; _inited := true;
     cache := list_to_map (cache_regions (conf w));
     _reqs := ∅; _announces := ∅;
     announcers := announcers w; objects := objects w; timers := timers w;
     exchanges := exchanges w; fresh := fresh w; now := now w;
     random := random w; trace := trace w |}.

(** [new Link(conf)] (lines 12-23) in a host whose clock shows [t0], whose
    heap holds the caller's objects [objs] and whose random draws will be
    [draws]. *)
Definition new_Link (a : ConfArg) (t0 : Z) (objs : gmap nat (list (string * jsval)))
    (draws : list Z) : World :=
  init {| conf := extend_conf default_conf a; _inited := false;
          cache := ∅; _reqs := ∅; _announces := ∅;
          announcers := ∅; objects := objs; timers := ∅; exchanges := ∅;
          fresh := 0; now := t0; random := draws; trace := [] |}.

Definition missing_args : exn := Thrown (VErr (VStr "ERR_MISSING_ARGS") VUndefined).

(** What the module takes from outside and the model leaves open:
    [JSON.stringify], [bencode.encode] and the signing function that
    [ed.sign] would denote. *)
Class Externals := {
  JSON_stringify : jsval -> string;
  bencode_encode : jsval -> string;
  ed_sign : string -> jsval -> jsval -> string
}.

Section Methods.

Context {ext : Externals}.

(** Application of a function value to arguments; the interpreter
    [apply_fn] below closes the loop. *)
Variable call_fn : callback -> list jsval -> M unit.

(** [post(url, data, opts, cb)] (lines 46-65): the exchange is handed to
    the transport, whose response runs [post_handler]. *)
Definition post (url : string) (data opts : jsval) (cb : callback) : M unit :=
  do x <- fresh_id;
  modify (fun w => set_exchanges (<[x := CbPost cb]> (exchanges w)) w);;
  emit (EvPost x (VObj (js_extend
    [("url", VStr url); ("json", VBool true); ("body", data)] (own_fields opts)))).

(** Lines 51-64. *)
Definition post_handler (cb : callback) (err res resData : jsval) : M unit :=
  if truthy err && is_string "ETIMEDOUT" (prop err "code") then
    if nullish res then throw (TypeError "Cannot read properties of undefined")
    else call_fn cb [VErr (VStr "ERR_TIMEOUT") (prop res "statusCode")]
  else if truthy res && negb (test_2xx (prop res "statusCode")) then
    call_fn cb [VErr resData (prop res "statusCode")]
  else call_fn cb [err; res; resData].

(** Lines 67-69. *)
Definition getRequestHash (type : string) (payload : jsval) : M string :=
  gets (fun w => type +:+ ":" +:+ JSON_stringify (deref w payload)).

(** Lines 125-140. *)
Definition newRequest (type : string) (payload opts : jsval) (cb : callback)
  : M Request :=
  do rid <- fresh_id;
  do ts <- Date_now;
  do qhash <- getRequestHash type payload;
  ret {| req_rid := rid; req_type := type; req_payload := payload;
         req_opts := opts;
         req_cb := if isFunction cb then cb else CbNoop;
         req_ts := ts; req_qhash := qhash |}.

(** Lines 142-152. *)
Definition addRequest (req : Request) : M unit :=
  modify (fun w => set_reqs (<[req_rid req := req]> (_reqs w)) w).

Definition delRequest (req : Request) : M unit :=
  modify (fun w => set_reqs (delete (req_rid req) (_reqs w)) w).

Definition getRequest (rid : nat) : M (option Request) :=
  gets (fun w => _reqs w !! rid).

(** [cache.set(req.qhash, data)] on the region of [type], if there is
    one (lines 115-118). *)
Definition cache_set (type qhash : string) (data : jsval) : M unit :=
  do regions <- gets cache;
  match regions !! type with
  | Some region =>
      do t <- Date_now;
      modify (fun w => set_cache (<[type := LRU.set t qhash data region]> (cache w)) w)
  | None => ret tt
  end.

(** [handleReply(rid, err, data)] (lines 108-123).  The trace entry
    [EvDispatch] marks the call [req.cb(err, data)]. *)
Definition handleReply (rid : nat) (err data : jsval) : M unit :=
  do found <- getRequest rid;
  match found with
  | None => ret tt
  | Some req =>
      (if negb (truthy err) && truthy data
       then cache_set (req_type req) (req_qhash req) data
       else ret tt);;
      delRequest req;;
      emit (EvDispatch rid err data);;
      call_fn (req_cb req) [err; data]
  end.

(** [cache.get(qhash)] on the region of [type], [undefined] when the
    type has no region (lines 81-86). *)
Definition cache_get (type : string) (payload : jsval) : M jsval :=
  do regions <- gets cache;
  match regions !! type with
  | Some region =>
      do qhash <- getRequestHash type payload;
      do t <- Date_now;
      modify (fun w =>
        set_cache (<[type := (LRU.get t qhash region).2]> (cache w)) w);;
      ret (LRU.get t qhash region).1
  | None => ret VUndefined
  end.

(** [_request(type, payload, _opts, cb)] (lines 77-106).  [_.defaults]
    fills [timeout] into the caller's [_opts] in place; the options are
    kept as a value here: the configuration is fixed at construction, so a
    later attempt of the same call computes the same [opts]. *)
Definition _request (type : string) (payload _opts : jsval) (cb : callback)
  : M unit :=
  do c <- gets conf;
  let opts := js_defaults _opts [("timeout", VNum (requestTimeout c))] in
  do cval <- cache_get type payload;
  if truthy cval then call_fn cb [VNull; cval]
  else
    do req <- newRequest type payload opts cb;
    addRequest req;;
    post (grape c +:+ "/" +:+ type)
         (VObj [("rid", uuid (req_rid req)); ("data", req_payload req)])
         (VObj [("timeout", prop opts "timeout")])
         (CbReply (req_rid req)).

(** The [next] that [async.retry] hands to the attempt function of
    [request]: retry, or finish with the final callback. *)
Definition retry_next (attempt : nat) (times : Z) (type : string)
    (payload _opts : jsval) (done : callback) (args : list jsval) : M unit :=
  if retry_again attempt times (nth_arg 0 args) then
    _request type payload _opts
      (CbRetry (S attempt) times type payload _opts done)
  else call_fn (if isFunction done then done else CbNoop) args.

(** [request(type, payload, _opts = {}, cb)] (lines 71-75) *)
Definition request (type : string) (payload _opts : jsval) (cb : callback)
  : M unit :=
  let _opts := match _opts with VUndefined => VObj [] | _ => _opts end in
  if nullish _opts then throw (TypeError "Cannot read properties of null")
  else
    let times := retry_times (js_or (prop _opts "retry") (VNum 1)) in
    _request type payload _opts (CbRetry 1 times type payload _opts cb).

(** [_.defaults({}, _opts, { retry: 3 })] (lines 157 and 212) *)
Definition with_retry_3 (_opts : jsval) : jsval :=
  VObj (defaults_fields (defaults_fields [] (own_fields _opts)) [("retry", VNum 3)]).

(** [lookup(key, _opts = {}, cb)] (lines 154-173) *)
Definition lookup (key : jsval) (_opts : arg) (cb : callback) : M unit :=
  let '(_opts, cb) :=
    match _opts with
    | AFun u => (VObj [], CbUser u)
    | AVal VUndefined => (VObj [], cb)
    | AVal v => (v, cb)
    end in
  request "lookup" key (with_retry_3 _opts) (CbLookup cb).

(** Lines 161-172. *)
Definition lookup_handler (cb : callback) (err res : jsval) : M unit :=
  if truthy err then call_fn cb [err]
  else if negb (isArray res) || negb (truthy (js_length res))
  then call_fn cb [VErr (VStr "ERR_GRAPE_LOOKUP_EMPTY") VUndefined]
  else call_fn cb [VNull; res].

(** [announce(key, port, _opts = {}, cb)] (lines 205-217) *)
Definition announce (key port : jsval) (_opts : arg) (cb : callback) : M unit :=
  let '(_opts, cb) :=
    match _opts with
    | AFun u => (VObj [], CbUser u)
    | AVal VUndefined => (VObj [], cb)
    | AVal v => (v, cb)
    end in
  let cb := if isFunction cb then cb else CbNoop in
  request "announce" (VArr [key; port]) (with_retry_3 _opts) cb.

(** The activation at address [a]; closures exist only for activations
    that were allocated. *)
Definition announcer (a : nat) : M (option Announcer) :=
  gets (fun w => announcers w !! a).

Definition set_announcer (a : nat) (f : Announcer -> Announcer) : M unit :=
  modify (fun w => set_announcers (alter f a (announcers w)) w).

Definition with_timeout (h : option nat) (i : Announcer) : Announcer :=
  {| info_timeout := h; info_stopped := info_stopped i; ann_key := ann_key i;
     ann_port := ann_port i; ann_opts := ann_opts i;
     ann_interval := ann_interval i; ann_cb := ann_cb i |}.

Definition with_stopped (b : bool) (i : Announcer) : Announcer :=
  {| info_timeout := info_timeout i; info_stopped := b; ann_key := ann_key i;
     ann_port := ann_port i; ann_opts := ann_opts i;
     ann_interval := ann_interval i; ann_cb := ann_cb i |}.

Definition with_cb (cb : option user_fn) (i : Announcer) : Announcer :=
  {| info_timeout := info_timeout i; info_stopped := info_stopped i;
     ann_key := ann_key i; ann_port := ann_port i; ann_opts := ann_opts i;
     ann_interval := ann_interval i; ann_cb := cb |}.

(** [ann] (line 182) *)
Definition ann (a : nat) : M unit :=
  do act <- announcer a;
  match act with
  | Some i => announce (ann_key i) (ann_port i) (AVal (ann_opts i)) (CbReann a)
  | None => ret tt
  end.

(** [reann] (lines 183-189) *)
Definition reann (a : nat) (err : jsval) : M unit :=
  do act <- announcer a;
  match act with
  | Some i =>
      match ann_cb i with
      | Some u => call_fn (CbUser u) [err]
      | None => ret tt
      end;;
      set_announcer a (with_cb None);;
      do act' <- announcer a;
      if default true (info_stopped <$> act') then ret tt
      else
        do r <- Math_random;
        do h <- setTimeout (CbAnn a) (jitter (ann_interval i) r);
        set_announcer a (with_timeout (Some h))
  | None => ret tt
  end.

(** [port + ':' + key] *)
Definition announce_id (key port : jsval) : string :=
  js_to_string port +:+ ":" +:+ js_to_string key.

(** [startAnnouncing(key, port, opts = {}, cb)] (lines 175-193) *)
Definition startAnnouncing (key port : jsval) (opts : arg) (cb : option user_fn)
  : M jsval :=
  let '(opts, cb) :=
    match opts with
    | AFun u => (VObj [], Some u)
    | AVal VUndefined => (VObj [], cb)
    | AVal v => (v, cb)
    end in
  let id := announce_id key port in
  do anns <- gets _announces;
  if bool_decide (is_Some (anns !! id)) then ret (VBool false)
  else
    let interval := js_or (js_and opts (prop opts "interval")) (VNum (2 * 60 * 1000)) in
    do a <- fresh_id;
    modify (fun w => set_announcers (<[a :=
      {| info_timeout := None; info_stopped := false; ann_key := key;
         ann_port := port; ann_opts := opts; ann_interval := interval;
         ann_cb := cb |}]> (announcers w)) w);;
    call_fn (CbAnn a) [];;
    modify (fun w => set_announces (<[id := a]> (_announces w)) w);;
    ret VUndefined.

(** Lines 201-202, also the body of the loop of [stop] (lines 266-267). *)
Definition stop_info (a : nat) : M unit :=
  set_announcer a (with_stopped true);;
  do act <- announcer a;
  clearTimeout (act ≫= info_timeout).

(** [stopAnnouncing(key, port)] (lines 195-203) *)
Definition stopAnnouncing (key port : jsval) : M jsval :=
  let id := announce_id key port in
  do anns <- gets _announces;
  match anns !! id with
  | None => ret (VBool false)
  | Some a =>
      modify (fun w => set_announces (delete id (_announces w)) w);;
      stop_info a;;
      ret VUndefined
  end.

(** [put(opts, cb)] (lines 219-222) *)
Definition put (opts : jsval) (cb : callback) : M unit :=
  if negb (truthy opts) || negb (isFunction cb) then throw missing_args
  else request "put" opts (VObj []) cb.

(** [putMutable(data, opts, cb)] (lines 224-246) *)
Definition putMutable (data opts : jsval) (cb : callback) : M unit :=
  if negb (truthy data) || negb (truthy opts) || negb (isFunction cb)
  then throw missing_args
  else
    do seq <- read data "seq";
    if negb (truthy seq) then call_fn cb [VErr (VStr "ERR_MISSING_SEQ") VUndefined]
    else
      do keys <- read opts "keys";
      if nullish keys then throw (TypeError "Cannot destructure property")
      else
        do publicKey <- read keys "publicKey";
        do secretKey <- read keys "secretKey";
        if negb (truthy publicKey) || negb (truthy secretKey)
        then call_fn cb [VErr (VStr "ERR_MISSING_KEY") VUndefined]
        else
          do k <- toString_hex publicKey;
          do data <- write data "k" k;
          do seq <- read data "seq";
          do v <- read data "v";
          do salt <- read data "salt";
          let toEncode :=
            VObj ([("seq", seq); ("v", v)]
                  ++ if truthy salt then [("salt", salt)] else []) in
          emit (EvEncode toEncode);;
          let encoded := slice_1_m1 (bencode_encode toEncode) in
          resolve "ed";;
          emit (EvSign encoded publicKey secretKey);;
          do data <- write data "sig" (VStr (hex (ed_sign encoded publicKey secretKey)));
          put data cb.

(** [get(hash, cb)] (lines 248-250) *)
Definition get (hash : jsval) (cb : callback) : M unit :=
  request "get" hash (VObj []) cb.

(** [start()] (lines 256-258) *)
Definition start : M unit :=
  emit (EvWarn "start() is deprecated. GrapeClient will start automatically.").

(** [stop()] (lines 260-273) *)
Definition stop : M unit :=
  modify (fun w => set_cache (LRU.clear <$> cache w) w);;
  do anns <- gets _announces;
  for_each stop_info (map_to_list anns).*2;;
  modify (set_announces ∅).

(** A call made by the caller of the library. *)
Definition do_call (c : call) : M unit :=
  match c with
  | CHandleReply rid err data => handleReply rid err data
  | CRequest type payload _opts cb => request type payload _opts (of_user cb)
  | CLookup key _opts cb => lookup key _opts (of_user cb)
  | CAnnounce key port _opts cb => announce key port _opts (of_user cb)
  | CStartAnnouncing key port opts cb => startAnnouncing key port opts cb;; ret tt
  | CStopAnnouncing key port => stopAnnouncing key port;; ret tt
  | CPut opts cb => put opts (of_user cb)
  | CPutMutable data opts cb => putMutable data opts (of_user cb)
  | CGet hash cb => get hash (of_user cb)
  | CStart => start
  | CStop => stop
  end.

End Methods.

(** ** The interpreter *)

Section Interpreter.

Context {ext : Externals}.

(** Application of a function value.  [fuel] bounds the depth of nested
    calls. *)
Fixpoint apply_fn (fuel : nat) (cb : callback) (args : list jsval) : M unit :=
  match fuel with
  | O => out_of_fuel
  | S n =>
      let self := apply_fn n in
      match cb with
      | CbUndefined => throw (TypeError "cb is not a function")
      | CbUser (UFun f body) =>
          emit (EvCall f args);;
          for_each (do_call self) body
      | CbNoop => ret tt
      | CbPost cb' =>
          post_handler self cb' (nth_arg 0 args) (nth_arg 1 args) (nth_arg 2 args)
      | CbReply rid =>
          handleReply self rid (nth_arg 0 args) (nth_arg 2 args)
      | CbRetry attempt times type payload _opts done =>
          retry_next self attempt times type payload _opts done args
      | CbLookup cb' =>
          lookup_handler self cb' (nth_arg 0 args) (nth_arg 1 args)
      | CbAnn a => ann self a
      | CbReann a => reann self a (nth_arg 0 args)
      end
  end.

(** What happens to the client: a call by its user, the transport
    delivering the response of exchange [x], timer [h] firing, or time
    passing. *)
Inductive step : Type :=
  | Call (c : call)
  | Respond (x : nat) (err res resData : jsval)
  | Fire (h : nat)
  | Tick (dt : Z).

Definition do_step (fuel : nat) (s : step) : M unit :=
  match s with
  | Call c => do_call (apply_fn fuel) c
  | Respond x err res resData =>
      do pending <- gets exchanges;
      match pending !! x with
      | Some handler =>
          modify (fun w => set_exchanges (delete x (exchanges w)) w);;
          apply_fn fuel handler [err; res; resData]
      | None => ret tt
      end
  | Fire h =>
      do pending <- gets timers;
      match pending !! h with
      | Some fn =>
          modify (fun w => set_timers (delete h (timers w)) w);;
          apply_fn fuel fn []
      | None => ret tt
      end
  | Tick dt => modify (fun w => set_now (now w + dt) w)
  end.

(** A run: the steps in order, until one throws. *)
Definition run (fuel : nat) (p : list step) : M unit :=
  for_each (do_step fuel) p.

End Interpreter.


(** ** Vocabulary of the properties *)

(** What the caller's callback receives from [lookup] after a successful
    request that produced [res]. *)
Definition lookup_result (res : jsval) : list jsval :=
  match res with
  | VArr (_ :: _) => [VNull; res]
  | _ => [VErr (VStr "ERR_GRAPE_LOOKUP_EMPTY") VUndefined]
  end.

Section Chain.

Context {S : Type}.
Variable attemptFn : nat -> S -> S * list jsval.

(** Attempts made one after the other from state [s]: the state in which
    the callback of attempt [i] fires and the arguments it receives. *)
Fixpoint nth_attempt (i : nat) (s : S) : S * list jsval :=
  match i with
  | O => (s, [])
  | Datatypes.S j => attemptFn i (nth_attempt j s).1
  end.

(** Attempt [i] of the chain failed: its callback received an error. *)
Definition failed (i : nat) (s : S) : bool :=
  truthy (nth_arg 0 (nth_attempt i s).2).

End Chain.

(** The number of network exchanges started in a trace. *)
Definition is_post (e : event) : bool :=
  match e with EvPost _ _ => true | _ => false end.

Definition posts (tr : list event) : nat := length (List.filter is_post tr).

(** The transport activity, encoding and signing in a trace. *)
Definition quiet (e : event) : bool :=
  match e with
  | EvPost _ _ | EvEncode _ | EvSign _ _ _ => false
  | _ => true
  end.

(** Instances of the functions left open by the model, used in closed
    examples: values are serialised by their string conversion, and a
    signature is the message itself. *)
Definition sample_externals : Externals :=
  {| JSON_stringify := js_to_string;
     bencode_encode := fun v => "d" +:+ js_to_string v +:+ "e";
     ed_sign := fun msg publicKey secretKey => msg |}.

Definition no_conf : ConfArg :=
  {| arg_grape := None; arg_monitorTimeout := None; arg_requestTimeout := None;
     arg_lruMaxSizeLookup := None; arg_lruMaxAgeLookup := None |}.

(** A fresh client at time 0 in a host without caller objects. *)
Definition sample_link : World := new_Link no_conf 0 ∅ [].

(** The state in which [handleReply] calls [req.cb]: the cache written if
    the reply carries no error, carries data and the type of the request
    has a region; the request removed; the call recorded. *)
Definition cached (req : Request) (err data : jsval) (w : World) : World :=
  if negb (truthy err) && truthy data then
    match cache w !! req_type req with
    | Some region =>
        set_cache (<[req_type req := LRU.set (now w) (req_qhash req) data region]> (cache w)) w
    | None => w
    end
  else w.

Definition reply_state (req : Request) (rid : nat) (err data : jsval) (w : World)
  : World :=
  let w1 := cached req err data w in
  let w2 := set_reqs (delete (req_rid req) (_reqs w1)) w1 in
  set_trace (EvDispatch rid err data :: trace w2) w2.

(** ** Who continues a schedule *)

(** The announce descriptor whose schedule a function value continues:
    [ann] and [reann] continue the schedule of their own activation, and a
    wrapper continues what the function it wraps continues. *)
Fixpoint owner (cb : callback) : option nat :=
  match cb with
  | CbAnn a | CbReann a => Some a
  | CbRetry _ _ _ _ _ done => owner done
  | CbPost cb' | CbLookup cb' => owner cb'
  | CbUndefined | CbUser _ | CbNoop | CbReply _ => None
  end.

Definition holds (a : nat) (cb : callback) : nat :=
  if decide (owner cb = Some a) then 1%nat else 0%nat.

(** The sum of [f] over the values of a table. *)
Definition total {A} (f : A -> nat) (m : gmap nat A) : nat :=
  map_fold (fun _ v n => (f v + n)%nat) 0%nat m.

(** How many continuations of the schedule of descriptor [a] are parked:
    in pending requests, pending timers and pending exchanges. *)
Definition tokens (a : nat) (w : World) : nat :=
  (total (fun r => holds a (req_cb r)) (_reqs w)
   + total (holds a) (timers w)
   + total (holds a) (exchanges w))%nat.

(** ** The elementary state changes *)

Section Mutations.

Context {ext : Externals}.

(** Trace entries that concern neither the registry nor the timers. *)
Definition plain (e : event) : bool :=
  match e with
  | EvCall _ _ | EvEncode _ | EvSign _ _ _ | EvWarn _ => true
  | _ => false
  end.

(** Every change the client and its host make to the state, each with
    what the code has established when it makes it. *)
Inductive mutation : World -> World -> Prop :=
  | mut_post w url data opts cb :
      owner cb = None ->
      mutation w (post url data opts cb w).2
  | mut_register w type payload opts cb :
      (forall a, (tokens a w + holds a cb <= 1)%nat) ->
      (forall a, owner cb = Some a -> is_Some (announcers w !! a)) ->
      mutation w
        ((do req <- newRequest type payload opts cb;
          addRequest req) w).2
  | mut_cache_set w type qhash data :
      truthy data = true ->
      mutation w (cache_set type qhash data w).2
  | mut_dispatch w rid req err data :
      _reqs w !! rid = Some req ->
      mutation w ((delRequest req;; emit (EvDispatch rid err data)) w).2
  | mut_cache_get w type payload :
      mutation w (cache_get type payload w).2
  | mut_alloc w key port opts interval cb :
      mutation w
        (set_announcers (<[fresh w :=
           {| info_timeout := None; info_stopped := false; ann_key := key;
              ann_port := port; ann_opts := opts; ann_interval := interval;
              ann_cb := cb |}]> (announcers w)) (set_fresh (S (fresh w)) w))
  | mut_announce w id a :
      is_Some (announcers w !! a) ->
      mutation w (set_announces (<[id := a]> (_announces w)) w)
  | mut_clear_cb w a :
      mutation w (set_announcer a (with_cb None) w).2
  | mut_schedule w a i ms :
      announcers w !! a = Some i ->
      info_stopped i = false ->
      tokens a w = 0%nat ->
      mutation w
        ((do r <- Math_random;
          do h <- setTimeout (CbAnn a) (ms r);
          set_announcer a (with_timeout (Some h))) w).2
  | mut_stop_info w a :
      mutation w (stop_info a w).2
  | mut_forget w id :
      mutation w (set_announces (delete id (_announces w)) w)
  | mut_forget_all w :
      mutation w (set_announces ∅ w)
  | mut_clear_caches w :
      mutation w (set_cache (LRU.clear <$> cache w) w)
  | mut_write w a k x :
      mutation w
        (set_objects (<[a := set_field k x (default [] (objects w !! a))]> (objects w)) w)
  | mut_emit w e :
      plain e = true ->
      mutation w (emit e w).2
  | mut_responded w x :
      mutation w (set_exchanges (delete x (exchanges w)) w)
  | mut_fired w h :
      mutation w (set_timers (delete h (timers w)) w)
  | mut_tick w dt :
      mutation w (set_now (now w + dt) w).

(** The states a client can be in: those that elementary changes produce
    from a new instance.  Every run stays within them (see
    [run_reachable]). *)
Definition reachable (w : World) : Prop :=
  exists a t0 objs draws, rtc mutation (new_Link a t0 objs draws) w.

End Mutations.

(** ** Invariants *)

Definition is_dispatch (rid : nat) (e : event) : bool :=
  match e with EvDispatch r _ _ => Nat.eqb r rid | _ => false end.

(** How many times the callback of request [rid] has been invoked. *)
Definition dispatches (rid : nat) (tr : list event) : nat :=
  length (List.filter (is_dispatch rid) tr).

(** The registry: a request is stored under its own identifier, which has
    been handed out and whose callback has not been invoked; no callback
    has been invoked twice, none for an identifier not yet handed out. *)
Record registry_ok (w : World) : Prop := {
  reqs_keyed : forall rid req, _reqs w !! rid = Some req -> req_rid req = rid;
  reqs_allocated : forall rid, is_Some (_reqs w !! rid) -> (rid < fresh w)%nat;
  reqs_undispatched :
    forall rid, is_Some (_reqs w !! rid) -> dispatches rid (trace w) = 0%nat;
  fresh_undispatched :
    forall rid, (fresh w <= rid)%nat -> dispatches rid (trace w) = 0%nat;
  dispatched_once : forall rid, (dispatches rid (trace w) <= 1)%nat
}.

(** The cache: [lookup] is the only type with a region, and every value
    stored is truthy. *)
Record cache_ok (w : World) : Prop := {
  cache_types : forall type, is_Some (cache w !! type) <-> type = "lookup";
  cache_truthy :
    forall type region e,
      cache w !! type = Some region -> In e (LRU.items region) ->
      truthy (LRU.value e) = true
}.

(** The heap and the host's tables: whatever is in use has been handed
    out, and a registered descriptor has its activation. *)
Record heap_ok (w : World) : Prop := {
  announcers_allocated :
    forall a, is_Some (announcers w !! a) -> (a < fresh w)%nat;
  announces_allocated :
    forall id a, _announces w !! id = Some a -> is_Some (announcers w !! a);
  timers_allocated : forall h, is_Some (timers w !! h) -> (h < fresh w)%nat;
  exchanges_allocated : forall x, is_Some (exchanges w !! x) -> (x < fresh w)%nat
}.

(** The schedules: a parked continuation belongs to an allocated
    descriptor; each descriptor has at most one parked continuation; a
    pending timer is the one its descriptor records; a stopped descriptor
    has no pending timer. *)
Record schedule_ok (w : World) : Prop := {
  reqs_owned :
    forall rid req a,
      _reqs w !! rid = Some req -> owner (req_cb req) = Some a ->
      is_Some (announcers w !! a);
  timers_owned :
    forall h fn a,
      timers w !! h = Some fn -> owner fn = Some a -> is_Some (announcers w !! a);
  exchanges_owned :
    forall x fn a,
      exchanges w !! x = Some fn -> owner fn = Some a -> is_Some (announcers w !! a);
  one_token : forall a, (tokens a w <= 1)%nat;
  timer_recorded :
    forall h a,
      timers w !! h = Some (CbAnn a) ->
      announcers w !! a ≫= info_timeout = Some h;
  stopped_idle :
    forall h a i,
      announcers w !! a = Some i -> info_stopped i = true ->
      timers w !! h <> Some (CbAnn a)
}.

Definition consistent (w : World) : Prop :=
  registry_ok w /\ cache_ok w /\ heap_ok w /\ schedule_ok w.

(** ** Vocabulary of the announce scheduler *)

Definition schedules (a : nat) (e : event) : bool :=
  match e with
  | EvSetTimeout _ (CbAnn a') _ => Nat.eqb a' a
  | _ => false
  end.

(** How many timers have been set for the descriptor at [a]. *)
Definition scheduled (a : nat) (tr : list event) : nat :=
  length (List.filter (schedules a) tr).

(** The descriptor at [a] has been stopped. *)
Definition stopped (a : nat) (w : World) : Prop :=
  exists i, announcers w !! a = Some i /\ info_stopped i = true.

(** Timer [h] is pending and will run the [ann] of the descriptor at [a]. *)
Definition pending_for (a h : nat) (w : World) : Prop :=
  timers w !! h = Some (CbAnn a).

(** ** States along a lookup *)

Section States.

Context {ext : Externals}.

(** The fingerprint [_request] computes in state [w]. *)
Definition fingerprint (w : World) (type : string) (payload : jsval) : string :=
  type +:+ ":" +:+ JSON_stringify (deref w payload).

(** The state in which [_request], under configuration [c], has
    registered a request and handed its exchange to the transport. *)
Definition posted_state (c : Conf) (type : string) (payload _opts : jsval)
    (cb : callback) (w : World) : World :=
  let opts := js_defaults _opts [("timeout", VNum (requestTimeout c))] in
  let rid := fresh w in
  let x := S (fresh w) in
  {| conf := conf w; _inited := _inited w; cache := cache w;
     _reqs := <[rid := {| req_rid := rid; req_type := type; req_payload := payload;
                          req_opts := opts;
                          req_cb := if isFunction cb then cb else CbNoop;
                          req_ts := now w;
                          req_qhash := fingerprint w type payload |}]> (_reqs w);
     _announces := _announces w; announcers := announcers w;
     objects := objects w; timers := timers w;
     exchanges := <[x := CbPost (CbReply rid)]> (exchanges w);
     fresh := S x; now := now w; random := random w;
     trace := EvPost x (VObj (js_extend
                [("url", VStr (grape c +:+ "/" +:+ type)); ("json", VBool true);
                 ("body", VObj [("rid", uuid rid); ("data", payload)])]
                [("timeout", prop opts "timeout")])) :: trace w |}.

(** The state [_request] leaves when the cache region of [type] does not
    answer: the request registered under the next identifier and the
    exchange handed to the transport under the one after. *)
Definition sent_state (type : string) (payload _opts : jsval) (cb : callback)
    (region : LRU.t) (w : World) : World :=
  let opts := js_defaults _opts [("timeout", VNum (requestTimeout (conf w)))] in
  let rid := fresh w in
  let x := S (fresh w) in
  {| conf := conf w; _inited := _inited w;
     cache := <[type := (LRU.get (now w) (fingerprint w type payload) region).2]> (cache w);
     _reqs := <[rid := {| req_rid := rid; req_type := type; req_payload := payload;
                          req_opts := opts;
                          req_cb := if isFunction cb then cb else CbNoop;
                          req_ts := now w;
                          req_qhash := fingerprint w type payload |}]> (_reqs w);
     _announces := _announces w; announcers := announcers w;
     objects := objects w; timers := timers w;
     exchanges := <[x := CbPost (CbReply rid)]> (exchanges w);
     fresh := S x; now := now w; random := random w;
     trace := EvPost x (VObj (js_extend
                [("url", VStr (grape (conf w) +:+ "/" +:+ type)); ("json", VBool true);
                 ("body", VObj [("rid", uuid rid); ("data", payload)])]
                [("timeout", prop opts "timeout")])) :: trace w |}.

End States.

(** ** Sample states and inputs *)

Definition ok_response : jsval := VObj [("statusCode", VNum 200)].

Definition peers : jsval := VArr [VStr "127.0.0.1:1337"].

(** The sample client after [lookup('svc', cb)]: request 0 is pending and
    exchange 1 is with the transport. *)
Definition pending_link : World :=
  (@run sample_externals 5
     [Call (CLookup (VStr "svc") (AVal VUndefined) (Some (UFun 7 [])))]
     sample_link).2.

(** The same client after the transport has answered with [peers]. *)
Definition answered_link : World :=
  (@run sample_externals 5 [Respond 1 VNull ok_response peers] pending_link).2.

(** The sample client after [startAnnouncing('svc', 1337)] and the answer
    to the first announce: descriptor 0 is registered and timer 3 pending. *)
Definition announcing_link : World :=
  (@run sample_externals 5
     [Call (CStartAnnouncing (VStr "svc") (VNum 1337) (AVal VUndefined) None);
      Respond 2 VNull ok_response (VNum 1)]
     sample_link).2.

(** A client whose caller owns the object [{ seq: 1, v: 'x' }] at
    address 0. *)
Definition owner_link : World :=
  new_Link no_conf 0 {[ 0%nat := [("seq", VNum 1); ("v", VStr "x")] ]} [].

Definition sample_keys : jsval :=
  VObj [("keys", VObj [("publicKey", VBuf "ab"); ("secretKey", VBuf "cd")])].

(** An attempt function that fails twice and then succeeds; the state
    counts its invocations. *)
Definition flaky (i : nat) (s : nat) : nat * list jsval :=
  (S s, if (i <? 3)%nat
        then [VErr (VStr "ERR_REQUEST") (VNum (Z.of_nat i))]
        else [VNull; VStr "ok"]).

(** A client whose host will draw one half from [Math.random], after
    [startAnnouncing('svc', 1337)] without a callback: descriptor 0 is
    registered, its first announce (request 1, exchange 2) is in flight. *)
Definition started_link : World :=
  (@run sample_externals 5
     [Call (CStartAnnouncing (VStr "svc") (VNum 1337) (AVal VUndefined) None)]
     (new_Link no_conf 0 ∅ [2 ^ 52])).2.

(** The error of a connection the transport could not open. *)
Definition refused : jsval :=
  VErr (VStr "connect ECONNREFUSED") (VStr "ECONNREFUSED").

(** A lookup of [svc] by the new sample client, followed by the responses
    [r1], [r2], [r3] to its first, second and third attempt. *)
Definition lookup_run (r1 r2 r3 : jsval * jsval * jsval) : list step :=
  [Call (CLookup (VStr "svc") (AVal VUndefined) (Some (UFun 7 [])));
   Respond 1 r1.1.1 r1.1.2 r1.2;
   Respond 3 r2.1.1 r2.1.2 r2.2;
   Respond 5 r3.1.1 r3.1.2 r3.2].

(** Request [rid] is pending and its completion continues the schedule of
    the descriptor at [a]: its callback leads to the [reann] of [a]. *)
Definition in_flight (a rid : nat) (w : World) : Prop :=
  exists req, _reqs w !! rid = Some req /\ owner (req_cb req) = Some a.


(** The options and the callback [startAnnouncing] works with, after
    its defaults and its callback-in-place-of-options form (lines 175-176). *)
Definition announcing_args (opts : arg) (cb : option user_fn)
  : jsval * option user_fn :=
  match opts with
  | AFun u => (VObj [], Some u)
  | AVal VUndefined => (VObj [], cb)
  | AVal v => (v, cb)
  end.

(** The descriptor [startAnnouncing] allocates. *)
Definition new_announcer (key port : jsval) (opts : arg) (cb : option user_fn)
  : Announcer :=
  let oc := announcing_args opts cb in
  {| info_timeout := None; info_stopped := false; ann_key := key;
     ann_port := port; ann_opts := oc.1;
     ann_interval := js_or (js_and oc.1 (prop oc.1 "interval"))
                       (VNum (2 * 60 * 1000));
     ann_cb := oc.2 |}.

(** Every pending timer is the one an announce descriptor set for its next
    [ann]. *)
Definition timers_announce (w : World) : Prop :=
  forall h fn, timers w !! h = Some fn -> exists a, fn = CbAnn a.

(** The lookup cache has the bounds it was created with under
    configuration [c]. *)
Definition lookup_bounds (c : Conf) (w : World) : Prop :=
  exists region,
    cache w !! "lookup" = Some region
    /\ LRU.max region = LRU.max (LRU.create (lruMaxSizeLookup c) (lruMaxAgeLookup c))
    /\ LRU.maxAge region = lruMaxAgeLookup c.

(** ** How computations are followed *)

Section Following.

Context {ext : Externals}.

(** A computation that may park [h a] continuations of each descriptor
    [a]: run in a consistent state in which that leaves each descriptor at
    most one, it proceeds by elementary changes, and for the descriptors
    that existed it parks no more than [h] allows. *)
Definition follows (h : nat -> nat) {A} (m : M A) : Prop :=
  forall w,
    consistent w ->
    (forall a, (tokens a w + h a <= 1)%nat) ->
    (forall a, h a <> 0%nat -> is_Some (announcers w !! a)) ->
    rtc mutation w (m w).2
    /\ (forall a, (a < fresh w)%nat -> (tokens a (m w).2 <= tokens a w + h a)%nat).

Definition no_token : nat -> nat := fun _ => 0%nat.

Definition all_truthy (l : list LRU.entry) : Prop :=
  forall e, In e l -> truthy (LRU.value e) = true.

End Following.

(** * Properties *)

(** ** Reasoning about the monad *)

Lemma bind_ret {A B} (a : A) (k : A -> M B) w : bind (ret a) k w = k a w.
Proof. reflexivity. Qed.

Lemma bind_gets {A B} (f : World -> A) (k : A -> M B) w :
  bind (gets f) k w = k (f w) w.
Proof. reflexivity. Qed.

Lemma bind_modify {B} (f : World -> World) (k : unit -> M B) w :
  bind (modify f) k w = k tt (f w).
Proof. reflexivity. Qed.

Lemma bind_throw {A B} (e : exn) (k : A -> M B) w :
  bind (throw e) k w = (Throw e, w).
Proof. reflexivity. Qed.

Lemma bind_assoc {A B C} (m : M A) (k : A -> M B) (h : B -> M C) w :
  bind (bind m k) h w = bind m (fun a => bind (k a) h) w.
Proof. unfold bind. destruct (m w) as [[a| |] w']; reflexivity. Qed.

Lemma bind_unit_ret (m : M unit) w : bind m (fun _ => ret tt) w = m w.
Proof. unfold bind, ret. destruct (m w) as [[[]| |] w']; reflexivity. Qed.

Ltac munfold :=
  unfold bind, ret, throw, gets, modify, emit, fresh_id, Date_now in *.

Section Proofs.

Context {ext : Externals}.

(** ** Transport errors *)

(** C9 (the code departs from the claim): when the transport reports a
    timeout and hands over no response object, which is how a timeout
    arrives, the handler of [post] throws a TypeError while reading
    [res.statusCode]; the callback is not invoked and the state is left as
    it was.  The same holds when the handler runs as the closure stored
    with the exchange. *)
Theorem post_timeout_without_response_throws :
  forall (call_fn : callback -> list jsval -> M unit) cb resData w n,
    let err := VErr (VStr "ETIMEDOUT") (VStr "ETIMEDOUT") in
    post_handler call_fn cb err VUndefined resData w
      = (Throw (TypeError "Cannot read properties of undefined"), w)
    /\ apply_fn (S n) (CbPost cb) [err] w
      = (Throw (TypeError "Cannot read properties of undefined"), w).
Proof. intros; split; reflexivity. Qed.

(** When the timeout comes with a response object, the callback receives
    an [ERR_TIMEOUT] error that carries the status of the response. *)
Lemma post_timeout_with_response call_fn cb err res resData w :
  truthy err = true ->
  is_string "ETIMEDOUT" (prop err "code") = true ->
  nullish res = false ->
  post_handler call_fn cb err res resData w
    = call_fn cb [VErr (VStr "ERR_TIMEOUT") (prop res "statusCode")] w.
Proof.
  intros He Hc Hr. unfold post_handler. rewrite He, Hc, Hr. reflexivity.
Qed.

(** ** Lookup *)

Lemma lookup_handler_ok call_fn cb err res w :
  truthy err = false ->
  lookup_handler call_fn cb err res w = call_fn cb (lookup_result res) w.
Proof.
  intros He. unfold lookup_handler. rewrite He.
  destruct res as [| | | | | |[|x l]| | |]; reflexivity.
Qed.

(** C7: [lookup] hands its request the handler [CbLookup cb]; when the
    request succeeds ([err] is falsy), the caller's callback receives an
    [ERR_GRAPE_LOOKUP_EMPTY] error unless the result is a non-empty array,
    which it receives unchanged. *)
Theorem lookup_empty_is_error :
  forall call_fn key (_opts : jsval) cb n err res w,
    truthy err = false ->
    lookup call_fn key (AVal _opts) cb
      = request call_fn "lookup" key
          (with_retry_3 (match _opts with VUndefined => VObj [] | _ => _opts end))
          (CbLookup cb)
    /\ apply_fn (S n) (CbLookup cb) [err; res] w
      = apply_fn n cb
          (match res with
           | VArr (_ :: _) => [VNull; res]
           | _ => [VErr (VStr "ERR_GRAPE_LOOKUP_EMPTY") VUndefined]
           end) w.
Proof.
  intros call_fn key _opts cb n err res w He. split.
  - unfold lookup. destruct _opts; reflexivity.
  - cbn [apply_fn nth_arg nth]. apply lookup_handler_ok. exact He.
Qed.

(** ** The retry executor *)

Lemma retryAttempt_chain {S} (attemptFn : nat -> S -> S * list jsval)
    (times : Z) (s : S) :
  forall fuel k,
    (forall i, (1 <= i <= k)%nat -> failed attemptFn i s = true) ->
    Z.of_nat (Datatypes.S k) <= times ->
    times <= Z.of_nat (Datatypes.S k + fuel) ->
    exists n,
      retryAttempt attemptFn fuel (Datatypes.S k) times (nth_attempt attemptFn k s).1
        = Some ((nth_attempt attemptFn n s).1, (nth_attempt attemptFn n s).2, n)
      /\ (Datatypes.S k <= n)%nat
      /\ Z.of_nat n <= times
      /\ (forall i, (1 <= i < n)%nat -> failed attemptFn i s = true)
      /\ (failed attemptFn n s = false \/ Z.of_nat n = times).
Proof.
  induction fuel as [|fuel IH]; intros k Hfail Hlo Hhi.
  - assert (Hk : Z.of_nat (Datatypes.S k) = times) by lia.
    exists (Datatypes.S k). cbn [retryAttempt nth_attempt].
    destruct (attemptFn (Datatypes.S k) (nth_attempt attemptFn k s).1)
      as [s1 args] eqn:Hatt.
    unfold retry_again.
    replace (Z.of_nat (Datatypes.S k) <? times) with false
      by (symmetry; apply Z.ltb_ge; lia).
    rewrite andb_false_r. cbn [fst snd].
    split; [reflexivity|]. split; [lia|]. split; [lia|]. split.
    + intros i Hi. apply Hfail. lia.
    + right. exact Hk.
  - cbn [retryAttempt].
    destruct (attemptFn (Datatypes.S k) (nth_attempt attemptFn k s).1)
      as [s1 args] eqn:Hatt.
    assert (Hnth : nth_attempt attemptFn (Datatypes.S k) s = (s1, args))
      by (cbn [nth_attempt]; exact Hatt).
    destruct (retry_again (Datatypes.S k) times (nth_arg 0 args)) eqn:Hagain.
    + unfold retry_again in Hagain. apply andb_true_iff in Hagain.
      destruct Hagain as [Herr Hlt]. apply Z.ltb_lt in Hlt.
      assert (Hfail' : forall i, (1 <= i <= Datatypes.S k)%nat ->
                failed attemptFn i s = true).
      { intros i Hi. destruct (decide (i = Datatypes.S k)) as [->|Hne].
        - unfold failed. rewrite Hnth. exact Herr.
        - apply Hfail. lia. }
      destruct (IH (Datatypes.S k) Hfail') as (n & Hrun & Hn1 & Hn2 & Hn3 & Hn4);
        [lia | lia |].
      exists n. rewrite Hnth in Hrun. cbn [fst] in Hrun.
      split; [exact Hrun|]. split; [lia|]. split; [lia|]. split; assumption.
    + exists (Datatypes.S k). rewrite Hnth. cbn [fst snd].
      split; [reflexivity|]. split; [lia|]. split; [lia|]. split.
      * intros i Hi. apply Hfail. lia.
      * unfold retry_again in Hagain. apply andb_false_iff in Hagain.
        destruct Hagain as [Herr|Hge].
        -- left. unfold failed. rewrite Hnth. exact Herr.
        -- right. apply Z.ltb_ge in Hge. lia.
Qed.

(** C5: for [maxAttempts >= 1] and any attempt function, the retry
    executor makes [n] attempts one after the other, each starting in the
    state in which the callback of the previous one fired, with
    [1 <= n <= maxAttempts]; every attempt before the [n]-th failed; the
    final callback receives what the callback of the [n]-th attempt
    received; and either that attempt succeeded, or it failed and
    [n = maxAttempts]. *)
Theorem retry_stops_at_first_success :
  forall {S} (attemptFn : nat -> S -> S * list jsval) (maxAttempts : Z) (s : S),
    1 <= maxAttempts ->
    exists n,
      retry attemptFn maxAttempts s
        = Some ((nth_attempt attemptFn n s).1, (nth_attempt attemptFn n s).2, n)
      /\ (1 <= n)%nat
      /\ Z.of_nat n <= maxAttempts
      /\ (forall i, (1 <= i < n)%nat -> failed attemptFn i s = true)
      /\ (failed attemptFn n s = false \/ Z.of_nat n = maxAttempts).
Proof.
  intros S attemptFn maxAttempts s Hmax. unfold retry.
  destruct (retryAttempt_chain attemptFn maxAttempts s (Z.to_nat maxAttempts) 0)
    as (n & Hrun & Hn1 & Hn2 & Hn3 & Hn4); try lia.
  exists n. cbn [nth_attempt fst] in Hrun. auto.
Qed.

(** The closure that [request] hands to its attempts decides with the same
    rule. *)
Lemma apply_retry n attempt times type payload _opts done args w :
  apply_fn (S n) (CbRetry attempt times type payload _opts done) args w
    = if retry_again attempt times (nth_arg 0 args)
      then _request (apply_fn n) type payload _opts
             (CbRetry (S attempt) times type payload _opts done) w
      else apply_fn n (if isFunction done then done else CbNoop) args w.
Proof.
  cbn [apply_fn]. unfold retry_next.
  destruct (retry_again attempt times (nth_arg 0 args)); reflexivity.
Qed.

(** ** Announcing *)

Lemma startAnnouncing_registers call_fn key port opts cb w v w1 :
  startAnnouncing call_fn key port opts cb w = (Ret v, w1) ->
  is_Some (_announces w1 !! announce_id key port).
Proof.
  unfold startAnnouncing.
  destruct (match opts with
            | AFun u => (VObj [], Some u)
            | AVal VUndefined => (VObj [], cb)
            | AVal v0 => (v0, cb)
            end) as [opts' cb'].
  rewrite bind_gets.
  destruct (bool_decide (is_Some (_announces w !! announce_id key port))) eqn:Hreg.
  - intros [= <- <-]. apply bool_decide_eq_true in Hreg. exact Hreg.
  - munfold. cbn.
    destruct (call_fn _ _ _) as [[[]| |] w2]; intros [= <- <-].
    cbn. rewrite lookup_insert_eq. eauto.
Qed.

(** C4: the registry of announce descriptors is keyed by [port + ':' +
    key], so a pair has at most one descriptor; [startAnnouncing] for a
    pair that has one returns [false] and leaves the whole state as it is
    (no descriptor, timer, request or exchange is created and the schedule
    of the existing descriptor is untouched).  In particular this is what a
    second call does right after a first one that returned. *)
Theorem startAnnouncing_twice_is_noop :
  forall call_fn key port opts cb w,
    (is_Some (_announces w !! announce_id key port) ->
     startAnnouncing call_fn key port opts cb w = (Ret (VBool false), w))
    /\ (forall v w1 opts' cb',
          startAnnouncing call_fn key port opts cb w = (Ret v, w1) ->
          startAnnouncing call_fn key port opts' cb' w1
            = (Ret (VBool false), w1)).
Proof.
  intros call_fn key port opts cb w.
  assert (Hnoop : forall opts0 cb0 w0,
            is_Some (_announces w0 !! announce_id key port) ->
            startAnnouncing call_fn key port opts0 cb0 w0
              = (Ret (VBool false), w0)).
  { intros opts0 cb0 w0 Hreg. unfold startAnnouncing.
    destruct (match opts0 with
              | AFun u => (VObj [], Some u)
              | AVal VUndefined => (VObj [], cb0)
              | AVal v0 => (v0, cb0)
              end) as [opts' cb'].
    rewrite bind_gets. rewrite bool_decide_eq_true_2 by exact Hreg.
    reflexivity. }
  split.
  - apply Hnoop.
  - intros v w1 opts' cb' Hfirst. apply Hnoop.
    eapply startAnnouncing_registers. exact Hfirst.
Qed.

(** ** Mutable puts *)


(** C10 (the code departs from the claim): once validation has passed for
    a caller-owned object [data] and a Buffer public key, [putMutable]
    stores the hex form of the key in field [k] of that very object,
    encodes, and then throws a ReferenceError, because the identifier [ed]
    it signs with is bound nowhere.  Field [sig] is never set, [put] is
    never reached and the callback is never invoked. *)
Theorem putMutable_stops_at_unbound_ed :
  forall call_fn a fields opts pk cb w,
    objects w !! a = Some fields ->
    truthy (field "seq" fields) = true ->
    truthy opts = true -> isFunction cb = true ->
    nullish (peek w opts "keys") = false ->
    peek w (peek w opts "keys") "publicKey" = VBuf pk ->
    truthy (peek w (peek w opts "keys") "secretKey") = true ->
    exists toEncode,
      putMutable call_fn (VRef a) opts cb w
        = (Throw (ReferenceError "ed"),
           set_trace (EvEncode toEncode :: trace w)
             (set_objects (<[a := set_field "k" (VStr (hex pk)) fields]> (objects w)) w)).
Proof.
  intros call_fn a fields opts pk cb w Hobj Hseq Ho Hcb Hkeys Hpk Hsk.
  unfold putMutable. rewrite Ho, Hcb. cbn [truthy negb orb].
  unfold read at 1. rewrite bind_gets. cbn [peek]. rewrite Hobj. cbn [default from_option id].
  rewrite Hseq. cbn [negb].
  unfold read at 1. rewrite bind_gets, Hkeys.
  unfold read at 1. rewrite bind_gets, Hpk.
  unfold read at 1. rewrite bind_gets, Hsk. cbn [truthy negb orb toString_hex].
  rewrite bind_ret. unfold write at 1. rewrite bind_assoc, bind_modify, bind_ret.
  rewrite Hobj. cbn [default from_option id].
  unfold read. rewrite !bind_gets.
  eexists. reflexivity.
Qed.

(** ** Reply dispatch *)

(** The state in which [handleReply] invokes the callback of [req]. *)
Lemma handleReply_found call_fn rid err data w req :
  _reqs w !! rid = Some req ->
  handleReply call_fn rid err data w
    = call_fn (req_cb req) [err; data]
        (reply_state req rid err data w).
Proof.
  intros Hreq. unfold handleReply, getRequest, reply_state, cached.
  rewrite bind_gets, Hreq.
  destruct (negb (truthy err) && truthy data).
  - unfold cache_set. rewrite bind_assoc, bind_gets.
    destruct (cache w !! req_type req); reflexivity.
  - reflexivity.
Qed.

Lemma handleReply_absent call_fn rid err data w :
  _reqs w !! rid = None ->
  handleReply call_fn rid err data w = (Ret tt, w).
Proof.
  intros Hreq. unfold handleReply, getRequest. rewrite bind_gets, Hreq.
  reflexivity.
Qed.

(** ** What elementary changes preserve *)

Ltac mut_unfold :=
  cbv delta [post cache_set cache_get newRequest addRequest delRequest
    getRequestHash set_announcer stop_info clearTimeout setTimeout
    Math_random announcer bind ret throw gets modify emit fresh_id
    Date_now] in *;
  cbn beta iota in *; cbn [fst snd] in *.

Ltac destruct_match :=
  match goal with
  | |- context [match ?x with _ => _ end] =>
      lazymatch x with
      | context [match _ with _ => _ end] => fail
      | _ => destruct x eqn:?
      end
  end.

Ltac mut_cases H :=
  destruct H; mut_unfold;
  repeat (destruct_match; cbn beta iota; cbn [fst snd]).

(** Activations are never deallocated. *)
Lemma mutation_keeps_announcers w w' a :
  mutation w w' -> is_Some (announcers w !! a) -> is_Some (announcers w' !! a).
Proof.
  intros Hm Ha. mut_cases Hm; cbn; auto.
  all: try (rewrite lookup_alter; case_decide; subst; auto;
            destruct Ha as [? ->]; cbn; eauto).
  all: try (rewrite lookup_insert; case_decide; subst; eauto).
Qed.


(** ** Invariants of the elementary changes *)

Lemma dispatches_cons rid e tr :
  dispatches rid (e :: tr)
    = ((if is_dispatch rid e then 1 else 0) + dispatches rid tr)%nat.
Proof. unfold dispatches. cbn [List.filter]. destruct (is_dispatch rid e); reflexivity. Qed.

#[local] Arguments dispatches : simpl never.

Ltac map_hyps :=
  repeat match goal with
  | H : is_Some (<[_:=_]> _ !! _) |- _ =>
      rewrite lookup_insert in H; case_decide; subst
  | H : <[_:=_]> _ !! _ = Some _ |- _ =>
      rewrite lookup_insert in H; case_decide; subst
  | H : is_Some (delete _ _ !! _) |- _ =>
      rewrite lookup_delete in H; case_decide; subst
  | H : delete _ _ !! _ = Some _ |- _ =>
      rewrite lookup_delete in H; case_decide; subst
  | H : is_Some (alter _ _ _ !! _) |- _ =>
      rewrite lookup_alter in H; case_decide; subst
  | H : alter _ _ _ !! _ = Some _ |- _ =>
      rewrite lookup_alter in H; case_decide; subst
  | H : is_Some None |- _ => destruct H; discriminate
  | H : None = Some _ |- _ => discriminate
  | H : Some _ = Some _ |- _ => injection H as H; subst
  | H : is_Some (∅ !! _) |- _ => rewrite lookup_empty in H
  | H : ∅ !! _ = Some _ |- _ => rewrite lookup_empty in H
  end.

Lemma registry_ok_mutation w w' :
  mutation w w' -> registry_ok w -> registry_ok w'.
Proof.
  intros Hm [Hkey Halloc Hund Hfresh Honce].
  mut_cases Hm; constructor; cbn; auto; intros; map_hyps;
    rewrite ?dispatches_cons; cbn [is_dispatch]; cbn;
    try solve [ eauto | apply Hfresh; lia
              | match goal with H : is_Some _ |- _ => apply Halloc in H; lia end ].
  all: try (match goal with
            | H : plain ?e = true |- _ => destruct e; try discriminate H; cbn
            end; solve [eauto]).
  all: match goal with
       | H : _reqs _ !! ?r = Some ?q |- _ =>
           pose proof (Hkey _ _ H); pose proof (Hund r (mk_is_Some _ _ H));
           pose proof (Halloc r (mk_is_Some _ _ H))
       end.
  all: match goal with |- context [(?r =? ?r0)%nat] =>
         destruct (Nat.eqb_spec r r0); subst
       end; cbn; try congruence; try lia; eauto.
Qed.

(** *** The cache regions *)

Lemma all_truthy_remove k l : all_truthy l -> all_truthy (LRU.remove k l).
Proof.
  intros Hl e He. unfold LRU.remove in He. apply filter_In in He.
  apply Hl, He.
Qed.

Lemma all_truthy_find k l e :
  all_truthy l -> LRU.find k l = Some e -> truthy (LRU.value e) = true.
Proof.
  intros Hl He. unfold LRU.find in He. apply find_some in He. apply Hl, He.
Qed.

Lemma in_removelast {A} (x : A) l : In x (removelast l) -> In x l.
Proof.
  induction l as [|y l IH]; [intros []|].
  destruct l as [|z l]; [intros []|].
  intros [->|Hx]; [left; reflexivity | right; apply IH, Hx].
Qed.

Lemma all_truthy_get t k c :
  all_truthy (LRU.items c) -> all_truthy (LRU.items (LRU.get t k c).2).
Proof.
  intros Hc. unfold LRU.get.
  destruct (LRU.find k (LRU.items c)) as [e|] eqn:He; [|exact Hc].
  destruct (LRU.expired c t e); cbn.
  - apply all_truthy_remove, Hc.
  - intros e' [<-|He']; [eapply all_truthy_find; eauto|].
    eapply all_truthy_remove; eauto.
Qed.

Lemma get_truthy_or_undefined t k c :
  all_truthy (LRU.items c) ->
  (LRU.get t k c).1 = VUndefined \/ truthy (LRU.get t k c).1 = true.
Proof.
  intros Hc. unfold LRU.get.
  destruct (LRU.find k (LRU.items c)) as [e|] eqn:He; [|left; reflexivity].
  destruct (LRU.expired c t e); cbn; [left; reflexivity|].
  right. eapply all_truthy_find; eauto.
Qed.

Lemma all_truthy_set t k v c :
  truthy v = true ->
  all_truthy (LRU.items c) -> all_truthy (LRU.items (LRU.set t k v c)).
Proof.
  intros Hv Hc. unfold LRU.set.
  destruct (LRU.find k (LRU.items c)); cbn.
  - intros e' [<-|He']; [exact Hv|]. eapply all_truthy_remove; eauto.
  - intros e' [<-|He']; [exact Hv|].
    destruct (_ =? _); [apply in_removelast in He'|]; auto.
Qed.

Lemma cache_ok_mutation w w' : mutation w w' -> cache_ok w -> cache_ok w'.
Proof.
  intros Hm [Htypes Htruthy].
  assert (Hreg : forall type region,
            cache w !! type = Some region -> all_truthy (LRU.items region)).
  { intros type region Hr e He. eapply Htruthy; eauto. }
  assert (Hins : forall type region region' type0,
            cache w !! type = Some region ->
            is_Some (<[type := region']> (cache w) !! type0) <-> type0 = "lookup").
  { intros type region region' type0 Hr. rewrite <- Htypes.
    rewrite lookup_insert. case_decide; subst; [|reflexivity].
    rewrite Hr. split; eauto. }
  mut_cases Hm; constructor; cbn; auto; intros; eauto.
  - map_hyps; [|eauto]. eapply all_truthy_set; eauto.
  - map_hyps; [|eauto]. eapply all_truthy_get; eauto.
  - rewrite lookup_fmap, <- Htypes. unfold is_Some.
    destruct (cache w !! type); cbn; split; intros [? ?]; eauto; discriminate.
  - match goal with H : (_ <$> _) !! _ = Some _ |- _ =>
      rewrite lookup_fmap in H; destruct (cache w !! type); cbn in H;
      [injection H as <-|discriminate]
    end.
    match goal with H : In _ _ |- _ => destruct H end.
Qed.

(** *** The heap and the host's tables *)

Lemma is_Some_alter {A} (f : A -> A) (m : gmap nat A) a a0 :
  is_Some (alter f a m !! a0) <-> is_Some (m !! a0).
Proof.
  rewrite lookup_alter. case_decide; subst; [|reflexivity].
  apply fmap_is_Some.
Qed.

Lemma is_Some_insert_weaken {A} (m : gmap nat A) k v a :
  is_Some (m !! a) -> is_Some (<[k := v]> m !! a).
Proof. intros H. rewrite lookup_insert. case_decide; eauto. Qed.

Lemma heap_ok_mutation w w' : mutation w w' -> heap_ok w -> heap_ok w'.
Proof.
  intros Hm [Hann Hreg Htim Hexc].
  mut_cases Hm; constructor; cbn; auto; intros;
    rewrite ?is_Some_alter in *;
    try (apply is_Some_insert_weaken); map_hyps; eauto;
    try solve [ match goal with H : is_Some _ |- _ =>
                  first [apply Hann in H | apply Htim in H | apply Hexc in H]; lia
                end ].
Qed.


(** *** Sums over tables *)

Lemma total_empty {A} (f : A -> nat) : total f ∅ = 0%nat.
Proof. apply map_fold_empty. Qed.

Lemma total_insert {A} (f : A -> nat) (m : gmap nat A) k v :
  m !! k = None -> total f (<[k := v]> m) = (f v + total f m)%nat.
Proof.
  intros Hk. unfold total.
  apply (map_fold_insert_L (fun _ v n => (f v + n)%nat) 0%nat k v m); [|exact Hk].
  intros. lia.
Qed.

Lemma total_delete {A} (f : A -> nat) (m : gmap nat A) k v :
  m !! k = Some v -> total f m = (f v + total f (delete k m))%nat.
Proof.
  intros Hk. unfold total.
  apply (map_fold_delete_L (fun _ v n => (f v + n)%nat) 0%nat k v m); [|exact Hk].
  intros. lia.
Qed.

Lemma total_delete_le {A} (f : A -> nat) (m : gmap nat A) k :
  (total f (delete k m) <= total f m)%nat.
Proof.
  destruct (m !! k) as [v|] eqn:Hk.
  - rewrite (total_delete f m k v Hk). lia.
  - rewrite delete_id by exact Hk. lia.
Qed.

Lemma total_zero {A} (f : A -> nat) (m : gmap nat A) k v :
  total f m = 0%nat -> m !! k = Some v -> f v = 0%nat.
Proof. intros Hz Hk. rewrite (total_delete f m k v Hk) in Hz. lia. Qed.

Lemma holds_owner a cb : owner cb = Some a -> holds a cb = 1%nat.
Proof. intros H. unfold holds. rewrite decide_True; auto. Qed.

Lemma holds_other a cb : owner cb <> Some a -> holds a cb = 0%nat.
Proof. intros H. unfold holds. rewrite decide_False; auto. Qed.

Lemma holds_le a cb : (holds a cb <= 1)%nat.
Proof. unfold holds. case_decide; lia. Qed.

Lemma holds_stored a cb :
  (holds a (if isFunction cb then cb else CbNoop) <= holds a cb)%nat.
Proof.
  destruct cb; cbn [isFunction]; try lia.
  unfold holds. cbn [owner]. repeat case_decide; congruence || lia.
Qed.

Lemma owner_stored a cb :
  owner (if isFunction cb then cb else CbNoop) = Some a -> owner cb = Some a.
Proof. destruct cb; cbn; auto. Qed.

#[local] Arguments tokens : simpl never.
#[local] Arguments total : simpl never.
#[local] Arguments holds : simpl never.

(** *** The schedules *)

Ltac tok_simpl :=
  unfold tokens;
  cbn [conf _inited cache _reqs _announces announcers objects timers exchanges
       fresh now random trace set_cache set_reqs set_announces set_announcers
       set_objects set_timers set_exchanges set_fresh set_now set_random
       set_trace req_cb].

Lemma fresh_None {A} (m : gmap nat A) n :
  (forall k, is_Some (m !! k) -> (k < n)%nat) -> m !! n = None.
Proof.
  intros H. destruct (m !! n) eqn:Hn; [|reflexivity].
  specialize (H n (mk_is_Some _ _ Hn)). lia.
Qed.

(** The parked continuations stay those of allocated descriptors. *)
Lemma owned_mutation w w' :
  mutation w w' -> schedule_ok w ->
  (forall rid req a,
      _reqs w' !! rid = Some req -> owner (req_cb req) = Some a ->
      is_Some (announcers w' !! a))
  /\ (forall h fn a,
        timers w' !! h = Some fn -> owner fn = Some a -> is_Some (announcers w' !! a))
  /\ (forall x fn a,
        exchanges w' !! x = Some fn -> owner fn = Some a ->
        is_Some (announcers w' !! a)).
Proof.
  intros Hm [Hro Hto Hxo _ _ _].
  mut_cases Hm; cbn; (split; [|split]); intros;
    rewrite ?is_Some_alter; try (apply is_Some_insert_weaken);
    map_hyps; cbn [req_cb owner] in *; eauto; try congruence.
  all: simplify_eq; eauto.
Qed.

(** Each descriptor keeps at most one parked continuation. *)
Lemma one_token_mutation w w' :
  mutation w w' -> registry_ok w -> heap_ok w ->
  (forall a, (tokens a w <= 1)%nat) -> forall a, (tokens a w' <= 1)%nat.
Proof.
  intros Hm [_ Hra _ _ _] [_ _ Hta Hxa] Hone a0.
  pose proof (Hone a0) as Ha0. revert Ha0.
  pose proof (fresh_None _ _ Hra) as Hr0.
  pose proof (fresh_None _ _ Hta) as Ht0.
  pose proof (fresh_None _ _ Hxa) as Hx0.
  mut_cases Hm; tok_simpl; intros; auto;
    rewrite ?total_insert by assumption; cbn [req_cb];
    try match goal with
        | |- context [total ?f (delete ?k ?m)] =>
            pose proof (total_delete_le f m k); lia
        end.
  - rewrite holds_other by (cbn [owner]; congruence). lia.
  - match goal with H : forall a, (tokens a _ + _ <= 1)%nat |- _ =>
      specialize (H a0); unfold tokens in H; lia
    end.
  - rewrite holds_other by (cbn [owner]; congruence). lia.
  - destruct (decide (a = a0)) as [->|Hne].
    + match goal with H : tokens a0 _ = 0%nat |- _ => unfold tokens in H end.
      pose proof (holds_le a0 (CbAnn a0)). lia.
    + rewrite holds_other by (cbn [owner]; congruence). lia.
  - destruct (decide (a = a0)) as [->|Hne].
    + match goal with H : tokens a0 _ = 0%nat |- _ => unfold tokens in H end.
      pose proof (holds_le a0 (CbAnn a0)). lia.
    + rewrite holds_other by (cbn [owner]; congruence). lia.
Qed.

Lemma alter_timeout (f : Announcer -> Announcer) (m : gmap nat Announcer) a a0 :
  (forall i, info_timeout (f i) = info_timeout i) ->
  alter f a m !! a0 ≫= info_timeout = m !! a0 ≫= info_timeout.
Proof.
  intros Hf. rewrite lookup_alter. case_decide; subst; [|reflexivity].
  destruct (m !! a0); cbn; auto.
Qed.

Lemma alter_stopped (f : Announcer -> Announcer) (m : gmap nat Announcer) a a0 i :
  (forall j, info_stopped (f j) = true -> info_stopped j = true) ->
  alter f a m !! a0 = Some i -> info_stopped i = true ->
  exists i0, m !! a0 = Some i0 /\ info_stopped i0 = true.
Proof.
  intros Hf. rewrite lookup_alter. case_decide; subst; [|eauto].
  destruct (m !! a0) as [j|]; cbn; [|discriminate].
  intros [= <-] Hs. eauto.
Qed.

Lemma schedule_recorded w a i h a0 :
  schedule_ok w ->
  announcers w !! a = Some i ->
  tokens a w = 0%nat ->
  <[fresh w := CbAnn a]> (timers w) !! h = Some (CbAnn a0) ->
  alter (with_timeout (Some (fresh w))) a (announcers w) !! a0 ≫= info_timeout
    = Some h.
Proof.
  intros [_ _ _ _ Hrec _] Hi Htok Hh.
  rewrite lookup_insert in Hh. case_decide as Hf.
  - injection Hh as <-. subst h.
    rewrite lookup_alter, decide_True by reflexivity. rewrite Hi. reflexivity.
  - destruct (decide (a = a0)) as [->|Hne].
    + exfalso. unfold tokens in Htok.
      assert (Hz : total (holds a0) (timers w) = 0%nat) by lia.
      pose proof (total_zero _ _ _ _ Hz Hh) as Hzero.
      rewrite holds_owner in Hzero by reflexivity. discriminate.
    + rewrite lookup_alter_ne by exact Hne. eauto.
Qed.

Lemma schedule_idle w a i h a0 i0 :
  schedule_ok w ->
  announcers w !! a = Some i ->
  info_stopped i = false ->
  alter (with_timeout (Some (fresh w))) a (announcers w) !! a0 = Some i0 ->
  info_stopped i0 = true ->
  <[fresh w := CbAnn a]> (timers w) !! h <> Some (CbAnn a0).
Proof.
  intros [_ _ _ _ _ Hidle] Hi Hs Hi0 Hs0.
  destruct (decide (a = a0)) as [->|Hne].
  - rewrite lookup_alter, decide_True in Hi0 by reflexivity.
    rewrite Hi in Hi0. injection Hi0 as <-. cbn in Hs0. congruence.
  - rewrite lookup_alter_ne in Hi0 by exact Hne.
    rewrite lookup_insert. case_decide; [congruence|]. eauto.
Qed.

(** A pending timer is the one its descriptor records, and a stopped
    descriptor has none. *)
Lemma timers_mutation w w' :
  mutation w w' -> heap_ok w -> schedule_ok w ->
  (forall h a,
      timers w' !! h = Some (CbAnn a) ->
      announcers w' !! a ≫= info_timeout = Some h)
  /\ (forall h a i,
        announcers w' !! a = Some i -> info_stopped i = true ->
        timers w' !! h <> Some (CbAnn a)).
Proof.
  intros Hm [Hann _ Hta _] Hsched.
  pose proof Hsched as [_ Hto _ _ Hrec Hidle].
  pose proof (fresh_None _ _ Hta) as Ht0.
  mut_cases Hm; cbn; (split; intros); eauto.
  all: try (rewrite alter_timeout by (intros []; reflexivity); solve [eauto]).
  all: try (match goal with
            | H : alter _ _ _ !! _ = Some _ |- _ =>
                eapply alter_stopped in H as (? & ? & ?);
                [|intros []; cbn; solve [auto]|assumption]
            end; solve [eauto]).
  - (* a new activation: recorded *)
    rewrite lookup_insert_ne; [eauto|].
    match goal with H : timers w !! _ = Some (CbAnn ?a) |- _ =>
      specialize (Hto _ _ a H eq_refl); apply Hann in Hto; lia
    end.
  - (* a new activation: idle *)
    match goal with H : <[_:=_]> _ !! _ = Some _ |- _ =>
      rewrite lookup_insert in H; case_decide; subst;
        [injection H as <-; discriminate | eauto]
    end.
  - eapply schedule_recorded; eauto.
  - eapply schedule_idle; eauto.
  - eapply schedule_recorded; eauto.
  - eapply schedule_idle; eauto.
  - (* stop: recorded *)
    rewrite alter_timeout by (intros []; reflexivity).
    match goal with H : delete _ _ !! _ = Some _ |- _ =>
      rewrite lookup_delete in H; case_decide; [discriminate|eauto]
    end.
  - (* stop with a recorded timer: idle *)
    cbn in Heqo. rewrite alter_timeout in Heqo by (intros []; reflexivity).
    rewrite lookup_delete. case_decide; [discriminate|]. intros Hpend.
    pose proof (Hrec _ _ Hpend) as Hh.
    match goal with H : alter _ ?a _ !! ?a0 = Some _ |- _ =>
      destruct (decide (a = a0)) as [->|Hne];
        [congruence | rewrite lookup_alter_ne in H by exact Hne]
    end.
    eapply Hidle; eauto.
  - (* stop without a recorded timer: idle *)
    cbn in Heqo. rewrite alter_timeout in Heqo by (intros []; reflexivity).
    intros Hpend. pose proof (Hrec _ _ Hpend) as Hh.
    match goal with H : alter _ ?a _ !! ?a0 = Some _ |- _ =>
      destruct (decide (a = a0)) as [->|Hne];
        [congruence | rewrite lookup_alter_ne in H by exact Hne]
    end.
    eapply Hidle; eauto.
  - match goal with H : delete _ _ !! _ = Some _ |- _ =>
      rewrite lookup_delete in H; case_decide; [discriminate|eauto]
    end.
  - rewrite lookup_delete. case_decide; [discriminate|eauto].
Qed.

Lemma schedule_ok_mutation w w' :
  mutation w w' -> registry_ok w -> heap_ok w -> schedule_ok w -> schedule_ok w'.
Proof.
  intros Hm Hr Hh Hs.
  destruct (owned_mutation w w' Hm Hs) as (H1 & H2 & H3).
  destruct (timers_mutation w w' Hm Hh Hs) as (H4 & H5).
  constructor; auto.
  eapply one_token_mutation; eauto. apply Hs.
Qed.

Lemma consistent_mutation w w' : mutation w w' -> consistent w -> consistent w'.
Proof.
  intros Hm (Hr & Hc & Hh & Hs).
  split; [|split; [|split]];
    eauto using registry_ok_mutation, cache_ok_mutation, heap_ok_mutation,
      schedule_ok_mutation.
Qed.

Lemma consistent_mutations w w' : rtc mutation w w' -> consistent w -> consistent w'.
Proof.
  induction 1 as [|w w1 w' Hm _ IH]; [auto|].
  intros Hc. apply IH. eapply consistent_mutation; eauto.
Qed.

Lemma consistent_new_Link a t0 objs draws : consistent (new_Link a t0 objs draws).
Proof.
  split; [|split; [|split]]; constructor; cbn; intros; map_hyps; auto; try lia.
  - rewrite lookup_insert. case_decide; subst.
    + split; eauto.
    + rewrite lookup_empty. split; [intros []; discriminate | congruence].
Qed.

(** Every reachable state is consistent. *)
Lemma reachable_consistent w : reachable w -> consistent w.
Proof.
  intros (a & t0 & objs & draws & Hw).
  eapply consistent_mutations; [exact Hw | apply consistent_new_Link].
Qed.

Lemma mutations_keep_announcers w w' a :
  rtc mutation w w' -> is_Some (announcers w !! a) -> is_Some (announcers w' !! a).
Proof.
  induction 1 as [|w w1 w' Hm _ IH]; [auto|].
  intros Ha. apply IH. eapply mutation_keeps_announcers; eauto.
Qed.

Lemma mutation_fresh w w' : mutation w w' -> (fresh w <= fresh w')%nat.
Proof. intros Hm. mut_cases Hm; cbn; lia. Qed.

Lemma mutations_fresh w w' : rtc mutation w w' -> (fresh w <= fresh w')%nat.
Proof.
  induction 1 as [|w w1 w' Hm _ IH]; [lia|].
  apply mutation_fresh in Hm. lia.
Qed.

(** ** Every computation proceeds by elementary changes *)

Lemma follows_weaken {A} (h h' : nat -> nat) (m : M A) :
  (forall a, (h a <= h' a)%nat) -> follows h m -> follows h' m.
Proof.
  intros Hle Hm w Hc Htok Hal.
  destruct (Hm w Hc) as [Hrtc Hpost].
  - intros a. specialize (Htok a). specialize (Hle a). lia.
  - intros a Ha. apply Hal. specialize (Hle a). lia.
  - split; [exact Hrtc|]. intros a Ha.
    specialize (Hpost a Ha). specialize (Hle a). lia.
Qed.

Lemma follows_idle {A} (h : nat -> nat) (m : M A) :
  (forall w, (m w).2 = w) -> follows h m.
Proof.
  intros Hm w _ _ _. rewrite Hm. split; [apply rtc_refl|]. intros; lia.
Qed.

Lemma follows_ret {A} h (a : A) : follows h (ret a).
Proof. apply follows_idle. reflexivity. Qed.

Lemma follows_throw {A} h (e : exn) : follows h (@throw A e).
Proof. apply follows_idle. reflexivity. Qed.

Lemma follows_out_of_fuel {A} h : follows h (@out_of_fuel A).
Proof. apply follows_idle. reflexivity. Qed.

Lemma follows_gets {A} h (f : World -> A) : follows h (gets f).
Proof. apply follows_idle. reflexivity. Qed.

(** Sequencing: what the two parts may park adds up. *)
Lemma follows_bind {A B} (h1 h2 : nat -> nat) (m : M A) (k : A -> M B) :
  follows h1 m -> (forall x, follows h2 (k x)) ->
  follows (fun a => (h1 a + h2 a)%nat) (bind m k).
Proof.
  intros Hm Hk w Hc Htok Hal.
  destruct (Hm w Hc) as [Hrtc Hpost].
  { intros a. specialize (Htok a). lia. }
  { intros a Ha. apply Hal. lia. }
  unfold bind. destruct (m w) as [[x| |] w1]; cbn [snd] in *;
    try (split; [exact Hrtc|]; intros a Ha; specialize (Hpost a Ha); lia).
  pose proof (consistent_mutations _ _ Hrtc Hc) as Hc1.
  pose proof (mutations_fresh _ _ Hrtc) as Hfresh.
  assert (Hal2 : forall a, h2 a <> 0%nat -> is_Some (announcers w !! a)).
  { intros a Ha. apply Hal. lia. }
  destruct (Hk x w1 Hc1) as [Hrtc2 Hpost2].
  { intros a. destruct (decide (h2 a = 0%nat)) as [Hz|Hnz].
    - rewrite Hz. destruct Hc1 as (_ & _ & _ & Hs).
      pose proof (one_token _ Hs a). lia.
    - assert (Ha : (a < fresh w)%nat).
      { destruct Hc as (_ & _ & Hh & _). apply Hh. auto. }
      specialize (Hpost a Ha). specialize (Htok a). lia. }
  { intros a Ha. eapply mutations_keep_announcers; eauto. }
  split; [etrans; eauto|].
  intros a Ha. specialize (Hpost a Ha).
  specialize (Hpost2 a ltac:(lia)). lia.
Qed.

Lemma follows_bind_l {A B} (h : nat -> nat) (m : M A) (k : A -> M B) :
  follows no_token m -> (forall x, follows h (k x)) -> follows h (bind m k).
Proof.
  intros Hm Hk. eapply follows_weaken; [|apply (follows_bind no_token h); eauto].
  intros a. unfold no_token. lia.
Qed.

Lemma follows_bind_r {A B} (h : nat -> nat) (m : M A) (k : A -> M B) :
  follows h m -> (forall x, follows no_token (k x)) -> follows h (bind m k).
Proof.
  intros Hm Hk. eapply follows_weaken; [|apply (follows_bind h no_token); eauto].
  intros a. unfold no_token. lia.
Qed.

Lemma follows_for_each {A} (f : A -> M unit) (l : list A) :
  (forall x, follows no_token (f x)) -> follows no_token (for_each f l).
Proof.
  intros Hf. induction l as [|x l IH]; cbn [for_each].
  - apply follows_ret.
  - apply follows_bind_l; auto.
Qed.

(** A single elementary change that parks nothing. *)
Lemma follows_step {A} h (m : M A) :
  (forall w, mutation w (m w).2) ->
  (forall w a, (tokens a (m w).2 <= tokens a w)%nat) ->
  follows h m.
Proof.
  intros Hm Htok w _ _ _. split; [apply rtc_once, Hm|].
  intros a _. specialize (Htok w a). lia.
Qed.

Lemma follows_emit h e : plain e = true -> follows h (emit e).
Proof.
  intros He. apply follows_step.
  - intros w. apply (mut_emit w e He).
  - intros w a. reflexivity.
Qed.

Lemma follows_cache_get h type payload : follows h (cache_get type payload).
Proof.
  apply follows_step.
  - intros w. apply mut_cache_get.
  - intros w a. unfold cache_get. mut_unfold.
    destruct (cache w !! type); reflexivity.
Qed.

Lemma follows_stop_info h a : follows h (stop_info a).
Proof.
  apply follows_step.
  - intros w. apply mut_stop_info.
  - intros w a0. unfold stop_info, set_announcer, announcer, clearTimeout.
    mut_unfold. cbn.
    destruct (_ ≫= info_timeout); tok_simpl; [|lia].
    match goal with |- context [total ?f (delete ?k ?m)] =>
      pose proof (total_delete_le f m k) end. lia.
Qed.

Lemma follows_write h v k x : follows h (write v k x).
Proof.
  destruct v; try apply follows_ret; try apply follows_throw.
  apply follows_step.
  - intros w. apply (mut_write w a k x).
  - intros w a0. reflexivity.
Qed.

Lemma follows_read h v k : follows h (read v k).
Proof. apply follows_gets. Qed.

Create HintDb follows.

#[local] Hint Resolve follows_ret follows_throw follows_out_of_fuel follows_gets
  follows_cache_get follows_stop_info follows_write follows_read : follows.

Lemma follows_any {A} h (m : M A) : follows no_token m -> follows h m.
Proof. apply follows_weaken. intros a. unfold no_token. lia. Qed.

Lemma holds_nonzero a cb : holds a cb <> 0%nat -> owner cb = Some a.
Proof. unfold holds. case_decide; [auto|congruence]. Qed.

Lemma total_all_zero {A} (f : A -> nat) (m : gmap nat A) :
  (forall k v, m !! k = Some v -> f v = 0%nat) -> total f m = 0%nat.
Proof.
  induction m as [|k v m Hk IH] using map_ind; intros Hz.
  - apply total_empty.
  - rewrite total_insert by exact Hk.
    rewrite (Hz k v) by apply lookup_insert_eq.
    rewrite IH; [reflexivity|].
    intros k' v' Hk'. apply (Hz k'). rewrite lookup_insert_ne; [exact Hk'|].
    intros ->. congruence.
Qed.

(** No continuation is parked for a descriptor that does not exist. *)
Lemma tokens_unallocated a w :
  consistent w -> announcers w !! a = None -> tokens a w = 0%nat.
Proof.
  intros (_ & _ & _ & [Hro Hto Hxo _ _ _]) Ha. unfold tokens.
  rewrite !total_all_zero; [reflexivity| | |].
  - intros k v Hk. apply holds_other. intros Ho.
    destruct (Hxo _ _ _ Hk Ho). congruence.
  - intros k v Hk. apply holds_other. intros Ho.
    destruct (Hto _ _ _ Hk Ho). congruence.
  - intros k v Hk. apply holds_other. intros Ho.
    destruct (Hro _ _ _ Hk Ho). congruence.
Qed.

(** Taking a request out of the registry takes its continuation along. *)
Lemma tokens_reply_state a req rid err data w :
  _reqs w !! rid = Some req -> req_rid req = rid ->
  tokens a w = (holds a (req_cb req) + tokens a (reply_state req rid err data w))%nat.
Proof.
  intros Hreq Hrid. unfold reply_state, cached.
  assert (Hgen : forall w1, _reqs w1 = _reqs w -> timers w1 = timers w ->
            exchanges w1 = exchanges w ->
            tokens a w
              = (holds a (req_cb req)
                 + tokens a (set_trace (EvDispatch rid err data
                       :: trace (set_reqs (delete (req_rid req) (_reqs w1)) w1))
                       (set_reqs (delete (req_rid req) (_reqs w1)) w1)))%nat).
  { intros w1 H1 H2 H3. tok_simpl. rewrite H1, H2, H3, Hrid.
    rewrite (total_delete _ (_reqs w) rid req Hreq). lia. }
  destruct (negb (truthy err) && truthy data); [|auto].
  destruct (cache w !! req_type req); auto.
Qed.

Section Methods_follow.

Variable call_fn : callback -> list jsval -> M unit.
Hypothesis call_fn_follows :
  forall cb args, follows (fun a => holds a cb) (call_fn cb args).

Lemma follows_post_handler cb err res resData :
  follows (fun a => holds a cb) (post_handler call_fn cb err res resData).
Proof.
  unfold post_handler.
  repeat match goal with |- follows _ (if ?b then _ else _) => destruct b end;
    auto with follows.
Qed.

Lemma reply_state_mutations req rid err data w :
  _reqs w !! rid = Some req ->
  rtc mutation w (reply_state req rid err data w).
Proof.
  intros Hreq. unfold reply_state, cached.
  assert (Hdel : forall w1, _reqs w1 !! rid = Some req ->
    rtc mutation w1
      (set_trace (EvDispatch rid err data
                  :: trace (set_reqs (delete (req_rid req) (_reqs w1)) w1))
         (set_reqs (delete (req_rid req) (_reqs w1)) w1))).
  { intros w1 H1. apply rtc_once.
    apply (mut_dispatch w1 rid req err data H1). }
  destruct (negb (truthy err) && truthy data) eqn:Hc; [|auto].
  destruct (cache w !! req_type req) as [region|] eqn:Hreg; [|auto].
  apply andb_true_iff in Hc. destruct Hc as [_ Hdata].
  eapply rtc_l; [|apply Hdel; exact Hreq].
  pose proof (mut_cache_set w (req_type req) (req_qhash req) data Hdata) as Hm.
  unfold cache_set in Hm. rewrite bind_gets, Hreg in Hm. exact Hm.
Qed.

Lemma follows_handleReply rid err data :
  follows no_token (handleReply call_fn rid err data).
Proof.
  intros w Hc Htok Hal.
  destruct (_reqs w !! rid) as [req|] eqn:Hreq.
  - rewrite (handleReply_found _ _ _ _ _ _ Hreq).
    pose proof (reply_state_mutations req rid err data w Hreq) as Hrtc.
    pose proof Hc as ([Hkey _ _ _ _] & _ & _ & Hs).
    pose proof (tokens_reply_state) as Htk.
    set (w2 := reply_state req rid err data w) in *.
    destruct (call_fn_follows (req_cb req) [err; data] w2) as [Hrtc2 Hpost2].
    + eapply consistent_mutations; eauto.
    + intros a. pose proof (Htk a req rid err data w Hreq (Hkey _ _ Hreq)) as E.
      fold w2 in E. pose proof (one_token _ Hs a). lia.
    + intros a Ha. apply holds_nonzero in Ha.
      eapply mutations_keep_announcers; [exact Hrtc|].
      eapply (reqs_owned _ Hs); eauto.
    + split; [etrans; eauto|]. intros a Ha.
      pose proof (mutations_fresh _ _ Hrtc).
      specialize (Hpost2 a ltac:(lia)).
      pose proof (Htk a req rid err data w Hreq (Hkey _ _ Hreq)) as E.
      fold w2 in E. unfold no_token. lia.
  - rewrite (handleReply_absent _ _ _ _ _ Hreq). cbn [snd].
    split; [apply rtc_refl | intros; lia].
Qed.

Lemma _request_tail c type payload _opts cb w :
  let opts := js_defaults _opts [("timeout", VNum (requestTimeout c))] in
  (do req <- newRequest type payload opts cb;
   addRequest req;;
   post (grape c +:+ "/" +:+ type)
     (VObj [("rid", uuid (req_rid req)); ("data", req_payload req)])
     (VObj [("timeout", prop opts "timeout")])
     (CbReply (req_rid req))) w
  = (Ret tt, posted_state c type payload _opts cb w).
Proof. reflexivity. Qed.

Lemma tokens_posted_state a c type payload _opts cb w :
  consistent w ->
  tokens a (posted_state c type payload _opts cb w)
    = (tokens a w + holds a (if isFunction cb then cb else CbNoop))%nat.
Proof.
  intros ([_ Hra _ _ _] & _ & [_ _ _ Hxa] & _).
  unfold posted_state. tok_simpl.
  rewrite total_insert by (apply fresh_None, Hra).
  rewrite total_insert.
  - cbn [req_cb]. rewrite (holds_other a (CbPost _)) by (cbn [owner]; congruence).
    lia.
  - destruct (exchanges w !! S (fresh w)) eqn:Hx; [|reflexivity].
    specialize (Hxa _ (mk_is_Some _ _ Hx)). lia.
Qed.

Lemma posted_state_mutations c type payload _opts cb w :
  (forall a, (tokens a w + holds a cb <= 1)%nat) ->
  (forall a, owner cb = Some a -> is_Some (announcers w !! a)) ->
  rtc mutation w (posted_state c type payload _opts cb w).
Proof.
  intros Htok Hal.
  eapply rtc_l.
  - apply (mut_register w type payload
             (js_defaults _opts [("timeout", VNum (requestTimeout c))]) cb Htok Hal).
  - apply rtc_once.
    apply (mut_post
             ((do req <- newRequest type payload
                           (js_defaults _opts [("timeout", VNum (requestTimeout c))]) cb;
               addRequest req) w).2
             (grape c +:+ "/" +:+ type)
             (VObj [("rid", uuid (fresh w)); ("data", payload)])
             (VObj [("timeout",
                     prop (js_defaults _opts [("timeout", VNum (requestTimeout c))])
                       "timeout")])
             (CbReply (fresh w)) eq_refl).
Qed.

Lemma follows__request type payload _opts cb :
  follows (fun a => holds a cb) (_request call_fn type payload _opts cb).
Proof.
  unfold _request. apply follows_bind_l; [auto with follows|]. intros c.
  apply follows_bind_l; [auto with follows|]. intros cval.
  destruct (truthy cval); [apply call_fn_follows|].
  intros w Hc Htok Hal. rewrite _request_tail. cbn [snd]. split.
  - apply posted_state_mutations; [exact Htok|].
    intros a Ha. apply Hal. rewrite (holds_owner _ _ Ha). discriminate.
  - intros a _. rewrite tokens_posted_state by exact Hc.
    pose proof (holds_stored a cb). lia.
Qed.

Lemma follows_retry_next attempt times type payload _opts done args :
  follows (fun a => holds a done)
    (retry_next call_fn attempt times type payload _opts done args).
Proof.
  unfold retry_next. destruct (retry_again _ _ _).
  - apply (follows__request type payload _opts
             (CbRetry (S attempt) times type payload _opts done)).
  - eapply follows_weaken; [|apply call_fn_follows].
    intros a. apply holds_stored.
Qed.

Lemma follows_request type payload _opts cb :
  follows (fun a => holds a cb) (request call_fn type payload _opts cb).
Proof.
  unfold request. destruct (nullish _); [auto with follows|].
  apply (follows__request type payload _ (CbRetry 1 _ type payload _ cb)).
Qed.

Lemma follows_lookup key _opts cb :
  follows (fun a => holds a cb) (lookup call_fn key _opts cb).
Proof.
  unfold lookup.
  destruct _opts as [[]|];
    try apply (follows_request "lookup" key _ (CbLookup cb)).
  eapply follows_any. apply (follows_request "lookup" key _ (CbLookup (CbUser u))).
Qed.

Lemma follows_lookup_handler cb err res :
  follows (fun a => holds a cb) (lookup_handler call_fn cb err res).
Proof.
  unfold lookup_handler.
  repeat match goal with |- follows _ (if ?b then _ else _) => destruct b end;
    apply call_fn_follows.
Qed.

Lemma follows_announce key port _opts cb :
  follows (fun a => holds a cb) (announce call_fn key port _opts cb).
Proof.
  unfold announce.
  assert (Hreq : forall o,
            follows (fun a => holds a cb)
              (request call_fn "announce" (VArr [key; port]) (with_retry_3 o)
                 (if isFunction cb then cb else CbNoop))).
  { intros o. eapply follows_weaken; [|apply follows_request].
    intros a. apply holds_stored. }
  destruct _opts as [[]|]; try apply Hreq.
  eapply follows_any.
  apply (follows_request "announce" (VArr [key; port]) _ (CbUser u)).
Qed.

Lemma follows_ann a0 : follows (fun a => holds a (CbAnn a0)) (ann call_fn a0).
Proof.
  unfold ann. apply follows_bind_l; [apply follows_gets|].
  intros [i|]; [|apply follows_ret].
  apply (follows_announce (ann_key i) (ann_port i) (AVal (ann_opts i)) (CbReann a0)).
Qed.

(** The second half of [reann]: forget the callback, and unless the
    descriptor is stopped park the next [ann] on a timer. *)
Lemma follows_reschedule a0 interval :
  follows (fun a => holds a (CbReann a0))
    (set_announcer a0 (with_cb None);;
     do act' <- announcer a0;
     if default true (info_stopped <$> act') then ret tt
     else
       do r <- Math_random;
       do h <- setTimeout (CbAnn a0) (jitter interval r);
       set_announcer a0 (with_timeout (Some h))).
Proof.
  intros w Hc Htok Hal.
  pose proof (mut_clear_cb w a0) as Hclear.
  unfold set_announcer, modify in Hclear. cbn [snd] in Hclear.
  set (w1 := set_announcers (alter (with_cb None) a0 (announcers w)) w) in *.
  set (sched := do r <- Math_random;
       do h <- setTimeout (CbAnn a0) (jitter interval r);
       set_announcer a0 (with_timeout (Some h))).
  assert (Htok1 : forall a, tokens a w1 = tokens a w) by reflexivity.
  assert (E : (set_announcer a0 (with_cb None);;
     do act' <- announcer a0;
     if default true (info_stopped <$> act') then ret tt else sched) w
     = (if default true (info_stopped <$> (announcers w1 !! a0)) then ret tt else sched) w1).
  { unfold set_announcer at 1. rewrite bind_modify. unfold announcer.
    rewrite bind_gets. reflexivity. }
  rewrite E. clear E.
  destruct (announcers w1 !! a0) as [i'|] eqn:Hi';
    cbn [fmap option_fmap option_map default from_option id].
  2:{ split; [apply rtc_once; exact Hclear | intros; cbn [snd ret]; rewrite Htok1; lia]. }
  destruct (info_stopped i') eqn:Hs.
  { split; [apply rtc_once; exact Hclear | intros; cbn [snd ret]; rewrite Htok1; lia]. }
  assert (Hzero : tokens a0 w1 = 0%nat).
  { specialize (Htok a0). rewrite holds_owner in Htok by reflexivity.
    rewrite Htok1. lia. }
  pose proof (mut_schedule w1 a0 i' (fun r => jitter interval r) Hi' Hs Hzero) as Hsch.
  split; [eapply rtc_l; [exact Hclear | apply rtc_once; exact Hsch]|].
  intros a _. clear Hsch Hclear Hzero Hal.
  destruct Hc as (_ & _ & [_ _ Hta _] & _).
  pose proof (fresh_None _ _ Hta) as Ht0.
  rewrite <- Htok1. subst sched.
  unfold Math_random, setTimeout, set_announcer. mut_unfold.
  destruct (random w1); cbn; tok_simpl; subst w1;
    cbn [timers set_announcers set_random].
  all: rewrite total_insert by exact Ht0; unfold holds; cbn [owner]; repeat case_decide; lia.
Qed.

Lemma follows_reann a0 err :
  follows (fun a => holds a (CbReann a0)) (reann call_fn a0 err).
Proof.
  unfold reann. apply follows_bind_l; [apply follows_gets|].
  intros [i|]; [|apply follows_ret].
  apply follows_bind_l.
  { destruct (ann_cb i) as [u|]; [|apply follows_ret].
    apply (call_fn_follows (CbUser u)). }
  intros _. apply follows_reschedule.
Qed.

Lemma follows_startAnnouncing key port opts cb :
  follows no_token (startAnnouncing call_fn key port opts cb).
Proof.
  intros w Hc Htok Hal. unfold startAnnouncing.
  destruct (match opts with
            | AFun u => (VObj [], Some u)
            | AVal VUndefined => (VObj [], cb)
            | AVal v0 => (v0, cb)
            end) as [opts' cb'].
  rewrite bind_gets.
  destruct (bool_decide _);
    [split; [apply rtc_refl | intros; unfold ret; cbn [snd]; lia]|].
  set (interval := js_or _ _).
  pose proof (mut_alloc w key port opts' interval cb') as Halloc.
  set (w1 := set_announcers _ _) in Halloc.
  set (rest := call_fn (CbAnn (fresh w)) [];;
               modify (fun w' => set_announces
                         (<[announce_id key port := fresh w]> (_announces w')) w');;
               ret VUndefined).
  match goal with |- context [(?m w).2] =>
    assert (E : m w = rest w1) by reflexivity; rewrite E; clear E end.
  assert (Ha : is_Some (announcers w1 !! fresh w)).
  { subst w1. cbn. rewrite lookup_insert_eq. eauto. }
  assert (Hc1 : consistent w1) by (eapply consistent_mutation; eauto).
  assert (Hnew : announcers w !! fresh w = None).
  { destruct Hc as (_ & _ & [Hann _ _ _] & _). apply fresh_None, Hann. }
  assert (Htok1 : forall a, tokens a w1 = tokens a w) by reflexivity.
  destruct (call_fn_follows (CbAnn (fresh w)) [] w1 Hc1) as [Hrtc Hpost].
  { intros a. rewrite Htok1. destruct (decide (a = fresh w)) as [->|Hne].
    - rewrite (tokens_unallocated _ _ Hc Hnew). apply holds_le.
    - rewrite holds_other by (cbn [owner]; congruence).
      destruct Hc as (_ & _ & _ & Hs). pose proof (one_token _ Hs a). lia. }
  { intros a Hh. apply holds_nonzero in Hh. injection Hh as <-. exact Ha. }
  assert (Hle : forall a, (a < fresh w)%nat ->
            (tokens a (call_fn (CbAnn (fresh w)) [] w1).2 <= tokens a w)%nat).
  { intros a Ha'. specialize (Hpost a ltac:(subst w1; cbn; lia)).
    rewrite holds_other in Hpost by (cbn [owner]; intros [= E]; lia).
    rewrite Htok1 in Hpost. lia. }
  subst rest. unfold bind.
  destruct (call_fn (CbAnn (fresh w)) [] w1) as [[[]| |] w2]; cbn [snd] in *.
  - split.
    + eapply rtc_l; [exact Halloc|]. etrans; [exact Hrtc|].
      apply rtc_once. unfold modify. cbn [snd].
      apply mut_announce. eapply mutations_keep_announcers; eauto.
    + intros a Ha'. unfold modify, ret. cbn [snd].
      change (tokens a (set_announces _ w2)) with (tokens a w2).
      specialize (Hle a Ha'). unfold no_token. lia.
  - split; [eapply rtc_l; eauto|].
    intros a Ha'. specialize (Hle a Ha'). unfold no_token. lia.
  - split; [eapply rtc_l; eauto|].
    intros a Ha'. specialize (Hle a Ha'). unfold no_token. lia.
Qed.

Lemma follows_stopAnnouncing key port : follows no_token (stopAnnouncing key port).
Proof.
  unfold stopAnnouncing. apply follows_bind_l; [apply follows_gets|].
  intros anns. destruct (anns !! announce_id key port) as [a|]; [|apply follows_ret].
  apply follows_bind_l.
  { apply follows_step.
    - intros w. apply (mut_forget w (announce_id key port)).
    - intros w a0. reflexivity. }
  intros _. apply follows_bind_l; [apply follows_stop_info | intros; apply follows_ret].
Qed.

Lemma follows_put opts cb :
  follows (fun a => holds a cb) (put call_fn opts cb).
Proof.
  unfold put. destruct (_ || _); [apply follows_throw|].
  apply follows_request.
Qed.

Lemma follows_resolve h name : follows h (resolve name).
Proof. unfold resolve. destruct (bool_decide _); auto with follows. Qed.

Lemma follows_toString_hex h v : follows h (toString_hex v).
Proof. destruct v; cbn; auto with follows. Qed.

Lemma follows_putMutable data opts cb :
  follows (fun a => holds a cb) (putMutable call_fn data opts cb).
Proof.
  unfold putMutable.
  repeat first
    [ apply call_fn_follows
    | apply follows_put
    | apply follows_throw
    | apply follows_bind_l;
        [first [ apply follows_read | apply follows_write | apply follows_resolve
               | apply follows_toString_hex | apply follows_emit; reflexivity ]
        | intros ?]
    | match goal with |- follows _ (if ?b then _ else _) => destruct b end ].
Qed.

Lemma follows_get hash cb :
  follows (fun a => holds a cb) (get call_fn hash cb).
Proof. apply follows_request. Qed.

Lemma follows_start : follows no_token start.
Proof. apply follows_emit. reflexivity. Qed.

Lemma follows_stop : follows no_token stop.
Proof.
  unfold stop. apply follows_bind_l.
  { apply follows_step.
    - intros w. apply mut_clear_caches.
    - intros w a. reflexivity. }
  intros _. apply follows_bind_l; [apply follows_gets|]. intros anns.
  apply follows_bind_l.
  { apply follows_for_each. intros a. apply follows_stop_info. }
  intros _. apply follows_step.
  - intros w. apply mut_forget_all.
  - intros w a. reflexivity.
Qed.

Lemma holds_of_user a o : holds a (of_user o) = 0%nat.
Proof. apply holds_other. destruct o; cbn; congruence. Qed.

Lemma follows_of_user {A} o (m : M A) :
  follows (fun a => holds a (of_user o)) m -> follows no_token m.
Proof.
  apply follows_weaken. intros a. rewrite holds_of_user. unfold no_token. lia.
Qed.

Lemma follows_do_call c : follows no_token (do_call call_fn c).
Proof.
  destruct c; cbn [do_call].
  - apply follows_handleReply.
  - eapply follows_of_user. apply follows_request.
  - eapply follows_of_user. apply follows_lookup.
  - eapply follows_of_user. apply follows_announce.
  - apply follows_bind_l; [apply follows_startAnnouncing | intros; apply follows_ret].
  - apply follows_bind_l; [apply follows_stopAnnouncing | intros; apply follows_ret].
  - eapply follows_of_user. apply follows_put.
  - eapply follows_of_user. apply follows_putMutable.
  - eapply follows_of_user. apply follows_get.
  - apply follows_start.
  - apply follows_stop.
Qed.

End Methods_follow.

Lemma follows_apply_fn fuel :
  forall cb args, follows (fun a => holds a cb) (apply_fn fuel cb args).
Proof.
  induction fuel as [|n IH]; intros cb args; [apply follows_out_of_fuel|].
  destruct cb as [|[f body]| | | | | | |]; cbn [apply_fn];
    try (eapply follows_weaken;
         [|first [ apply (follows_post_handler _ IH)
                 | apply (follows_retry_next _ IH)
                 | apply (follows_lookup_handler _ IH)
                 | apply (follows_ann _ IH)
                 | apply (follows_reann _ IH) ]];
         intros ?; apply Nat.eq_le_incl; reflexivity).
  - apply follows_throw.
  - apply follows_bind_l; [apply follows_emit; reflexivity|]. intros _.
    apply follows_any. apply follows_for_each. intros c.
    apply follows_do_call. exact IH.
  - apply follows_ret.
  - apply follows_any. apply follows_handleReply. exact IH.
Qed.

(** Taking a pending entry out of a table of the host takes its
    continuation along. *)
Lemma follows_taken fuel handler args w w1 :
  consistent w -> mutation w w1 ->
  (forall a, tokens a w = (holds a handler + tokens a w1)%nat) ->
  (forall a, owner handler = Some a -> is_Some (announcers w !! a)) ->
  rtc mutation w (apply_fn fuel handler args w1).2
  /\ (forall a, (a < fresh w)%nat ->
        (tokens a (apply_fn fuel handler args w1).2 <= tokens a w + no_token a)%nat).
Proof.
  intros Hc Hm Htake Hown.
  pose proof (consistent_mutation _ _ Hm Hc) as Hc1.
  destruct (follows_apply_fn fuel handler args w1 Hc1) as [Hrtc Hpost].
  - intros a. specialize (Htake a).
    destruct Hc as (_ & _ & _ & Hs). pose proof (one_token _ Hs a). lia.
  - intros a Ha. apply holds_nonzero in Ha.
    eapply mutation_keeps_announcers; [exact Hm|]. auto.
  - split; [eapply rtc_l; eauto|].
    intros a Ha. pose proof (mutation_fresh _ _ Hm).
    specialize (Hpost a ltac:(lia)). specialize (Htake a). lia.
Qed.

Lemma follows_do_step fuel s : follows no_token (do_step fuel s).
Proof.
  destruct s; cbn [do_step].
  - apply follows_do_call. apply follows_apply_fn.
  - intros w Hc _ _. rewrite bind_gets.
    destruct (exchanges w !! x) as [handler|] eqn:Hx;
      [|split; [apply rtc_refl | intros; unfold ret; cbn [snd]; lia]].
    rewrite bind_modify.
    apply follows_taken; [exact Hc | apply mut_responded | |].
    + intros a. tok_simpl. rewrite (total_delete _ _ _ _ Hx). lia.
    + intros a Ha. destruct Hc as (_ & _ & _ & Hs).
      eapply exchanges_owned; eauto.
  - intros w Hc _ _. rewrite bind_gets.
    destruct (timers w !! h) as [handler|] eqn:Hx;
      [|split; [apply rtc_refl | intros; unfold ret; cbn [snd]; lia]].
    rewrite bind_modify.
    apply follows_taken; [exact Hc | apply mut_fired | |].
    + intros a. tok_simpl. rewrite (total_delete _ _ _ _ Hx). lia.
    + intros a Ha. destruct Hc as (_ & _ & _ & Hs).
      eapply timers_owned; eauto.
  - apply follows_step.
    + intros w. apply mut_tick.
    + intros w a. reflexivity.
Qed.

Lemma follows_run fuel steps : follows no_token (run fuel steps).
Proof. apply follows_for_each. intros s. apply follows_do_step. Qed.

(** Every computation of the client proceeds by elementary changes, from
    any state a client can be in. *)
Lemma follows_reachable {A} (m : M A) w :
  follows no_token m -> reachable w -> reachable (m w).2.
Proof.
  intros Hm (c & t0 & objs & draws & Hw).
  exists c, t0, objs, draws. etrans; [exact Hw|].
  apply Hm.
  - eapply consistent_mutations; [exact Hw | apply consistent_new_Link].
  - intros a. unfold no_token.
    assert (Hc : consistent w)
      by (eapply consistent_mutations; [exact Hw | apply consistent_new_Link]).
    destruct Hc as (_ & _ & _ & Hs). pose proof (one_token _ Hs a). lia.
  - intros a Ha. unfold no_token in Ha. congruence.
Qed.

Lemma run_reachable fuel steps w : reachable w -> reachable (run fuel steps w).2.
Proof. apply follows_reachable, follows_run. Qed.

Lemma new_Link_reachable c t0 objs draws : reachable (new_Link c t0 objs draws).
Proof. exists c, t0, objs, draws. apply rtc_refl. Qed.

(** ** Reply dispatch: at most once *)

Lemma reply_state_removes req rid err data w :
  req_rid req = rid -> _reqs (reply_state req rid err data w) !! rid = None.
Proof.
  intros <-. unfold reply_state. cbn. apply lookup_delete_eq.
Qed.

(** C1: in every reachable state, a reply for an identifier without a
    pending request changes nothing and invokes nothing; a reply for a
    pending request invokes its callback in a state from which the request
    is already gone; and whatever run follows, with callers re-entering
    the client from their callbacks as they please, the callback of no
    identifier has been invoked more than once. *)
Theorem handleReply_dispatches_at_most_once :
  forall w,
    reachable w ->
    (forall call_fn rid err data,
        _reqs w !! rid = None ->
        handleReply call_fn rid err data w = (Ret tt, w))
    /\ (forall call_fn rid err data req,
          _reqs w !! rid = Some req ->
          handleReply call_fn rid err data w
            = call_fn (req_cb req) [err; data] (reply_state req rid err data w)
          /\ _reqs (reply_state req rid err data w) !! rid = None)
    /\ (forall fuel p rid, (dispatches rid (trace (run fuel p w).2) <= 1)%nat).
Proof.
  intros w Hw. split; [|split].
  - intros. apply handleReply_absent. assumption.
  - intros call_fn rid err data req Hreq. split.
    + apply handleReply_found. exact Hreq.
    + apply reply_state_removes.
      apply reachable_consistent in Hw. destruct Hw as [[Hkey _ _ _ _] _].
      eauto.
  - intros fuel p rid.
    pose proof (reachable_consistent _ (run_reachable fuel p w Hw)) as [Hr _].
    apply (dispatched_once _ Hr).
Qed.

(** ** Reply dispatch: what is cached *)

Lemma cached_cache req err data w :
  cache_ok w ->
  cache (cached req err data w)
    = if negb (truthy err) && truthy data && bool_decide (req_type req = "lookup")
      then alter (LRU.set (now w) (req_qhash req) data) "lookup" (cache w)
      else cache w.
Proof.
  intros [Htypes _]. unfold cached.
  destruct (negb (truthy err) && truthy data); cbn [andb]; [|reflexivity].
  case_bool_decide as Hty.
  - rewrite Hty. destruct (proj2 (Htypes "lookup") eq_refl) as [region Hr].
    rewrite Hr. cbn. apply map_eq. intros k.
    rewrite lookup_insert, lookup_alter. case_decide; subst; [|reflexivity].
    rewrite Hr. reflexivity.
  - destruct (cache w !! req_type req) eqn:Hr; [|reflexivity].
    exfalso. apply Hty. apply Htypes. eauto.
Qed.

(** C2, as amended: in every reachable state, a reply for an identifier
    without a pending request writes nothing; a reply for a pending
    request writes the cache, at the fingerprint of the request and
    before its callback runs, exactly when the error is falsy, the data is
    truthy and the type of the request is [lookup].  An empty array is
    truthy, so it is written. *)
Theorem handleReply_caches_truthy_data :
  forall w,
    reachable w ->
    forall call_fn rid err data,
      match _reqs w !! rid with
      | None => handleReply call_fn rid err data w = (Ret tt, w)
      | Some req =>
          handleReply call_fn rid err data w
            = call_fn (req_cb req) [err; data] (reply_state req rid err data w)
          /\ cache (reply_state req rid err data w)
             = if negb (truthy err) && truthy data
                  && bool_decide (req_type req = "lookup")
               then alter (LRU.set (now w) (req_qhash req) data) "lookup" (cache w)
               else cache w
      end.
Proof.
  intros w Hw call_fn rid err data.
  destruct (_reqs w !! rid) as [req|] eqn:Hreq.
  - split; [apply handleReply_found; exact Hreq|].
    apply reachable_consistent in Hw. destruct Hw as (_ & Hc & _).
    unfold reply_state. cbn [cache set_trace set_reqs].
    apply cached_cache. exact Hc.
  - apply handleReply_absent. exact Hreq.
Qed.

(** ** Cache hits *)

Lemma cache_get_region type payload region w :
  cache w !! type = Some region ->
  let qhash := type +:+ ":" +:+ JSON_stringify (deref w payload) in
  cache_get type payload w
    = (Ret (LRU.get (now w) qhash region).1,
       set_cache (<[type := (LRU.get (now w) qhash region).2]> (cache w)) w).
Proof.
  intros Hr. unfold cache_get. rewrite bind_gets, Hr. reflexivity.
Qed.

Lemma get_live t k c e :
  LRU.find k (LRU.items c) = Some e ->
  LRU.expired c t e = false ->
  (LRU.get t k c).1 = LRU.value e.
Proof. intros Hf He. unfold LRU.get. rewrite Hf, He. reflexivity. Qed.

Lemma _request_hit call_fn type payload _opts cb w region :
  cache w !! type = Some region ->
  truthy (LRU.get (now w) (fingerprint w type payload) region).1 = true ->
  _request call_fn type payload _opts cb w
    = call_fn cb [VNull; (LRU.get (now w) (fingerprint w type payload) region).1]
        (set_cache (<[type := (LRU.get (now w) (fingerprint w type payload) region).2]>
                      (cache w)) w).
Proof.
  intros Hr Hhit. unfold _request. rewrite bind_gets.
  unfold bind at 1. rewrite (cache_get_region _ _ _ _ Hr).
  fold (fingerprint w type payload). rewrite Hhit. reflexivity.
Qed.

Lemma live_entry_truthy w type region k e :
  consistent w ->
  cache w !! type = Some region ->
  LRU.find k (LRU.items region) = Some e ->
  truthy (LRU.value e) = true.
Proof.
  intros (_ & [_ Htruthy] & _) Hr Hf. eapply Htruthy; [exact Hr|].
  unfold LRU.find in Hf. apply find_some in Hf. apply Hf.
Qed.

(** ** The announce scheduler after a stop *)

Lemma scheduled_cons a e tr :
  scheduled a (e :: tr)
    = ((if schedules a e then 1 else 0) + scheduled a tr)%nat.
Proof. unfold scheduled. cbn [List.filter]. destruct (schedules a e); reflexivity. Qed.

#[local] Arguments scheduled : simpl never.

Lemma stopped_alter (a a0 : nat) f (m : gmap nat Announcer) :
  (forall i, info_stopped i = true -> info_stopped (f i) = true) ->
  (exists i, m !! a = Some i /\ info_stopped i = true) ->
  exists i, alter f a0 m !! a = Some i /\ info_stopped i = true.
Proof.
  intros Hf (i & Hi & Hs). rewrite lookup_alter. case_decide; subst.
  - rewrite Hi. cbn. eauto.
  - eauto.
Qed.

(** A stopped descriptor stays stopped, gets no new timer, and no pending
    timer comes to run its [ann]. *)
Lemma stopped_mutation a w w' :
  heap_ok w -> stopped a w -> mutation w w' ->
  stopped a w'
  /\ scheduled a (trace w') = scheduled a (trace w)
  /\ (forall h, pending_for a h w' -> pending_for a h w).
Proof.
  intros [Hann _ _ _] Hst Hm. unfold stopped, pending_for in *.
  assert (Ha : (a < fresh w)%nat) by (destruct Hst as (i & Hi & _); eauto).
  mut_cases Hm; cbn; rewrite ?scheduled_cons; cbn [schedules];
    (split; [|split]); auto; intros;
    try (apply stopped_alter; [intros []; cbn; auto|]); auto;
    map_hyps; auto.
  - rewrite lookup_insert_ne by lia. exact Hst.
  - destruct (Nat.eqb_spec a0 a); [subst|reflexivity].
    destruct Hst as (i' & Hi' & Hs'). congruence.
  - destruct Hst as (i' & Hi' & Hs'). congruence.
  - destruct (Nat.eqb_spec a0 a); [subst|reflexivity].
    destruct Hst as (i' & Hi' & Hs'). congruence.
  - destruct Hst as (i' & Hi' & Hs'). congruence.
  - match goal with H : plain ?e = true |- _ =>
      destruct e; try discriminate H; reflexivity
    end.
Qed.

Lemma stopped_mutations a w w' :
  consistent w -> stopped a w -> rtc mutation w w' ->
  stopped a w'
  /\ scheduled a (trace w') = scheduled a (trace w)
  /\ (forall h, pending_for a h w' -> pending_for a h w).
Proof.
  intros Hc Hst Hw. revert Hc Hst.
  induction Hw as [w|w w1 w' Hm _ IH]; intros Hc Hst; [auto|].
  destruct (stopped_mutation a w w1) as (Hst1 & Hsch1 & Hpen1); auto.
  { apply Hc. }
  destruct IH as (Hst' & Hsch' & Hpen');
    [eapply consistent_mutation; eauto | exact Hst1 |].
  split; [exact Hst'|]. split; [congruence|]. auto.
Qed.

Lemma stop_info_effect a w i :
  announcers w !! a = Some i ->
  let w' := (stop_info a w).2 in
  announcers w' = alter (with_stopped true) a (announcers w)
  /\ timers w' = match info_timeout i with
                 | Some h => delete h (timers w)
                 | None => timers w
                 end
  /\ _announces w' = _announces w
  /\ trace w' = EvClearTimeout (info_timeout i) :: trace w.
Proof.
  intros Hi. unfold stop_info, set_announcer, announcer, clearTimeout.
  mut_unfold. cbn. rewrite lookup_alter, decide_True by reflexivity.
  rewrite Hi. cbn. destruct (info_timeout i); cbn; auto.
Qed.

(** The state [stopAnnouncing] leaves for a registered pair. *)
Lemma stopAnnouncing_registered key port w a :
  _announces w !! announce_id key port = Some a ->
  stopAnnouncing key port w
    = (Ret VUndefined,
       (stop_info a (set_announces (delete (announce_id key port) (_announces w)) w)).2).
Proof.
  intros Ha. unfold stopAnnouncing. rewrite bind_gets, Ha, bind_modify.
  unfold bind, stop_info, set_announcer, announcer, clearTimeout, modify,
    gets, emit, ret. reflexivity.
Qed.

(** In a state a client can be in, a stopped descriptor has no pending
    timer at all. *)
Lemma stopped_no_timer a w :
  reachable w -> stopped a w -> forall h, ~ pending_for a h w.
Proof.
  intros Hw (i & Hi & Hs) h. apply reachable_consistent in Hw.
  destruct Hw as (_ & _ & _ & Hsch). exact (stopped_idle _ Hsch h a i Hi Hs).
Qed.

(** C3: when [stopAnnouncing(key, port)] is called for a registered pair
    in a state the client can be in, it returns with the pair
    unregistered and its descriptor marked stopped, after one
    [clearTimeout] of the timer the descriptor records, which is the only
    timer that can be pending for the descriptor: no timer is pending for
    it when [stopAnnouncing] returns.  In whatever run follows (responses
    of attempts that were in flight, timers, further calls, callers
    re-entering from callbacks), the descriptor stays stopped, no timer
    is set for it, and no timer is pending for it. *)
Theorem stopAnnouncing_ends_schedule :
  forall w key port a,
    reachable w ->
    _announces w !! announce_id key port = Some a ->
    let w1 := (stopAnnouncing key port w).2 in
    (stopAnnouncing key port w).1 = Ret VUndefined
    /\ _announces w1 !! announce_id key port = None
    /\ stopped a w1
    /\ (exists i,
          announcers w !! a = Some i
          /\ (forall h, pending_for a h w -> info_timeout i = Some h)
          /\ trace w1 = EvClearTimeout (info_timeout i) :: trace w)
    /\ (forall h, ~ pending_for a h w1)
    /\ (forall fuel p,
          let w2 := (run fuel p w1).2 in
          stopped a w2
          /\ scheduled a (trace w2) = scheduled a (trace w1)
          /\ (forall h, ~ pending_for a h w2)).
Proof.
  intros w key port a Hw Hreg w1.
  assert (Hw1 : reachable w1)
    by (apply follows_reachable; [apply follows_stopAnnouncing | exact Hw]).
  pose proof (reachable_consistent _ Hw) as (_ & _ & Hheap & Hsch).
  destruct (announces_allocated _ Hheap _ _ Hreg) as [i Hi].
  subst w1. rewrite (stopAnnouncing_registered _ _ _ _ Hreg) in *.
  cbn [fst snd] in *.
  set (w0 := set_announces (delete (announce_id key port) (_announces w)) w) in *.
  destruct (stop_info_effect a w0 i Hi) as (Hann & Htim & Hreg' & Htr).
  assert (Hst : stopped a (stop_info a w0).2).
  { unfold stopped. rewrite Hann, lookup_alter, decide_True by reflexivity.
    cbn [announcers w0 set_announces]. rewrite Hi. cbn. eauto. }
  split; [reflexivity|]. split; [|split; [exact Hst|split; [|split]]].
  - rewrite Hreg'. cbn. apply lookup_delete_eq.
  - exists i. split; [exact Hi|]. split; [|exact Htr].
    intros h Hh. pose proof (timer_recorded _ Hsch h a Hh) as Hrec.
    rewrite Hi in Hrec. exact Hrec.
  - apply stopped_no_timer; assumption.
  - intros fuel p. set (w2 := (run fuel p _).2).
    destruct (stopped_mutations a (stop_info a w0).2 w2) as (Hst2 & Hsc2 & _).
    + apply reachable_consistent. exact Hw1.
    + exact Hst.
    + apply follows_run.
      * apply reachable_consistent. exact Hw1.
      * intros a'. unfold no_token.
        pose proof (reachable_consistent _ Hw1) as (_ & _ & _ & Hs1).
        pose proof (one_token _ Hs1 a'). lia.
      * intros a' Ha'. unfold no_token in Ha'. congruence.
    + split; [exact Hst2|]. split; [exact Hsc2|].
      apply stopped_no_timer; [|exact Hst2].
      apply run_reachable. exact Hw1.
Qed.

(** ** Two lookups in a row *)

Lemma _request_miss call_fn type payload _opts cb w region :
  cache w !! type = Some region ->
  truthy (LRU.get (now w) (fingerprint w type payload) region).1 = false ->
  _request call_fn type payload _opts cb w
    = (Ret tt, sent_state type payload _opts cb region w).
Proof.
  intros Hr Hmiss. unfold _request. rewrite bind_gets.
  unfold bind at 1. rewrite (cache_get_region _ _ _ _ Hr).
  fold (fingerprint w type payload). rewrite Hmiss.
  reflexivity.
Qed.

(** The completion of a lookup whose last attempt succeeded: the retry
    wrapper finishes, the handler of [lookup] shapes the result, the
    caller's function is invoked. *)
Lemma lookup_completes n times key _opts f err data w :
  truthy err = false ->
  apply_fn (S (S (S n)))
    (CbRetry 1 times "lookup" key _opts (CbLookup (CbUser (UFun f [])))) [err; data] w
    = (Ret tt, set_trace (EvCall f (lookup_result data) :: trace w) w).
Proof.
  intros He. rewrite apply_retry. unfold retry_again. cbn [nth_arg nth].
  rewrite He. cbn [andb isFunction].
  cbn [apply_fn nth_arg nth]. rewrite lookup_handler_ok by exact He.
  reflexivity.
Qed.

Lemma lookup_starts call_fn key o cb w :
  let _opts := with_retry_3 (match o with VUndefined => VObj [] | _ => o end) in
  lookup call_fn key (AVal o) cb w
    = _request call_fn "lookup" key _opts
        (CbRetry 1 (retry_times (js_or (prop _opts "retry") (VNum 1)))
           "lookup" key _opts (CbLookup cb)) w.
Proof. destruct o; reflexivity. Qed.

Lemma get_after_set t dt k v c :
  LRU.maxAge c = 0 \/ dt <= LRU.maxAge c ->
  (LRU.get (t + dt) k (LRU.set t k v c)).1 = v.
Proof.
  intros Hage. unfold LRU.get, LRU.set.
  destruct (LRU.find k (LRU.items c)); cbn [LRU.items LRU.find List.find LRU.key];
    rewrite String.eqb_refl; unfold LRU.expired; cbn [LRU.maxAge LRU.modified];
    (destruct (LRU.maxAge c =? 0) eqn:Hz; cbn [negb andb]; [reflexivity|]);
    (replace (LRU.maxAge c <? t + dt - t) with false; [reflexivity|]);
    symmetry; apply Z.ltb_ge; apply Z.eqb_neq in Hz; lia.
Qed.

Lemma get_maxAge t k c : LRU.maxAge (LRU.get t k c).2 = LRU.maxAge c.
Proof.
  unfold LRU.get. destruct (LRU.find k (LRU.items c)); [|reflexivity].
  destruct (LRU.expired c t e); reflexivity.
Qed.

Lemma cached_written req err data w region :
  truthy err = false -> truthy data = true ->
  cache w !! req_type req = Some region ->
  cached req err data w
    = set_cache (<[req_type req := LRU.set (now w) (req_qhash req) data region]> (cache w)) w.
Proof.
  intros He Hd Hr. unfold cached. rewrite He, Hd, Hr. reflexivity.
Qed.

Lemma posts_cons e tr :
  posts (e :: tr) = ((if is_post e then 1 else 0) + posts tr)%nat.
Proof. unfold posts. cbn [List.filter]. destruct (is_post e); reflexivity. Qed.

(** After a lookup that went to the network and was answered without an
    error and with truthy data, a second lookup for the same key within
    the age bound is served from the cache: the two lookups start exactly
    one network exchange. *)
Lemma two_lookups_one_exchange w n key o f1 f2 dt err res data region :
  cache w !! "lookup" = Some region ->
  truthy (LRU.get (now w) (fingerprint w "lookup" key) region).1 = false ->
  truthy err = false ->
  truthy res && negb (test_2xx (prop res "statusCode")) = false ->
  truthy data = true ->
  LRU.maxAge region = 0 \/ dt <= LRU.maxAge region ->
  let p := [Call (CLookup key (AVal o) (Some (UFun f1 [])));
            Respond (S (fresh w)) err res data;
            Tick dt;
            Call (CLookup key (AVal o) (Some (UFun f2 [])))] in
  exists options,
    (run (S (S (S (S (S n))))) p w).1 = Ret tt
    /\ trace (run (S (S (S (S (S n))))) p w).2
       = EvCall f2 (lookup_result data) :: EvCall f1 (lookup_result data)
         :: EvDispatch (fresh w) err data :: EvPost (S (fresh w)) options
         :: trace w.
Proof.
  intros Hr Hmiss He Hres Hd Hage p. subst p.
  set (F := S (S (S (S (S n))))).
  set (_opts := with_retry_3 (match o with VUndefined => VObj [] | _ => o end)).
  set (times := retry_times (js_or (prop _opts "retry") (VNum 1))).
  set (done1 := CbLookup (CbUser (UFun f1 []))).
  set (w1 := sent_state "lookup" key _opts
               (CbRetry 1 times "lookup" key _opts done1) region w).
  assert (S1 : do_step F (Call (CLookup key (AVal o) (Some (UFun f1 [])))) w
               = (Ret tt, w1)).
  { cbn [do_step do_call of_user]. rewrite lookup_starts.
    apply _request_miss; assumption. }
  set (w1' := set_exchanges (delete (S (fresh w)) (exchanges w1)) w1).
  set (req := {| req_rid := fresh w; req_type := "lookup"; req_payload := key;
                 req_opts := js_defaults _opts [("timeout", VNum (requestTimeout (conf w)))];
                 req_cb := CbRetry 1 times "lookup" key _opts done1;
                 req_ts := now w;
                 req_qhash := fingerprint w "lookup" key |}).
  set (region1 := (LRU.get (now w) (fingerprint w "lookup" key) region).2).
  set (region2 := LRU.set (now w) (fingerprint w "lookup" key) data region1).
  set (wc := set_cache (<["lookup" := region2]> (cache w1')) w1').
  set (ws := set_trace (EvDispatch (fresh w) err data :: trace wc)
               (set_reqs (delete (fresh w) (_reqs wc)) wc)).
  set (w2 := set_trace (EvCall f1 (lookup_result data) :: trace ws) ws).
  assert (S2 : do_step F (Respond (S (fresh w)) err res data) w1 = (Ret tt, w2)).
  { cbn [do_step]. rewrite bind_gets.
    replace (exchanges w1 !! S (fresh w)) with (Some (CbPost (CbReply (fresh w))))
      by (symmetry; apply lookup_insert_eq).
    rewrite bind_modify. fold w1'. subst F.
    cbn [apply_fn nth_arg nth]. unfold post_handler. rewrite He. cbn [andb].
    rewrite Hres. cbn [apply_fn nth_arg nth].
    assert (Hreq : _reqs w1' !! fresh w = Some req) by apply lookup_insert_eq.
    rewrite (handleReply_found _ _ _ _ _ _ Hreq).
    unfold reply_state.
    assert (Hr1 : cache w1' !! req_type req = Some region1) by apply lookup_insert_eq.
    rewrite (cached_written _ _ _ _ _ He Hd Hr1).
    cbn [req_cb req]. apply lookup_completes. exact He. }
  set (w3 := set_now (now w2 + dt) w2).
  assert (S3 : do_step F (Tick dt) w2 = (Ret tt, w3)) by reflexivity.
  set (region3 := (LRU.get (now w + dt) (fingerprint w "lookup" key) region2).2).
  set (w4 := set_cache (<["lookup" := region3]> (cache w3)) w3).
  set (w5 := set_trace (EvCall f2 (lookup_result data) :: trace w4) w4).
  assert (S4 : do_step F (Call (CLookup key (AVal o) (Some (UFun f2 [])))) w3
               = (Ret tt, w5)).
  { cbn [do_step do_call of_user]. rewrite lookup_starts. fold _opts times.
    assert (Hr3 : cache w3 !! "lookup" = Some region2) by apply lookup_insert_eq.
    assert (Hget : (LRU.get (now w3) (fingerprint w3 "lookup" key) region2).1 = data).
    { apply (get_after_set (now w) dt). subst region1.
      rewrite get_maxAge. exact Hage. }
    rewrite (_request_hit _ _ _ _ _ _ _ Hr3) by (rewrite Hget; exact Hd).
    rewrite Hget. subst F. apply lookup_completes. reflexivity. }
  eexists. unfold run. cbn [for_each]. unfold bind.
  rewrite S1, S2, S3, S4. cbn [fst snd]. split; reflexivity.
Qed.

(** C6: in every reachable state, a request whose type has a cache region
    that holds a live entry at the fingerprint of the request completes at
    once: the callback receives the cached value, and the state it runs in
    differs from the state before only in the cache region (the entry
    becomes the most recently used); no request was registered and no
    exchange started.  Consequently, when a lookup that goes to the network
    is answered without an error and with truthy data, a second lookup for
    the same key within the age bound of the region completes from the
    cache, and the two lookups start exactly one network exchange. *)
Theorem cache_hit_skips_network :
  forall w,
    reachable w ->
    (forall call_fn type payload _opts cb region e,
        cache w !! type = Some region ->
        LRU.find (fingerprint w type payload) (LRU.items region) = Some e ->
        LRU.expired region (now w) e = false ->
        exists region',
          _request call_fn type payload _opts cb w
            = call_fn cb [VNull; LRU.value e]
                (set_cache (<[type := region']> (cache w)) w))
    /\ (forall n key o f1 f2 dt err res data region,
          cache w !! "lookup" = Some region ->
          truthy (LRU.get (now w) (fingerprint w "lookup" key) region).1 = false ->
          truthy err = false ->
          truthy res && negb (test_2xx (prop res "statusCode")) = false ->
          truthy data = true ->
          LRU.maxAge region = 0 \/ dt <= LRU.maxAge region ->
          let p := [Call (CLookup key (AVal o) (Some (UFun f1 [])));
                    Respond (S (fresh w)) err res data;
                    Tick dt;
                    Call (CLookup key (AVal o) (Some (UFun f2 [])))] in
          let r := run (S (S (S (S (S n))))) p w in
          r.1 = Ret tt
          /\ posts (trace r.2) = S (posts (trace w))
          /\ exists tr, trace r.2 = EvCall f2 (lookup_result data) :: tr).
Proof.
  intros w Hw. split.
  - intros call_fn type payload _opts cb region e Hr Hf He.
    pose proof (live_entry_truthy _ _ _ _ _ (reachable_consistent _ Hw) Hr Hf) as Ht.
    eexists.
    rewrite (_request_hit _ _ _ _ _ _ _ Hr);
      rewrite (get_live _ _ _ _ Hf He); [reflexivity | exact Ht].
  - intros n key o f1 f2 dt err res data region Hr Hmiss He Hres Hd Hage p r.
    destruct (two_lookups_one_exchange w n key o f1 f2 dt err res data region
                Hr Hmiss He Hres Hd Hage) as (options & Hret & Htr).
    subst r p. split; [exact Hret|]. rewrite Htr. split.
    + rewrite !posts_cons. reflexivity.
    + eexists. reflexivity.
Qed.

(** * Further properties of the client *)

(** ** The request registry *)

(** X1: the registry round trip of [addRequest], [getRequest] and
    [delRequest]: a request that was added is found under its identifier
    and no other identifier is affected; once deleted it is not found; and
    deleting a request that was added under an unused identifier gives the
    registry back as it was. *)
Theorem registry_round_trip :
  forall req rid w,
    getRequest (req_rid req) (addRequest req w).2
      = (Ret (Some req), (addRequest req w).2)
    /\ (rid <> req_rid req ->
        (getRequest rid (addRequest req w).2).1 = (getRequest rid w).1
        /\ (getRequest rid (delRequest req w).2).1 = (getRequest rid w).1)
    /\ (getRequest (req_rid req) (delRequest req w).2).1 = Ret None
    /\ (_reqs w !! req_rid req = None ->
        _reqs (delRequest req (addRequest req w).2).2 = _reqs w).
Proof.
  intros req rid w. unfold getRequest, addRequest, delRequest, gets, modify.
  cbn [fst snd _reqs set_reqs]. split; [|split; [|split]].
  - rewrite lookup_insert_eq. reflexivity.
  - intros Hne. rewrite lookup_insert_ne, lookup_delete_ne by congruence. auto.
  - rewrite lookup_delete_eq. reflexivity.
  - intros Hnone. rewrite delete_insert_eq. apply delete_id. exact Hnone.
Qed.

(** ** Status codes *)

Lemma pretty_N_go_length x s :
  (String.length s <= String.length (pretty_N_go x s))%nat.
Proof.
  revert s. induction (N.lt_wf_0 x) as [x _ IH]; intros s.
  destruct (decide (x = 0%N)) as [->|Hx]; [rewrite pretty_N_go_0; lia|].
  rewrite pretty_N_go_step by lia.
  etrans; [|apply IH; apply N.div_lt; lia]. cbn. lia.
Qed.

Lemma pretty_N_char_digit d :
  line_terminator (pretty_N_char d) = false.
Proof. unfold pretty_N_char. repeat case_match; reflexivity. Qed.

Lemma pretty_N_char_2 d : (d < 10)%N -> pretty_N_char d = "2"%char -> d = 2%N.
Proof. intros Hd. apply (pretty_N_char_inj d 2 Hd). lia. Qed.

(** The decimal numeral of a positive number below 1000 has at most
    three digits, and three when the number is at least 100. *)
Lemma pretty_three_digits x :
  (100 <= x < 1000)%N ->
  pretty x = String (pretty_N_char (x / 100))
               (String (pretty_N_char ((x / 10) mod 10))
                  (String (pretty_N_char (x mod 10)) "")).
Proof.
  intros Hx. unfold pretty, pretty_N. rewrite decide_False by lia.
  assert (H10 : (0 < x / 10)%N) by (apply N.div_str_pos; lia).
  assert (H100 : (0 < x / 10 / 10)%N)
    by (rewrite N.Div0.div_div; apply N.div_str_pos; lia).
  rewrite (pretty_N_go_step x) by lia.
  rewrite (pretty_N_go_step (x / 10)) by exact H10.
  rewrite (pretty_N_go_step (x / 10 / 10)) by exact H100.
  replace (x / 10 / 10 / 10)%N with 0%N
    by (symmetry; rewrite !N.Div0.div_div; apply N.div_small; lia).
  rewrite pretty_N_go_0.
  rewrite (N.Div0.div_div x 10 10). change (10 * 10)%N with 100%N.
  rewrite (N.mod_small (x / 100) 10)
    by (apply N.Div0.div_lt_upper_bound; lia).
  reflexivity.
Qed.

Lemma test_2xx_N x :
  match pretty x with
  | String "2" (String c1 (String c2 EmptyString)) =>
      negb (line_terminator c1) && negb (line_terminator c2)
  | _ => false
  end = bool_decide (200 <= x <= 299)%N.
Proof.
  destruct (decide (x < 100)%N) as [Hlt|Hge].
  - rewrite bool_decide_eq_false_2 by lia.
    unfold pretty, pretty_N. case_decide; [reflexivity|].
    rewrite (pretty_N_go_step x) by lia.
    destruct (decide (x < 10)%N).
    + rewrite N.div_small by lia. rewrite pretty_N_go_0.
      destruct (pretty_N_char (x mod 10)) as [[] [] [] [] [] [] [] []]; reflexivity.
    + rewrite (pretty_N_go_step (x / 10)) by (apply N.div_str_pos; lia).
      replace (x / 10 / 10)%N with 0%N
        by (symmetry; rewrite N.Div0.div_div; apply N.div_small; lia).
      rewrite pretty_N_go_0.
      destruct (pretty_N_char (x / 10 mod 10)) as [[] [] [] [] [] [] [] []];
        reflexivity.
  - destruct (decide (x < 1000)%N) as [Hlt|Hge'].
    + rewrite pretty_three_digits by lia.
      rewrite !pretty_N_char_digit. cbn [negb andb].
      assert (Hd : (x / 100 < 10)%N) by (apply N.Div0.div_lt_upper_bound; lia).
      case_bool_decide as Hr.
      * replace (x / 100)%N with 2%N; [reflexivity|].
        apply N.div_unique with (r := (x - 200)%N); lia.
      * destruct (Ascii.eqb_spec (pretty_N_char (x / 100)) "2") as [E|E].
        -- apply pretty_N_char_2 in E; [|exact Hd].
           exfalso. apply Hr.
           pose proof (N.Div0.mul_div_le x 100).
           pose proof (N.mod_upper_bound x 100 ltac:(lia)).
           pose proof (N.div_mod x 100 ltac:(lia)). lia.
        -- destruct (pretty_N_char (x / 100)) as [[] [] [] [] [] [] [] []];
             try reflexivity; exfalso; apply E; reflexivity.
    + rewrite bool_decide_eq_false_2 by lia.
      unfold pretty, pretty_N. rewrite decide_False by lia.
      assert (H1 : (0 < x / 10)%N) by (apply N.div_str_pos; lia).
      assert (H2 : (0 < x / 10 / 10)%N)
        by (rewrite N.Div0.div_div; apply N.div_str_pos; lia).
      assert (H3 : (0 < x / 10 / 10 / 10)%N)
        by (rewrite !N.Div0.div_div; apply N.div_str_pos; lia).
      rewrite (pretty_N_go_step x) by lia.
      rewrite (pretty_N_go_step (x / 10)) by exact H1.
      rewrite (pretty_N_go_step (x / 10 / 10)) by exact H2.
      rewrite (pretty_N_go_step (x / 10 / 10 / 10)) by exact H3.
      match goal with |- context [pretty_N_go ?y ?s] =>
        pose proof (pretty_N_go_length y s) as Hlen;
        destruct (pretty_N_go y s) as [|a1 [|a2 [|a3 [|a4 r]]]]
      end; cbn in Hlen; try lia.
      destruct a1 as [[] [] [] [] [] [] [] []]; reflexivity.
Qed.

Lemma test_2xx_num n : test_2xx (VNum n) = bool_decide (200 <= n <= 299).
Proof.
  unfold test_2xx. cbn [js_to_string]. destruct n as [|p|p].
  - reflexivity.
  - change (pretty (Z.pos p)) with (pretty (N.pos p)).
    rewrite test_2xx_N. apply bool_decide_ext. lia.
  - rewrite bool_decide_eq_false_2 by lia. reflexivity.
Qed.

(** X2: how the handler of [post] reads the status of a response when the
    transport reports no timeout: a response whose integer status lies in
    200..299 is handed to the callback as it came, together with the
    transport's error if any; with any other integer status the callback
    receives one argument, an error that carries the response body as its
    message and the status as its code. *)
Theorem post_status_2xx :
  forall call_fn cb err fields resData n w,
    truthy err && is_string "ETIMEDOUT" (prop err "code") = false ->
    field "statusCode" fields = VNum n ->
    post_handler call_fn cb err (VObj fields) resData w
      = if bool_decide (200 <= n <= 299)
        then call_fn cb [err; VObj fields; resData] w
        else call_fn cb [VErr resData (VNum n)] w.
Proof.
  intros call_fn cb err fields resData n w He Hs. unfold post_handler.
  rewrite He. cbn [truthy prop andb]. rewrite Hs, test_2xx_num.
  case_bool_decide; reflexivity.
Qed.

(** ** Missing arguments *)

(** X3: [put] and [putMutable] report a missing argument by throwing
    [ERR_MISSING_ARGS], and [putMutable] throws a TypeError when [data]
    has a [seq] and [opts] has no [keys] object to take the keys from; in
    each case the callback is not invoked and the state is left as it
    was. *)
Theorem put_throws_on_missing_arguments :
  forall call_fn data opts cb w,
    (truthy opts = false \/ isFunction cb = false ->
     put call_fn opts cb w = (Throw missing_args, w))
    /\ (truthy data = false \/ truthy opts = false \/ isFunction cb = false ->
        putMutable call_fn data opts cb w = (Throw missing_args, w))
    /\ (truthy data = true -> truthy opts = true -> isFunction cb = true ->
        truthy (peek w data "seq") = true ->
        nullish (peek w opts "keys") = true ->
        putMutable call_fn data opts cb w
          = (Throw (TypeError "Cannot destructure property"), w)).
Proof.
  intros call_fn data opts cb w. split; [|split].
  - intros [H|H]; unfold put; rewrite H; cbn [negb orb];
      rewrite ?orb_true_r; reflexivity.
  - intros [H|[H|H]]; unfold putMutable; rewrite H; cbn [negb orb];
      rewrite ?orb_true_r; reflexivity.
  - intros Hd Ho Hc Hseq Hkeys. unfold putMutable.
    rewrite Hd, Ho, Hc. cbn [negb orb].
    unfold read. rewrite bind_gets, Hseq. cbn [negb].
    rewrite bind_gets, Hkeys. reflexivity.
Qed.

(** ** Requests of the types that have no cache *)



Lemma cache_get_none type payload w :
  cache w !! type = None -> cache_get type payload w = (Ret VUndefined, w).
Proof. intros H. unfold cache_get. rewrite bind_gets, H. reflexivity. Qed.

Lemma _request_uncached call_fn type payload _opts cb w :
  cache_ok w -> type <> "lookup" ->
  _request call_fn type payload _opts cb w
    = (Ret tt, posted_state (conf w) type payload _opts cb w).
Proof.
  intros [Htypes _] Hty. unfold _request. rewrite bind_gets.
  assert (Hnone : cache w !! type = None).
  { destruct (cache w !! type) eqn:E; [|reflexivity].
    exfalso. apply Hty, Htypes. eauto. }
  unfold bind at 1. rewrite (cache_get_none _ _ _ Hnone). cbn [truthy].
  apply _request_tail.
Qed.


(** ** One attempt for [get] and [put] *)

Lemma apply_post n cb args w :
  apply_fn (S n) (CbPost cb) args w
    = post_handler (apply_fn n) cb (nth_arg 0 args) (nth_arg 1 args)
        (nth_arg 2 args) w.
Proof. reflexivity. Qed.

Lemma apply_reply n rid args w :
  apply_fn (S n) (CbReply rid) args w
    = handleReply (apply_fn n) rid (nth_arg 0 args) (nth_arg 2 args) w.
Proof. reflexivity. Qed.

Lemma apply_user n f args w :
  apply_fn (S n) (CbUser (UFun f [])) args w
    = (Ret tt, set_trace (EvCall f args :: trace w) w).
Proof. reflexivity. Qed.

Lemma post_handler_through call_fn cb err res resData w :
  truthy err && is_string "ETIMEDOUT" (prop err "code") = false ->
  truthy res && negb (test_2xx (prop res "statusCode")) = false ->
  post_handler call_fn cb err res resData w = call_fn cb [err; res; resData] w.
Proof. intros He Hr. unfold post_handler. rewrite He, Hr. reflexivity. Qed.

Lemma request_single call_fn type payload cb w :
  request call_fn type payload (VObj []) cb w
    = _request call_fn type payload (VObj [])
        (CbRetry 1 1 type payload (VObj []) cb) w.
Proof. reflexivity. Qed.

(** The response to the only attempt of a request made without a [retry]
    option, for a type that has no cache. *)
Lemma single_attempt_response n type payload f err res resData w :
  consistent w -> type <> "lookup" ->
  truthy err && is_string "ETIMEDOUT" (prop err "code") = false ->
  truthy res && negb (test_2xx (prop res "statusCode")) = false ->
  let cb := CbRetry 1 1 type payload (VObj []) (CbUser (UFun f [])) in
  do_step (S (S (S (S n)))) (Respond (S (fresh w)) err res resData)
    (posted_state (conf w) type payload (VObj []) cb w)
  = (Ret tt,
     set_trace
       (EvCall f [err; resData] :: EvDispatch (fresh w) err resData
        :: trace (posted_state (conf w) type payload (VObj []) cb w))
       (set_fresh (S (S (fresh w))) w)).
Proof.
  intros ([_ Hra _ _ _] & [Htypes _] & [_ _ _ Hxa] & _) Hty He Hres cb.
  assert (Hr0 : _reqs w !! fresh w = None) by apply fresh_None, Hra.
  assert (Hx0 : exchanges w !! S (fresh w) = None).
  { destruct (exchanges w !! S (fresh w)) eqn:Hx; [|reflexivity].
    specialize (Hxa _ (mk_is_Some _ _ Hx)). lia. }
  assert (Hnone : cache w !! type = None).
  { destruct (cache w !! type) eqn:E; [|reflexivity].
    exfalso. apply Hty, Htypes. eauto. }
  unfold do_step. rewrite bind_gets.
  unfold posted_state at 1. cbn [exchanges]. rewrite lookup_insert_eq.
  rewrite bind_modify, apply_post. cbn [nth_arg nth].
  rewrite post_handler_through by assumption.
  rewrite apply_reply. cbn [nth_arg nth].
  erewrite handleReply_found
    by (unfold posted_state; cbn [_reqs set_exchanges]; apply lookup_insert_eq).
  cbn [req_cb isFunction]. subst cb. cbn [isFunction].
  rewrite apply_retry. unfold retry_again. cbn [nth_arg nth].
  replace (Z.of_nat 1 <? 1) with false by reflexivity.
  rewrite andb_false_r. cbn [isFunction]. rewrite apply_user.
  f_equal.
  unfold reply_state, cached. cbn [req_type req_rid req_qhash].
  replace (cache (set_exchanges _ _) !! type) with (@None LRU.t) by (symmetry; exact Hnone).
  assert (E : forall (b : bool) (x : World), (if b then x else x) = x)
    by (intros []; reflexivity).
  rewrite E. unfold posted_state.
  cbn [set_exchanges set_reqs set_trace set_fresh _reqs trace exchanges conf
       _inited cache _announces announcers objects timers fresh now random].
  rewrite !delete_insert_eq, !delete_id by assumption.
  reflexivity.
Qed.

Lemma run_two fuel s1 s2 w w1 :
  do_step fuel s1 w = (Ret tt, w1) ->
  run fuel [s1; s2] w = do_step fuel s2 w1.
Proof.
  intros H1. unfold run. cbn [for_each]. unfold bind at 1. rewrite H1.
  apply bind_unit_ret.
Qed.

(** X5: [get] and [put] make a single attempt.  From any state the client
    can be in, the call posts once to [grape/get] (or [grape/put]) with
    the configured request timeout; when the response arrives, without a
    timeout and with a 2xx status or none, the caller's callback receives
    the transport's error and the response body as they came, also when
    the error is set: nothing is retried, nothing is cached, and the
    registry and the pending exchanges are as they were before the
    call. *)
Theorem get_and_put_make_one_attempt :
  forall w n f payload err res resData,
    reachable w ->
    truthy err && is_string "ETIMEDOUT" (prop err "code") = false ->
    truthy res && negb (test_2xx (prop res "statusCode")) = false ->
    let sent type :=
      EvPost (S (fresh w))
        (VObj [("url", VStr (grape (conf w) +:+ "/" +:+ type));
               ("json", VBool true);
               ("body", VObj [("rid", uuid (fresh w)); ("data", payload)]);
               ("timeout", VNum (requestTimeout (conf w)))]) in
    let done type :=
      (Ret tt,
       set_trace
         (EvCall f [err; resData] :: EvDispatch (fresh w) err resData
          :: sent type :: trace w)
         (set_fresh (S (S (fresh w))) w)) in
    run (S (S (S (S n))))
      [Call (CGet payload (Some (UFun f [])));
       Respond (S (fresh w)) err res resData] w = done "get"
    /\ (truthy payload = true ->
        run (S (S (S (S n))))
          [Call (CPut payload (Some (UFun f [])));
           Respond (S (fresh w)) err res resData] w = done "put").
Proof.
  intros w n f payload err res resData Hw He Hres sent done.
  apply reachable_consistent in Hw.
  pose proof Hw as (_ & Hcache & _).
  split; [|intros Hp].
  - erewrite run_two.
    + rewrite (single_attempt_response n "get") by (assumption || discriminate).
      reflexivity.
    + unfold do_step, do_call, get, of_user.
      rewrite request_single. apply _request_uncached; [exact Hcache|discriminate].
  - erewrite run_two.
    + rewrite (single_attempt_response n "put") by (assumption || discriminate).
      reflexivity.
    + unfold do_step, do_call, put, of_user. rewrite Hp. cbn [negb orb isFunction].
      rewrite request_single. apply _request_uncached; [exact Hcache|discriminate].
Qed.

(** ** The announce schedule: one continuation at a time *)

(** X6: in every state the client can be in, the schedule of an announce
    descriptor is in one place at most: no two timers are pending for it,
    no announce request of it is in flight while a timer is pending, and
    no two of its announce requests are in flight together. *)
Theorem announce_schedule_exclusive :
  forall w a,
    reachable w ->
    (forall h1 h2, pending_for a h1 w -> pending_for a h2 w -> h1 = h2)
    /\ (forall h rid, pending_for a h w -> ~ in_flight a rid w)
    /\ (forall r1 r2, in_flight a r1 w -> in_flight a r2 w -> r1 = r2).
Proof.
  intros w a Hw. apply reachable_consistent in Hw.
  destruct Hw as (_ & _ & _ & Hs).
  pose proof (one_token _ Hs a) as Hone. unfold tokens in Hone.
  split; [|split].
  - intros h1 h2 H1 H2.
    pose proof (timer_recorded _ Hs _ _ H1) as E1.
    pose proof (timer_recorded _ Hs _ _ H2) as E2. congruence.
  - intros h rid Hh (req & Hreq & Hown).
    rewrite (total_delete _ _ _ _ Hh) in Hone.
    rewrite (total_delete _ _ _ _ Hreq) in Hone.
    rewrite (holds_owner a (CbAnn a)) in Hone by reflexivity.
    rewrite (holds_owner a (req_cb req)) in Hone by exact Hown. lia.
  - intros r1 r2 (q1 & Hq1 & Ho1) (q2 & Hq2 & Ho2).
    destruct (decide (r1 = r2)) as [|Hne]; [assumption|exfalso].
    rewrite (total_delete _ _ _ _ Hq1) in Hone.
    rewrite (total_delete _ (delete r1 (_reqs w)) r2 q2) in Hone
      by (rewrite lookup_delete_ne by exact Hne; exact Hq2).
    rewrite (holds_owner a (req_cb q1)), (holds_owner a (req_cb q2)) in Hone
      by assumption.
    lia.
Qed.

(** ** The configuration *)

Lemma get_max t k c : LRU.max (LRU.get t k c).2 = LRU.max c.
Proof.
  unfold LRU.get. destruct (LRU.find k (LRU.items c)); [|reflexivity].
  destruct (LRU.expired c t e); reflexivity.
Qed.

Lemma set_bounds t k v c :
  LRU.max (LRU.set t k v c) = LRU.max c
  /\ LRU.maxAge (LRU.set t k v c) = LRU.maxAge c.
Proof. unfold LRU.set. destruct (LRU.find k (LRU.items c)); split; reflexivity. Qed.

Lemma configured_mutation c w w' :
  mutation w w' ->
  conf w = c /\ lookup_bounds c w -> conf w' = c /\ lookup_bounds c w'.
Proof.
  intros Hm [Hc (region & Hr & Hmax & Hage)]. unfold lookup_bounds.
  mut_cases Hm; cbn; (split; [exact Hc|]); eauto.
  - rewrite lookup_insert. case_decide; subst; [|eauto].
    eexists. split; [reflexivity|].
    destruct (set_bounds (now w) qhash data t) as [-> ->].
    match goal with H : cache w !! _ = Some _ |- _ =>
      rewrite Hr in H; injection H as <- end. auto.
  - rewrite lookup_insert. case_decide; subst; [|eauto].
    eexists. split; [reflexivity|].
    rewrite get_max, get_maxAge.
    match goal with H : cache w !! _ = Some _ |- _ =>
      rewrite Hr in H; injection H as <- end. auto.
  - rewrite lookup_fmap, Hr. cbn. eauto.
Qed.

Lemma configured_mutations c w w' :
  rtc mutation w w' ->
  conf w = c /\ lookup_bounds c w -> conf w' = c /\ lookup_bounds c w'.
Proof.
  induction 1 as [|w w1 w' Hm _ IH]; [auto|].
  intros H. apply IH. eapply configured_mutation; eauto.
Qed.

(** X7: the configuration is fixed at construction.  Whatever run follows
    [new Link(conf)], with callers re-entering from callbacks, the
    client's configuration is the defaults overridden by the keys that
    were supplied, [lookup] is the only type with a cache, and that cache
    keeps the entry and age bounds taken from the configuration when it
    was created. *)
Theorem configuration_is_fixed :
  forall a t0 objs draws fuel p,
    let c := extend_conf default_conf a in
    let w := (run fuel p (new_Link a t0 objs draws)).2 in
    conf w = c
    /\ lookup_bounds c w
    /\ (forall type, is_Some (cache w !! type) <-> type = "lookup").
Proof.
  intros a t0 objs draws fuel p c w.
  assert (Hw : reachable w) by apply run_reachable, new_Link_reachable.
  pose proof (reachable_consistent _ Hw) as (_ & [Htypes _] & _).
  assert (H0 : consistent (new_Link a t0 objs draws)) by apply consistent_new_Link.
  destruct (follows_run fuel p (new_Link a t0 objs draws) H0) as [Hrtc _].
  { intros a'. unfold no_token.
    destruct H0 as (_ & _ & _ & Hs). pose proof (one_token _ Hs a'). lia. }
  { intros a' Ha'. unfold no_token in Ha'. congruence. }
  destruct (configured_mutations c _ _ Hrtc) as [Hc Hb].
  { split; [reflexivity|]. eexists. split; [reflexivity|]. split; reflexivity. }
  auto.
Qed.

(** ** The delay of the next announce *)

Lemma jitter_bounds n r :
  0 <= n -> 0 <= r < 2 ^ 53 ->
  exists ms, jitter (VNum n) r = Some ms /\ n <= 2 * ms <= 3 * n + 1.
Proof.
  intros Hn Hr. unfold jitter. eexists. split; [reflexivity|].
  change (2 ^ 52) with 4503599627370496 in *.
  change (2 ^ 53) with 9007199254740992 in *.
  set (X := n * 4503599627370496 + r * n).
  pose proof (Z.div_mod (- X) 9007199254740992 ltac:(lia)) as Hdiv.
  pose proof (Z.mod_pos_bound (- X) 9007199254740992 ltac:(lia)) as Hmod.
  set (q := - X / 9007199254740992) in *.
  set (m := (- X) mod 9007199254740992) in *.
  assert (Hrn : 0 <= r * n <= 9007199254740991 * n) by nia.
  subst X. lia.
Qed.

#[local] Arguments jitter : simpl never.

(** X8: when an announce of a descriptor that is not stopped completes
    (its callback already consumed or never given), [reann] sets exactly
    one timer for the next [ann], records it in the descriptor, and the
    delay lies between half the interval and one and a half intervals:
    with interval [n] and a draw [r / 2^53] of [Math.random], the delay
    [ms] satisfies [n <= 2 * ms <= 3 * n + 1]. *)
Theorem reannounce_delay_bounds :
  forall call_fn a err w i n r rest,
    announcers w !! a = Some i ->
    ann_cb i = None -> info_stopped i = false ->
    ann_interval i = VNum n -> 0 <= n ->
    random w = r :: rest -> 0 <= r < 2 ^ 53 ->
    exists ms,
      n <= 2 * ms <= 3 * n + 1
      /\ (reann call_fn a err w).1 = Ret tt
      /\ let w' := (reann call_fn a err w).2 in
         trace w' = EvSetTimeout (fresh w) (CbAnn a) (Some ms) :: trace w
         /\ timers w' = <[fresh w := CbAnn a]> (timers w)
         /\ announcers w' !! a ≫= info_timeout = Some (fresh w)
         /\ _reqs w' = _reqs w /\ exchanges w' = exchanges w.
Proof.
  intros call_fn a err w i n r rest Hi Hcb Hs Hn Hn0 Hrand Hr.
  destruct (jitter_bounds n r Hn0 Hr) as (ms & Hms & Hb).
  exists ms. split; [exact Hb|].
  eassert (E : reann call_fn a err w = (Ret tt, _)).
  { unfold reann, announcer. rewrite bind_gets, Hi, Hcb, bind_ret.
    unfold set_announcer at 1. rewrite bind_modify.
    rewrite bind_gets. cbn [announcers set_announcers].
    rewrite lookup_alter, decide_True by reflexivity. rewrite Hi.
    cbn [fmap option_fmap option_map default from_option id with_cb info_stopped].
    rewrite Hs, Hn.
    unfold Math_random, setTimeout, set_announcer, bind, fresh_id, modify, emit, ret.
    cbn [random set_announcers]. rewrite Hrand. cbn. rewrite Hms. reflexivity. }
  rewrite E. cbn.
  rewrite lookup_alter, decide_True by reflexivity.
  rewrite lookup_alter, decide_True by reflexivity. rewrite Hi. cbn.
  repeat split; reflexivity.
Qed.

(** ** The callback of [startAnnouncing] *)







(** ** [stop] *)

Lemma stop_info_returns a w : (stop_info a w).1 = Ret tt.
Proof.
  unfold stop_info, set_announcer, announcer, clearTimeout. mut_unfold.
  reflexivity.
Qed.

Lemma stop_info_keeps a w :
  let w' := (stop_info a w).2 in
  _reqs w' = _reqs w /\ exchanges w' = exchanges w /\ cache w' = cache w
  /\ _announces w' = _announces w
  /\ (forall a', is_Some (announcers w !! a') -> is_Some (announcers w' !! a'))
  /\ (forall a', stopped a' w -> stopped a' w')
  /\ (is_Some (announcers w !! a) -> stopped a w').
Proof.
  unfold stop_info, set_announcer, announcer, clearTimeout, stopped.
  mut_unfold. cbn.
  destruct (_ ≫= info_timeout); cbn; (do 4 (split; [reflexivity|]));
    (split; [|split]).
  all: try (intros a' Ha'; apply is_Some_alter; exact Ha').
  all: try (intros a' Hst; apply stopped_alter; [intros []; cbn; auto | exact Hst]).
  all: intros [i Hi]; exists (with_stopped true i);
    rewrite lookup_alter, decide_True, Hi by reflexivity; auto.
Qed.

Lemma stop_all l w :
  (forall a, a ∈ l -> is_Some (announcers w !! a)) ->
  (for_each stop_info l w).1 = Ret tt
  /\ let w' := (for_each stop_info l w).2 in
     _reqs w' = _reqs w /\ exchanges w' = exchanges w /\ cache w' = cache w
     /\ _announces w' = _announces w
     /\ (forall a, is_Some (announcers w !! a) -> is_Some (announcers w' !! a))
     /\ (forall a, stopped a w -> stopped a w')
     /\ (forall a, a ∈ l -> stopped a w').
Proof.
  revert w. induction l as [|a l IH]; intros w Hl; cbn [for_each].
  - split; [reflexivity|]. cbn. repeat split; auto. intros a Ha. inversion Ha.
  - unfold bind. pose proof (stop_info_returns a w) as Hret.
    pose proof (stop_info_keeps a w) as (Hr & Hx & Hc & Hreg & Hal & Hst & Hnew).
    destruct (stop_info a w) as [o w1]. cbn [fst snd] in *. subst o.
    destruct (IH w1) as (Hret' & Hr' & Hx' & Hc' & Hreg' & Hal' & Hst' & Hnew').
    { intros a' Ha'. apply Hal, Hl. right. exact Ha'. }
    split; [exact Hret'|]. cbn zeta.
    split; [congruence|]. split; [congruence|]. split; [congruence|].
    split; [congruence|]. split; [auto|]. split; [auto|].
    intros a' Ha'. apply elem_of_cons in Ha' as [->|Ha'].
    + apply Hst', Hnew, Hl. left.
    + apply Hnew'. exact Ha'.
Qed.

(** X10: [stop] ends every announce schedule and empties the cache, and
    leaves the pending requests alone.  Called in any state the client can
    be in, it returns with no pair registered and every cache region
    empty; the pending requests and exchanges are as before; and every
    descriptor that was registered is stopped with no timer pending, and
    stays so, with no timer set for it, in whatever run follows. *)
Theorem stop_ends_every_schedule :
  forall w,
    reachable w ->
    let w1 := (stop w).2 in
    (stop w).1 = Ret tt
    /\ _announces w1 = ∅
    /\ (forall type region,
          cache w1 !! type = Some region -> LRU.items region = [])
    /\ _reqs w1 = _reqs w /\ exchanges w1 = exchanges w
    /\ (forall id a,
          _announces w !! id = Some a ->
          stopped a w1
          /\ (forall h, ~ pending_for a h w1)
          /\ (forall fuel p,
                let w2 := (run fuel p w1).2 in
                stopped a w2
                /\ scheduled a (trace w2) = scheduled a (trace w1)
                /\ (forall h, ~ pending_for a h w2))).
Proof.
  intros w Hw w1.
  assert (Hw1 : reachable w1)
    by (apply follows_reachable; [apply follows_stop | exact Hw]).
  pose proof (reachable_consistent _ Hw) as (_ & _ & Hheap & _).
  pose proof (reachable_consistent _ Hw1) as Hc1.
  set (w0 := set_cache (LRU.clear <$> cache w) w).
  destruct (stop_all (map_to_list (_announces w)).*2 w0)
    as (Hret & Hr & Hx & Hc & Hreg & _ & _ & Hst).
  { intros a Ha. apply list_elem_of_fmap in Ha as ([id a'] & -> & Ha).
    apply elem_of_map_to_list in Ha.
    exact (announces_allocated _ Hheap _ _ Ha). }
  assert (E : stop w
            = (Ret tt, set_announces ∅
                 (for_each stop_info (map_to_list (_announces w)).*2 w0).2)).
  { unfold stop. rewrite bind_modify, bind_gets. fold w0. unfold bind.
    destruct (for_each stop_info (map_to_list (_announces w0)).*2 w0)
      as [o w'] eqn:Efe.
    change (_announces w0) with (_announces w) in Efe.
    rewrite Efe in Hret |- *. cbn [fst] in Hret. subst o. reflexivity. }
  subst w1. rewrite E in *. cbn [fst snd] in *.
  split; [reflexivity|]. split; [reflexivity|]. split; [|split; [|split]].
  - intros type region. cbn [cache set_announces]. rewrite Hc. subst w0.
    cbn [cache set_cache]. rewrite lookup_fmap.
    destruct (cache w !! type); cbn; intros [= <-]; reflexivity.
  - cbn [_reqs set_announces]. rewrite Hr. reflexivity.
  - cbn [exchanges set_announces]. rewrite Hx. reflexivity.
  - intros id a Hid.
    assert (Hsa : stopped a
              (set_announces ∅
                 (for_each stop_info (map_to_list (_announces w)).*2 w0).2)).
    { apply (Hst a). apply list_elem_of_fmap. exists (id, a).
      split; [reflexivity|]. apply elem_of_map_to_list. exact Hid. }
    split; [exact Hsa|]. split; [apply stopped_no_timer; assumption|].
    intros fuel p. cbn zeta.
    destruct (stopped_mutations a _ (run fuel p
                (set_announces ∅
                   (for_each stop_info (map_to_list (_announces w)).*2 w0).2)).2
                Hc1 Hsa) as (Hst2 & Hsc2 & _).
    + apply follows_run; [exact Hc1| |].
      * intros a'. unfold no_token. destruct Hc1 as (_ & _ & _ & Hs1).
        pose proof (one_token _ Hs1 a'). lia.
      * intros a' Ha'. unfold no_token in Ha'. congruence.
    + split; [exact Hst2|]. split; [exact Hsc2|].
      apply stopped_no_timer; [|exact Hst2]. apply run_reachable. exact Hw1.
Qed.

(** ** Starting and stopping a pair *)

Lemma announce_posts call_fn key port o cb w :
  cache_ok w ->
  exists o3 times,
    announce call_fn key port (AVal o) cb w
      = (Ret tt,
         posted_state (conf w) "announce" (VArr [key; port]) o3
           (CbRetry 1 times "announce" (VArr [key; port]) o3
              (if isFunction cb then cb else CbNoop)) w).
Proof.
  intros Hc.
  exists (with_retry_3 (match o with VUndefined => VObj [] | _ => o end)).
  eexists. unfold announce.
  assert (E : (match AVal o with
               | AFun u => (VObj [], CbUser u)
               | AVal VUndefined => (VObj [], cb)
               | AVal v => (v, cb)
               end) = (match o with VUndefined => VObj [] | _ => o end, cb))
    by (destruct o; reflexivity).
  rewrite E. unfold request, with_retry_3. cbn [nullish].
  apply _request_uncached; [exact Hc|discriminate].
Qed.

Lemma apply_ann n a args w i :
  announcers w !! a = Some i ->
  apply_fn (S n) (CbAnn a) args w
    = announce (apply_fn n) (ann_key i) (ann_port i) (AVal (ann_opts i)) (CbReann a) w.
Proof. intros Hi. cbn [apply_fn]. unfold ann, announcer. rewrite bind_gets, Hi. reflexivity. Qed.

(** [startAnnouncing] for a pair that is not registered: the descriptor
    is allocated, [ann] runs, and the pair is registered. *)
Lemma startAnnouncing_fresh call_fn key port opts cb w :
  _announces w !! announce_id key port = None ->
  startAnnouncing call_fn key port opts cb w
  = let oc := match opts with
              | AFun u => (VObj [], Some u)
              | AVal VUndefined => (VObj [], cb)
              | AVal v0 => (v0, cb)
              end in
    let w1 :=
      set_announcers (<[fresh w :=
        {| info_timeout := None; info_stopped := false; ann_key := key;
           ann_port := port; ann_opts := oc.1;
           ann_interval := js_or (js_and oc.1 (prop oc.1 "interval"))
                             (VNum (2 * 60 * 1000));
           ann_cb := oc.2 |}]> (announcers w)) (set_fresh (S (fresh w)) w) in
    (call_fn (CbAnn (fresh w)) [];;
     modify (fun w' => set_announces
               (<[announce_id key port := fresh w]> (_announces w')) w');;
     ret VUndefined) w1.
Proof.
  intros Hid. unfold startAnnouncing.
  destruct (match opts with
            | AFun u => (VObj [], Some u)
            | AVal VUndefined => (VObj [], cb)
            | AVal v0 => (v0, cb)
            end) as [opts' cb'].
  rewrite bind_gets, Hid.
  rewrite bool_decide_eq_false_2 by (intros [? ?]; discriminate).
  reflexivity.
Qed.

(** X11: [startAnnouncing] announces at once and [stopAnnouncing] undoes
    the registration.  For a pair that is not registered, in any state the
    client can be in, [startAnnouncing] returns [undefined] with a new
    descriptor registered for the pair, not stopped and without a timer,
    and with its first announce request posted carrying [[key, port]];
    no timer is set yet.  A following [stopAnnouncing] returns [undefined],
    leaves the registry of pairs as it was before the start and the
    descriptor stopped, and does not cancel the request in flight; a
    second [stopAnnouncing] returns [false] and changes nothing. *)
Theorem start_then_stop_announcing :
  forall w n key port opts cb,
    reachable w ->
    _announces w !! announce_id key port = None ->
    let a := fresh w in
    let r := startAnnouncing (apply_fn (S n)) key port opts cb w in
    let s := stopAnnouncing key port r.2 in
    r.1 = Ret VUndefined
    /\ _announces r.2 = <[announce_id key port := a]> (_announces w)
    /\ announcers w !! a = None
    /\ (exists i,
          announcers r.2 !! a = Some i
          /\ info_stopped i = false /\ info_timeout i = None
          /\ ann_key i = key /\ ann_port i = port)
    /\ (exists req,
          _reqs r.2 = <[S a := req]> (_reqs w)
          /\ req_type req = "announce" /\ req_payload req = VArr [key; port]
          /\ owner (req_cb req) = Some a)
    /\ posts (trace r.2) = S (posts (trace w))
    /\ timers r.2 = timers w
    /\ s.1 = Ret VUndefined
    /\ _announces s.2 = _announces w
    /\ stopped a s.2
    /\ _reqs s.2 = _reqs r.2 /\ exchanges s.2 = exchanges r.2
    /\ stopAnnouncing key port s.2 = (Ret (VBool false), s.2).
Proof.
  intros w n key port opts cb Hw Hid a r s.
  pose proof (reachable_consistent _ Hw) as (_ & Hcache & [Hann _ _ _] & _).
  assert (Hnew : announcers w !! a = None) by apply fresh_None, Hann.
  assert (Es : s = stopAnnouncing key port r.2) by reflexivity.
  assert (Er : r = startAnnouncing (apply_fn (S n)) key port opts cb w)
    by reflexivity.
  clearbody r s. rewrite (startAnnouncing_fresh _ _ _ _ _ _ Hid) in Er.
  destruct (match opts with
            | AFun u => (VObj [], Some u)
            | AVal VUndefined => (VObj [], cb)
            | AVal v0 => (v0, cb)
            end) as [opts' cb'].
  cbn zeta in Er. cbn [fst snd] in Er.
  unfold bind at 1 in Er.
  erewrite apply_ann in Er by apply lookup_insert_eq.
  cbn [ann_key ann_port ann_opts] in Er.
  match type of Er with context [announce ?f ?k ?p (AVal ?o) ?c ?w1] =>
    destruct (announce_posts f k p o c w1) as (o3 & times & Hp);
      [destruct Hcache as [H1 H2]; constructor; assumption|];
    rewrite Hp in Er; clear Hp
  end.
  rewrite bind_modify in Er. unfold ret in Er. subst r. cbn [fst snd] in *.
  unfold posted_state in *.
  erewrite stopAnnouncing_registered in Es
    by (cbn [_announces set_announces]; apply lookup_insert_eq).
  subst s.
  cbn [fst snd _announces set_announces announcers set_announcers set_fresh
       _reqs trace timers conf].
  subst a.
  match goal with |- context [stop_info ?a0 ?w0] =>
    pose proof (stop_info_keeps a0 w0) as (Hr & Hx & _ & Hreg & _ & _ & Hst)
  end.
  cbn zeta in Hr, Hx, Hreg, Hst. rewrite Hr, Hx, Hreg.
  cbn [_announces set_announces announcers set_announcers set_fresh
       _reqs exchanges trace timers conf] in *.
  rewrite lookup_insert_eq.
  split; [reflexivity|]. split; [reflexivity|]. split; [exact Hnew|].
  split; [eexists; repeat split; reflexivity|].
  split; [eexists; split; [reflexivity|]; repeat split; reflexivity|].
  split; [rewrite posts_cons; reflexivity|].
  split; [reflexivity|]. split; [reflexivity|].
  split; [rewrite delete_insert_eq; apply delete_id; exact Hid|].
  split; [apply Hst; rewrite lookup_insert_eq; eauto|].
  split; [reflexivity|]. split; [reflexivity|].
  unfold stopAnnouncing. rewrite bind_gets, Hreg.
  cbn [_announces set_announces]. rewrite lookup_delete_eq. reflexivity.
Qed.

(** ** Attempts of a request through the client *)

Lemma run_cons fuel s p w w1 :
  do_step fuel s w = (Ret tt, w1) -> run fuel (s :: p) w = run fuel p w1.
Proof. intros H1. unfold run. cbn [for_each]. unfold bind. rewrite H1. reflexivity. Qed.

Lemma run_nil fuel w : run fuel [] w = (Ret tt, w).
Proof. reflexivity. Qed.

(** The state in which the response to the attempt posted from [w] has
    been dispatched. *)
Lemma attempt_response n k times type payload o done err res resData w :
  (forall rid, is_Some (_reqs w !! rid) -> (rid < fresh w)%nat) ->
  (forall x, is_Some (exchanges w !! x) -> (x < fresh w)%nat) ->
  cache_ok w -> type <> "lookup" ->
  truthy err && is_string "ETIMEDOUT" (prop err "code") = false ->
  truthy res && negb (test_2xx (prop res "statusCode")) = false ->
  let cb := CbRetry k times type payload o done in
  let w2 :=
    set_trace (EvDispatch (fresh w) err resData
               :: trace (posted_state (conf w) type payload o cb w))
      (set_fresh (S (S (fresh w))) w) in
  do_step (S (S (S n))) (Respond (S (fresh w)) err res resData)
    (posted_state (conf w) type payload o cb w)
  = if retry_again k times err
    then (Ret tt,
          posted_state (conf w) type payload o
            (CbRetry (S k) times type payload o done) w2)
    else apply_fn n (if isFunction done then done else CbNoop) [err; resData] w2.
Proof.
  intros Hra Hxa [Htypes Htruthy] Hty He Hres cb w2.
  assert (Hr0 : _reqs w !! fresh w = None) by apply fresh_None, Hra.
  assert (Hx0 : exchanges w !! S (fresh w) = None).
  { destruct (exchanges w !! S (fresh w)) eqn:Hx; [|reflexivity].
    specialize (Hxa _ (mk_is_Some _ _ Hx)). lia. }
  assert (Hnone : cache w !! type = None).
  { destruct (cache w !! type) eqn:E; [|reflexivity].
    exfalso. apply Hty, Htypes. eauto. }
  unfold do_step. rewrite bind_gets.
  unfold posted_state at 1. cbn [exchanges]. rewrite lookup_insert_eq.
  rewrite bind_modify, apply_post. cbn [nth_arg nth].
  rewrite post_handler_through by assumption.
  rewrite apply_reply. cbn [nth_arg nth].
  erewrite handleReply_found
    by (unfold posted_state; cbn [_reqs set_exchanges]; apply lookup_insert_eq).
  cbn [req_cb isFunction]. subst cb. cbn [isFunction].
  rewrite apply_retry. cbn [nth_arg nth].
  match goal with |- context [reply_state ?q ?r ?e ?d ?w0] =>
    assert (Ew : reply_state q r e d w0 = w2)
  end.
  { unfold reply_state, cached. cbn [req_type req_rid req_qhash].
    replace (cache (set_exchanges _ _) !! type) with (@None LRU.t)
      by (symmetry; exact Hnone).
    assert (E : forall (b : bool) (x : World), (if b then x else x) = x)
      by (intros []; reflexivity).
    rewrite E. subst w2. unfold posted_state.
    cbn [set_exchanges set_reqs set_trace set_fresh _reqs trace exchanges conf
         _inited cache _announces announcers objects timers fresh now random].
    rewrite !delete_insert_eq, !delete_id by assumption.
    reflexivity. }
  rewrite Ew. destruct (retry_again k times err); [|reflexivity].
  apply (_request_uncached _ type payload o _ w2); [|exact Hty].
  constructor; assumption.
Qed.


Lemma attempt_room (w : World) tr k :
  let w2 := set_trace tr (set_fresh (k + fresh w) w) in
  ((forall rid, is_Some (_reqs w !! rid) -> (rid < fresh w)%nat) ->
   forall rid, is_Some (_reqs w2 !! rid) -> (rid < fresh w2)%nat)
  /\ ((forall x, is_Some (exchanges w !! x) -> (x < fresh w)%nat) ->
      forall x, is_Some (exchanges w2 !! x) -> (x < fresh w2)%nat)
  /\ (cache_ok w -> cache_ok w2).
Proof.
  cbn. split; [|split].
  - intros H rid Hr. specialize (H rid Hr). lia.
  - intros H x Hx. specialize (H x Hx). lia.
  - intros [H1 H2]. constructor; assumption.
Qed.

Lemma announce_starts fuel key port cb w :
  cache_ok w ->
  do_step fuel (Call (CAnnounce key port (AVal VUndefined) (Some cb))) w
    = (Ret tt,
       posted_state (conf w) "announce" (VArr [key; port])
         (VObj [("retry", VNum 3)])
         (CbRetry 1 3 "announce" (VArr [key; port]) (VObj [("retry", VNum 3)])
            (CbUser cb)) w).
Proof.
  intros Hc. unfold do_step, do_call, announce, of_user, request.
  cbn [isFunction nullish with_retry_3].
  apply (_request_uncached _ "announce"); [exact Hc|discriminate].
Qed.

(** X12: [announce] makes up to three attempts.  From any state the client
    can be in, an announce with default options posts once; each response
    that reports an error (no timeout, and a 2xx status or no response
    object) removes the request and posts a new attempt, until the third:
    if all three fail the caller's callback receives the third error after
    exactly three posts; if the second succeeds the callback receives its
    result after exactly two posts.  In both cases no request and no
    exchange is left pending and the callback has run once. *)
Theorem announce_makes_three_attempts :
  forall w n key port f e1 e2 e3 s1 s2 s3 d1 d2 d3,
    reachable w ->
    truthy e1 = true ->
    truthy e1 && is_string "ETIMEDOUT" (prop e1 "code") = false ->
    truthy e2 && is_string "ETIMEDOUT" (prop e2 "code") = false ->
    truthy e3 && is_string "ETIMEDOUT" (prop e3 "code") = false ->
    truthy s1 && negb (test_2xx (prop s1 "statusCode")) = false ->
    truthy s2 && negb (test_2xx (prop s2 "statusCode")) = false ->
    truthy s3 && negb (test_2xx (prop s3 "statusCode")) = false ->
    let x := S (fresh w) in
    let call := Call (CAnnounce key port (AVal VUndefined) (Some (UFun f []))) in
    (truthy e2 = true ->
     let r := run (S (S (S (S n))))
                [call; Respond x e1 s1 d1; Respond (2 + x) e2 s2 d2;
                 Respond (4 + x) e3 s3 d3] w in
     r.1 = Ret tt /\ posts (trace r.2) = (3 + posts (trace w))%nat
     /\ head (trace r.2) = Some (EvCall f [e3; d3])
     /\ _reqs r.2 = _reqs w /\ exchanges r.2 = exchanges w)
    /\ (truthy e2 = false ->
        let r := run (S (S (S (S n))))
                   [call; Respond x e1 s1 d1; Respond (2 + x) e2 s2 d2] w in
        r.1 = Ret tt /\ posts (trace r.2) = (2 + posts (trace w))%nat
        /\ head (trace r.2) = Some (EvCall f [e2; d2])
        /\ _reqs r.2 = _reqs w /\ exchanges r.2 = exchanges w).
Proof.
  intros w n key port f e1 e2 e3 s1 s2 s3 d1 d2 d3 Hw Ht1 He1 He2 He3
    Hs1 Hs2 Hs3 x call.
  pose proof (reachable_consistent _ Hw)
    as ([_ Hra _ _ _] & Hcache & [_ _ _ Hxa] & _).
  set (o := VObj [("retry", VNum 3)]).
  set (pl := VArr [key; port]).
  assert (Hne : "announce" <> "lookup") by discriminate.
  (* the first attempt *)
  pose proof (attempt_response (S n) 1 3 "announce" pl o (CbUser (UFun f []))
                e1 s1 d1 w Hra Hxa Hcache Hne He1 Hs1) as A1.
  cbn zeta in A1. unfold retry_again in A1. rewrite Ht1 in A1.
  change (Z.of_nat 1 <? 3) with true in A1. cbn [andb] in A1.
  set (w2 := set_trace _ (set_fresh (S (S (fresh w))) w)) in A1.
  destruct (attempt_room w (trace w2) 2) as (Hra2 & Hxa2 & Hc2).
  change (set_trace (trace w2) (set_fresh (2 + fresh w) w)) with w2 in *.
  specialize (Hra2 Hra). specialize (Hxa2 Hxa). specialize (Hc2 Hcache).
  (* the second attempt *)
  pose proof (attempt_response (S n) 2 3 "announce" pl o (CbUser (UFun f []))
                e2 s2 d2 w2 Hra2 Hxa2 Hc2 Hne He2 Hs2) as A2.
  cbn zeta in A2. unfold retry_again in A2.
  change (Z.of_nat 2 <? 3) with true in A2. rewrite andb_true_r in A2.
  set (w3 := set_trace _ (set_fresh (S (S (fresh w2))) w2)) in A2.
  split.
  - intros Ht2. rewrite Ht2 in A2.
    destruct (attempt_room w2 (trace w3) 2) as (Hra3 & Hxa3 & Hc3).
    change (set_trace (trace w3) (set_fresh (2 + fresh w2) w2)) with w3 in *.
    specialize (Hra3 Hra2). specialize (Hxa3 Hxa2). specialize (Hc3 Hc2).
    pose proof (attempt_response (S n) 3 3 "announce" pl o (CbUser (UFun f []))
                  e3 s3 d3 w3 Hra3 Hxa3 Hc3 Hne He3 Hs3) as A3.
    cbn zeta in A3. unfold retry_again in A3.
    change (Z.of_nat 3 <? 3) with false in A3. rewrite andb_false_r in A3.
    cbn [isFunction] in A3. rewrite apply_user in A3.
    cbn zeta.
    rewrite (run_cons _ _ _ _ _ (announce_starts _ key port (UFun f []) w Hcache)).
    rewrite (run_cons _ _ _ _ _ A1).
    rewrite (run_cons _ _ _ _ _ A2).
    rewrite (run_cons _ _ _ _ _ A3), run_nil.
    cbn [fst snd]. split; [reflexivity|].
    split; [subst w3 w2; unfold posted_state; cbn [trace set_trace set_fresh];
            rewrite !posts_cons; reflexivity|].
    repeat split; reflexivity.
  - intros Ht2. rewrite Ht2 in A2. cbn [isFunction] in A2.
    rewrite apply_user in A2. cbn zeta.
    rewrite (run_cons _ _ _ _ _ (announce_starts _ key port (UFun f []) w Hcache)).
    rewrite (run_cons _ _ _ _ _ A1).
    rewrite (run_cons _ _ _ _ _ A2), run_nil.
    cbn [fst snd]. split; [reflexivity|].
    split; [subst w3 w2; unfold posted_state; cbn [trace set_trace set_fresh];
            rewrite !posts_cons; reflexivity|].
    repeat split; reflexivity.
Qed.

(** ** The interval of a descriptor *)

(** The state [startAnnouncing] leaves for a pair that was not
    registered. *)
Lemma startAnnouncing_state n key port opts cb w :
  cache_ok w ->
  _announces w !! announce_id key port = None ->
  exists o3 times,
    startAnnouncing (apply_fn (S n)) key port opts cb w
    = (Ret VUndefined,
       set_announces (<[announce_id key port := fresh w]> (_announces w))
         (posted_state (conf w) "announce" (VArr [key; port]) o3
            (CbRetry 1 times "announce" (VArr [key; port]) o3 (CbReann (fresh w)))
            (set_announcers
               (<[fresh w := new_announcer key port opts cb]> (announcers w))
               (set_fresh (S (fresh w)) w)))).
Proof.
  intros Hcache Hid. rewrite (startAnnouncing_fresh _ _ _ _ _ _ Hid).
  unfold new_announcer, announcing_args.
  destruct (match opts with
            | AFun u => (VObj [], Some u)
            | AVal VUndefined => (VObj [], cb)
            | AVal v0 => (v0, cb)
            end) as [opts' cb'].
  cbn zeta. cbn [fst snd]. unfold bind at 1.
  erewrite apply_ann by apply lookup_insert_eq.
  cbn [ann_key ann_port ann_opts].
  match goal with |- context [announce ?f ?k ?p (AVal ?o) ?c ?w1] =>
    destruct (announce_posts f k p o c w1) as (o3 & times & Hp);
      [destruct Hcache as [H1 H2]; constructor; assumption|];
    rewrite Hp; clear Hp
  end.
  exists o3, times. reflexivity.
Qed.

(** X13: the interval of an announce descriptor.  [startAnnouncing] without
    options, or with the callback in their place, gives the descriptor
    an interval of two minutes, so every delay [reann] computes for it
    lies between 60 and 180 seconds; with an [interval] option that is a
    non-zero number, the descriptor has that interval. *)
Theorem announce_interval :
  forall w n key port opts cb,
    reachable w ->
    _announces w !! announce_id key port = None ->
    let r := startAnnouncing (apply_fn (S n)) key port opts cb w in
    exists i,
      announcers r.2 !! fresh w = Some i
      /\ ((opts = AVal VUndefined \/ (exists u, opts = AFun u)) ->
          ann_interval i = VNum 120000
          /\ forall d, 0 <= d < 2 ^ 53 ->
               exists ms, jitter (ann_interval i) d = Some ms
                          /\ 60000 <= ms <= 180000)
      /\ (forall fs m,
            opts = AVal (VObj fs) -> field "interval" fs = VNum m -> m <> 0 ->
            ann_interval i = VNum m).
Proof.
  intros w n key port opts cb Hw Hid r.
  pose proof (reachable_consistent _ Hw) as (_ & Hcache & _).
  destruct (startAnnouncing_state n key port opts cb w Hcache Hid)
    as (o3 & times & Er).
  subst r. rewrite Er. cbn [snd]. unfold posted_state.
  cbn [announcers set_announces set_announcers].
  exists (new_announcer key port opts cb).
  split; [apply lookup_insert_eq|]. split.
  - intros Hopts.
    assert (E : ann_interval (new_announcer key port opts cb) = VNum 120000)
      by (destruct Hopts as [->|[u ->]]; reflexivity).
    split; [exact E|]. intros d Hd. rewrite E.
    destruct (jitter_bounds 120000 d ltac:(lia) Hd) as (ms & Hms & Hb).
    exists ms. split; [exact Hms|lia].
  - intros fs m -> Hf Hm. unfold new_announcer, announcing_args.
    cbn [fst snd prop ann_interval js_and truthy]. rewrite Hf.
    unfold js_or. cbn [truthy].
    destruct (Z.eqb_spec m 0); [contradiction|reflexivity].
Qed.

(** ** The timers of the client *)

Lemma timers_announce_mutation w w' :
  mutation w w' -> timers_announce w -> timers_announce w'.
Proof.
  intros Hm Ht. unfold timers_announce in *.
  mut_cases Hm; cbn; auto; intros h0 fn0 Hfn; map_hyps; eauto.
Qed.

Lemma timers_announce_mutations w w' :
  rtc mutation w w' -> timers_announce w -> timers_announce w'.
Proof.
  induction 1 as [|w w1 w' Hm _ IH]; [auto|].
  intros H. apply IH. eapply timers_announce_mutation; eauto.
Qed.

(** X14: the client's timers are exactly its pending re-announces.  In
    every state the client can be in, each pending timer runs the [ann] of
    an announce descriptor that is allocated and not stopped and that
    records this timer as its own. *)
Theorem timers_are_live_schedules :
  forall w h fn,
    reachable w ->
    timers w !! h = Some fn ->
    exists a i,
      fn = CbAnn a
      /\ announcers w !! a = Some i
      /\ info_stopped i = false
      /\ info_timeout i = Some h.
Proof.
  intros w h fn Hw Hfn.
  pose proof (reachable_consistent _ Hw) as (_ & _ & _ & Hs).
  destruct Hw as (c & t0 & objs & draws & Hrtc).
  assert (Ht : timers_announce w).
  { eapply timers_announce_mutations; [exact Hrtc|].
    intros h0 fn0 H0. cbn in H0. rewrite lookup_empty in H0. discriminate. }
  destruct (Ht h fn Hfn) as [a ->]. exists a.
  pose proof (timer_recorded _ Hs h a Hfn) as Hrec.
  destruct (announcers w !! a) as [i|] eqn:Hi; [|discriminate].
  exists i. cbn in Hrec. split; [reflexivity|]. split; [reflexivity|].
  split; [|exact Hrec].
  destruct (info_stopped i) eqn:Hst; [|reflexivity].
  exfalso. exact (stopped_idle _ Hs h a i Hi Hst Hfn).
Qed.

(** X15: a timer that fires re-announces.  In every state the client can
    be in, when a pending timer fires it is removed and the [ann] it runs
    posts exactly one announce request for the key and port of its
    descriptor; the request continues the schedule of that descriptor,
    and no new timer is set before it completes. *)
Theorem timer_fires_announce :
  forall w n h,
    reachable w ->
    is_Some (timers w !! h) ->
    let r := do_step (S n) (Fire h) w in
    r.1 = Ret tt
    /\ timers r.2 = delete h (timers w)
    /\ posts (trace r.2) = S (posts (trace w))
    /\ exists a i req,
         announcers w !! a = Some i
         /\ info_timeout i = Some h
         /\ _reqs r.2 = <[fresh w := req]> (_reqs w)
         /\ req_type req = "announce"
         /\ req_payload req = VArr [ann_key i; ann_port i]
         /\ owner (req_cb req) = Some a.
Proof.
  intros w n h Hw [fn Hfn] r.
  pose proof (reachable_consistent _ Hw) as (_ & Hcache & _ & Hs).
  destruct Hw as (c & t0 & objs & draws & Hrtc).
  assert (Ht : timers_announce w).
  { eapply timers_announce_mutations; [exact Hrtc|].
    intros h0 fn0 H0. cbn in H0. rewrite lookup_empty in H0. discriminate. }
  destruct (Ht h fn Hfn) as [a ->].
  pose proof (timer_recorded _ Hs h a Hfn) as Hrec.
  destruct (announcers w !! a) as [i|] eqn:Hi; [|discriminate].
  cbn in Hrec.
  assert (Er : exists o3 times,
            r = (Ret tt,
                 posted_state (conf w) "announce" (VArr [ann_key i; ann_port i]) o3
                   (CbRetry 1 times "announce" (VArr [ann_key i; ann_port i]) o3
                      (CbReann a))
                   (set_timers (delete h (timers w)) w))).
  { subst r. unfold do_step. rewrite bind_gets, Hfn, bind_modify.
    erewrite apply_ann by exact Hi.
    match goal with |- context [announce ?f ?k ?p (AVal ?o) ?c ?w1] =>
      destruct (announce_posts f k p o c w1) as (o3 & times & Hp);
        [destruct Hcache as [H1 H2]; constructor; assumption|];
      rewrite Hp; clear Hp
    end.
    exists o3, times. reflexivity. }
  destruct Er as (o3 & times & ->). cbn [fst snd]. unfold posted_state.
  cbn [timers trace _reqs set_timers fresh].
  split; [reflexivity|]. split; [reflexivity|].
  split; [rewrite posts_cons; reflexivity|].
  exists a, i. eexists. split; [exact Hi|]. split; [exact Hrec|].
  split; [reflexivity|]. repeat split; reflexivity.
Qed.

End Proofs.

(** * Instances *)

#[local] Existing Instance sample_externals.

Lemma pending_link_reachable : reachable pending_link.
Proof. apply run_reachable, new_Link_reachable. Qed.

Lemma answered_link_reachable : reachable answered_link.
Proof. apply run_reachable, pending_link_reachable. Qed.

Lemma announcing_link_reachable : reachable announcing_link.
Proof. apply run_reachable, new_Link_reachable. Qed.

(** C1 at the sample client with request 0 pending: identifier 9 is
    unknown, request 0 is registered, and the theorem applies. *)
Lemma handleReply_dispatches_at_most_once_witness :
  reachable pending_link
  /\ _reqs pending_link !! 9%nat = None
  /\ is_Some (_reqs pending_link !! 0%nat)
  /\ ((forall call_fn rid err data,
          _reqs pending_link !! rid = None ->
          handleReply call_fn rid err data pending_link = (Ret tt, pending_link))
      /\ (forall call_fn rid err data req,
            _reqs pending_link !! rid = Some req ->
            handleReply call_fn rid err data pending_link
              = call_fn (req_cb req) [err; data]
                  (reply_state req rid err data pending_link)
            /\ _reqs (reply_state req rid err data pending_link) !! rid = None)
      /\ (forall fuel p rid,
            (dispatches rid (trace (run fuel p pending_link).2) <= 1)%nat)).
Proof.
  split; [exact pending_link_reachable|].
  split; [vm_compute; reflexivity|].
  split; [vm_compute; eauto|].
  apply (handleReply_dispatches_at_most_once pending_link).
  exact pending_link_reachable.
Defined.

(** A caller that answers request 0 again from inside its own callback:
    the second reply finds nothing, the callback ran once. *)
Example reentrant_reply_is_ignored :
  let again := UFun 7 [CHandleReply 0 VNull peers] in
  let w :=
    (run 8 [Call (CRequest "get" (VStr "hash") VUndefined (Some again));
            Call (CHandleReply 0 VNull peers)] sample_link).2 in
  trace w
    = [EvCall 7 [VNull; peers]; EvDispatch 0 VNull peers;
       EvPost 1 (VObj [("url", VStr "/get"); ("json", VBool true);
                       ("body", VObj [("rid", VStr "0"); ("data", VStr "hash")]);
                       ("timeout", VNum 2500)])].
Proof. vm_compute. reflexivity. Qed.

(** C2 at the sample client with request 0 pending. *)
Lemma handleReply_caches_truthy_data_witness :
  reachable pending_link
  /\ (forall call_fn rid err data,
        match _reqs pending_link !! rid with
        | None => handleReply call_fn rid err data pending_link = (Ret tt, pending_link)
        | Some req =>
            handleReply call_fn rid err data pending_link
              = call_fn (req_cb req) [err; data]
                  (reply_state req rid err data pending_link)
            /\ cache (reply_state req rid err data pending_link)
               = if negb (truthy err) && truthy data
                    && bool_decide (req_type req = "lookup")
                 then alter (LRU.set (now pending_link) (req_qhash req) data)
                        "lookup" (cache pending_link)
                 else cache pending_link
        end).
Proof.
  split; [exact pending_link_reachable|].
  apply (handleReply_caches_truthy_data pending_link).
  exact pending_link_reachable.
Defined.

(** C2 as stated fails: a reply without an error whose data is the empty
    array reaches the pending lookup request 0, and the cache region, empty
    before, then holds the empty array at the fingerprint of the request. *)
Lemma empty_reply_is_cached :
  let w' := (handleReply (apply_fn 5) 0 VNull (VArr []) pending_link).2 in
  LRU.items <$> cache pending_link !! "lookup" = Some []
  /\ LRU.items <$> cache w' !! "lookup"
     = Some [LRU.Entry "lookup:svc" (VArr []) 0].
Proof. vm_compute. split; reflexivity. Qed.

(** C3 at the sample client that announces [svc] on port 1337: timer 3 is
    pending for descriptor 0 when [stopAnnouncing] is called. *)
Lemma stopAnnouncing_ends_schedule_witness :
  reachable announcing_link
  /\ _announces announcing_link !! announce_id (VStr "svc") (VNum 1337) = Some 0%nat
  /\ pending_for 0 3 announcing_link
  /\ let w1 := (stopAnnouncing (VStr "svc") (VNum 1337) announcing_link).2 in
     (stopAnnouncing (VStr "svc") (VNum 1337) announcing_link).1 = Ret VUndefined
     /\ _announces w1 !! announce_id (VStr "svc") (VNum 1337) = None
     /\ stopped 0 w1
     /\ (exists i,
           announcers announcing_link !! 0%nat = Some i
           /\ (forall h, pending_for 0 h announcing_link -> info_timeout i = Some h)
           /\ trace w1 = EvClearTimeout (info_timeout i) :: trace announcing_link)
     /\ (forall h, ~ pending_for 0 h w1)
     /\ (forall fuel p,
           let w2 := (run fuel p w1).2 in
           stopped 0 w2
           /\ scheduled 0 (trace w2) = scheduled 0 (trace w1)
           /\ (forall h, ~ pending_for 0 h w2)).
Proof.
  split; [exact announcing_link_reachable|].
  split; [vm_compute; reflexivity|].
  split; [vm_compute; reflexivity|].
  apply (stopAnnouncing_ends_schedule announcing_link (VStr "svc") (VNum 1337) 0).
  - exact announcing_link_reachable.
  - vm_compute. reflexivity.
Defined.

(** An announce attempt in flight when the pair is stopped: its response
    arrives afterwards, the caller's callback runs, and no timer is set. *)
Example stop_with_attempt_in_flight :
  let w :=
    (run 8 [Call (CStartAnnouncing (VStr "svc") (VNum 1337) (AVal VUndefined)
                    (Some (UFun 7 [])));
            Call (CStopAnnouncing (VStr "svc") (VNum 1337));
            Respond 2 VNull ok_response (VNum 1)] sample_link).2 in
  scheduled 0 (trace w) = 0%nat /\ timers w = ∅
  /\ head (trace w) = Some (EvCall 7 [VNull]).
Proof. vm_compute. auto. Qed.

(** When the attempt in flight fails instead, the announce call it belongs
    to goes through its remaining attempts (two more posts), the caller's
    callback gets the last error, and still no timer is set. *)
Example stop_with_failing_attempt_in_flight :
  let w :=
    (run 8 [Call (CStartAnnouncing (VStr "svc") (VNum 1337) (AVal VUndefined)
                    (Some (UFun 7 [])));
            Call (CStopAnnouncing (VStr "svc") (VNum 1337));
            Respond 2 refused VUndefined VUndefined;
            Respond 4 refused VUndefined VUndefined;
            Respond 6 refused VUndefined VUndefined] sample_link).2 in
  posts (trace w) = 3%nat /\ scheduled 0 (trace w) = 0%nat /\ timers w = ∅
  /\ head (trace w) = Some (EvCall 7 [refused]).
Proof. vm_compute. auto. Qed.

(** C4 at the sample client that announces [svc] on port 1337. *)
Lemma startAnnouncing_twice_is_noop_witness :
  is_Some (_announces announcing_link !! announce_id (VStr "svc") (VNum 1337))
  /\ startAnnouncing (apply_fn 5) (VStr "svc") (VNum 1337) (AVal VUndefined) None
       announcing_link
     = (Ret (VBool false), announcing_link).
Proof.
  assert (H : is_Some (_announces announcing_link
                         !! announce_id (VStr "svc") (VNum 1337)))
    by (vm_compute; eauto).
  split; [exact H|].
  apply (startAnnouncing_twice_is_noop (apply_fn 5) (VStr "svc") (VNum 1337)
           (AVal VUndefined) None announcing_link).
  exact H.
Defined.

(** C5 with three attempts allowed and an attempt function that fails
    twice and then succeeds. *)
Lemma retry_stops_at_first_success_witness :
  1 <= 3
  /\ exists n,
       retry flaky 3 0%nat
         = Some ((nth_attempt flaky n 0%nat).1, (nth_attempt flaky n 0%nat).2, n)
       /\ (1 <= n)%nat
       /\ Z.of_nat n <= 3
       /\ (forall i, (1 <= i < n)%nat -> failed flaky i 0%nat = true)
       /\ (failed flaky n 0%nat = false \/ Z.of_nat n = 3).
Proof.
  split; [lia|].
  apply (retry_stops_at_first_success flaky 3 0%nat). lia.
Defined.

(** The retry executor on the attempt function that fails twice and then
    succeeds: with three attempts allowed the third result is delivered
    after three invocations; with two, the second error after two. *)
Example retry_flaky_3 : retry flaky 3 0%nat = Some (3%nat, [VNull; VStr "ok"], 3%nat).
Proof. reflexivity. Qed.

Example retry_flaky_2 :
  retry flaky 2 0%nat = Some (2%nat, [VErr (VStr "ERR_REQUEST") (VNum 2)], 2%nat).
Proof. reflexivity. Qed.

(** The same through the client: [lookup] allows three attempts.  Two
    refused connections and then an answer: three posts, and the caller
    gets the answer.  Three refused connections: three posts, and the
    caller gets the third error; nothing is left pending. *)
Example lookup_third_attempt_succeeds :
  let down := (refused, VUndefined, VUndefined) in
  let r := run 8 (lookup_run down down (VNull, ok_response, peers)) sample_link in
  r.1 = Ret tt /\ posts (trace r.2) = 3%nat
  /\ head (trace r.2) = Some (EvCall 7 [VNull; peers])
  /\ _reqs r.2 = ∅ /\ exchanges r.2 = ∅.
Proof. vm_compute. auto. Qed.

Example lookup_three_attempts_fail :
  let down := (refused, VUndefined, VUndefined) in
  let r := run 8 (lookup_run down down down) sample_link in
  r.1 = Ret tt /\ posts (trace r.2) = 3%nat
  /\ head (trace r.2) = Some (EvCall 7 [refused])
  /\ _reqs r.2 = ∅ /\ exchanges r.2 = ∅.
Proof. vm_compute. auto. Qed.

(** C6 at the sample client whose lookup of [svc] has been answered (a
    live entry), and at the new sample client (two lookups in a row). *)
Lemma cache_hit_skips_network_witness :
  reachable answered_link
  /\ (exists region e,
        cache answered_link !! "lookup" = Some region
        /\ LRU.find (fingerprint answered_link "lookup" (VStr "svc")) (LRU.items region)
           = Some e
        /\ LRU.expired region (now answered_link) e = false
        /\ exists region',
             _request (apply_fn 5) "lookup" (VStr "svc") (VObj []) CbNoop answered_link
               = apply_fn 5 CbNoop [VNull; LRU.value e]
                   (set_cache (<["lookup" := region']> (cache answered_link))
                      answered_link))
  /\ reachable sample_link
  /\ (exists region,
        cache sample_link !! "lookup" = Some region
        /\ truthy (LRU.get (now sample_link)
                     (fingerprint sample_link "lookup" (VStr "svc")) region).1 = false
        /\ (LRU.maxAge region = 0 \/ 10000 <= LRU.maxAge region)
        /\ let p := [Call (CLookup (VStr "svc") (AVal VUndefined) (Some (UFun 1 [])));
                     Respond (S (fresh sample_link)) VNull ok_response peers;
                     Tick 10000;
                     Call (CLookup (VStr "svc") (AVal VUndefined) (Some (UFun 2 [])))] in
           let r := run 5 p sample_link in
           r.1 = Ret tt
           /\ posts (trace r.2) = S (posts (trace sample_link))
           /\ exists tr, trace r.2 = EvCall 2 (lookup_result peers) :: tr).
Proof.
  split; [exact answered_link_reachable|].
  split.
  { eexists. eexists.
    split; [vm_compute; reflexivity|].
    split; [vm_compute; reflexivity|].
    split; [vm_compute; reflexivity|].
    refine (proj1 (cache_hit_skips_network answered_link answered_link_reachable)
              (apply_fn 5) "lookup" (VStr "svc") (VObj []) CbNoop _ _ _ _ _);
      vm_compute; reflexivity. }
  split; [apply new_Link_reachable|].
  eexists.
  split; [vm_compute; reflexivity|].
  split; [vm_compute; reflexivity|].
  split; [right; vm_compute; discriminate|].
  refine (proj2 (cache_hit_skips_network sample_link (new_Link_reachable _ _ _ _))
            0%nat (VStr "svc") VUndefined 1%nat 2%nat 10000 VNull ok_response peers
            _ _ _ _ _ _ _); try (vm_compute; reflexivity).
  right. vm_compute. discriminate.
Defined.

(** C7 for a request that succeeded with the empty array. *)
Lemma lookup_empty_is_error_witness :
  truthy VNull = false
  /\ apply_fn 2 (CbLookup (CbUser (UFun 7 []))) [VNull; VArr []] sample_link
     = apply_fn 1 (CbUser (UFun 7 []))
         [VErr (VStr "ERR_GRAPE_LOOKUP_EMPTY") VUndefined] sample_link.
Proof.
  split; [reflexivity|].
  apply (proj2 (lookup_empty_is_error (apply_fn 0) (VStr "svc") VUndefined
                  (CbUser (UFun 7 [])) 1 VNull (VArr []) sample_link eq_refl)).
Defined.

(** A lookup answered with the empty array and one answered with peers. *)
Example lookup_of_empty_reply :
  trace (run 5 [Respond 1 VNull ok_response (VArr [])] pending_link).2
    = EvCall 7 [VErr (VStr "ERR_GRAPE_LOOKUP_EMPTY") VUndefined]
      :: EvDispatch 0 VNull (VArr []) :: trace pending_link.
Proof. vm_compute. reflexivity. Qed.

Example lookup_of_peers :
  trace answered_link
    = EvCall 7 [VNull; peers] :: EvDispatch 0 VNull peers :: trace pending_link.
Proof. vm_compute. reflexivity. Qed.



(** C10 at the client whose caller owns [{ seq: 1, v: 'x' }]: after the
    call the object has field [k] and no field [sig], nothing was sent and
    the callback did not run. *)
Lemma putMutable_stops_at_unbound_ed_witness :
  objects owner_link !! 0%nat = Some [("seq", VNum 1); ("v", VStr "x")]
  /\ run 5 [Call (CPutMutable (VRef 0) sample_keys (Some (UFun 7 [])))] owner_link
     = (Throw (ReferenceError "ed"),
        set_trace [EvEncode (VObj [("seq", VNum 1); ("v", VStr "x")])]
          (set_objects {[ 0%nat := [("seq", VNum 1); ("v", VStr "x"); ("k", VStr "6162")] ]}
             owner_link))
  /\ exists toEncode,
       putMutable (apply_fn 5) (VRef 0) sample_keys (CbUser (UFun 7 [])) owner_link
         = (Throw (ReferenceError "ed"),
            set_trace (EvEncode toEncode :: trace owner_link)
              (set_objects
                 (<[0%nat := set_field "k" (VStr (hex "ab"))
                               [("seq", VNum 1); ("v", VStr "x")]]> (objects owner_link))
                 owner_link)).
Proof.
  split; [reflexivity|]. split; [vm_compute; reflexivity|].
  apply (putMutable_stops_at_unbound_ed (apply_fn 5) 0%nat
           [("seq", VNum 1); ("v", VStr "x")] sample_keys "ab"
           (CbUser (UFun 7 [])) owner_link); reflexivity.
Defined.

(** * Instances of the further properties *)

Lemma sample_link_reachable : reachable sample_link.
Proof. apply new_Link_reachable. Qed.

Lemma started_link_reachable : reachable started_link.
Proof. apply run_reachable, new_Link_reachable. Qed.

(** X2 for a response with status 404 and for one with status 204. *)
Lemma post_status_2xx_witness :
  let not_found := [("statusCode", VNum 404)] in
  let no_content := [("statusCode", VNum 204)] in
  truthy VNull && is_string "ETIMEDOUT" (prop VNull "code") = false
  /\ field "statusCode" not_found = VNum 404
  /\ field "statusCode" no_content = VNum 204
  /\ post_handler (apply_fn 5) (CbUser (UFun 7 [])) VNull (VObj not_found)
       (VStr "no such key") sample_link
     = apply_fn 5 (CbUser (UFun 7 [])) [VErr (VStr "no such key") (VNum 404)]
         sample_link
  /\ post_handler (apply_fn 5) (CbUser (UFun 7 [])) VNull (VObj no_content)
       VUndefined sample_link
     = apply_fn 5 (CbUser (UFun 7 [])) [VNull; VObj no_content; VUndefined]
         sample_link.
Proof.
  intros not_found no_content.
  do 3 (split; [reflexivity|]). split.
  - apply (post_status_2xx (apply_fn 5) (CbUser (UFun 7 [])) VNull not_found
             (VStr "no such key") 404 sample_link); reflexivity.
  - apply (post_status_2xx (apply_fn 5) (CbUser (UFun 7 [])) VNull no_content
             VUndefined 204 sample_link); reflexivity.
Defined.


(** X5 for the new sample client and a refused connection. *)
Lemma get_and_put_make_one_attempt_witness :
  reachable sample_link
  /\ truthy refused && is_string "ETIMEDOUT" (prop refused "code") = false
  /\ truthy VUndefined && negb (test_2xx (prop VUndefined "statusCode")) = false
  /\ truthy (VStr "abc") = true
  /\ run 4 [Call (CGet (VStr "abc") (Some (UFun 7 [])));
            Respond 1 refused VUndefined VUndefined] sample_link
     = (Ret tt,
        set_trace
          [EvCall 7 [refused; VUndefined]; EvDispatch 0 refused VUndefined;
           EvPost 1
             (VObj [("url", VStr "/get"); ("json", VBool true);
                    ("body", VObj [("rid", VStr "0"); ("data", VStr "abc")]);
                    ("timeout", VNum 2500)])]
          (set_fresh 2 sample_link))
  /\ run 4 [Call (CPut (VStr "abc") (Some (UFun 7 [])));
            Respond 1 refused VUndefined VUndefined] sample_link
     = (Ret tt,
        set_trace
          [EvCall 7 [refused; VUndefined]; EvDispatch 0 refused VUndefined;
           EvPost 1
             (VObj [("url", VStr "/put"); ("json", VBool true);
                    ("body", VObj [("rid", VStr "0"); ("data", VStr "abc")]);
                    ("timeout", VNum 2500)])]
          (set_fresh 2 sample_link)).
Proof.
  split; [exact sample_link_reachable|].
  do 3 (split; [reflexivity|]).
  destruct (get_and_put_make_one_attempt sample_link 0 7 (VStr "abc") refused
              VUndefined VUndefined sample_link_reachable eq_refl eq_refl)
    as [Hget Hput].
  split; [exact Hget|exact (Hput eq_refl)].
Defined.

(** X6 at the sample client that announces [svc]: timer 3 is pending for
    descriptor 0. *)
Lemma announce_schedule_exclusive_witness :
  reachable announcing_link
  /\ pending_for 0 3 announcing_link
  /\ (forall h1 h2,
        pending_for 0 h1 announcing_link -> pending_for 0 h2 announcing_link ->
        h1 = h2)
  /\ (forall h rid, pending_for 0 h announcing_link ->
                    ~ in_flight 0 rid announcing_link)
  /\ (forall r1 r2,
        in_flight 0 r1 announcing_link -> in_flight 0 r2 announcing_link ->
        r1 = r2).
Proof.
  split; [exact announcing_link_reachable|].
  split; [vm_compute; reflexivity|].
  apply (announce_schedule_exclusive announcing_link 0).
  exact announcing_link_reachable.
Defined.

(** X8 at the client that has started announcing [svc] with the default
    interval and whose next draw is one half: the delay is [120000]. *)
Lemma reannounce_delay_bounds_witness :
  exists i,
    announcers started_link !! 0%nat = Some i
    /\ ann_cb i = None /\ info_stopped i = false
    /\ ann_interval i = VNum 120000
    /\ random started_link = [2 ^ 52]
    /\ 0 <= 2 ^ 52 < 2 ^ 53
    /\ exists ms,
         120000 <= 2 * ms <= 3 * 120000 + 1
         /\ (reann (apply_fn 5) 0 VNull started_link).1 = Ret tt
         /\ let w' := (reann (apply_fn 5) 0 VNull started_link).2 in
            trace w' = EvSetTimeout (fresh started_link) (CbAnn 0) (Some ms)
                       :: trace started_link
            /\ timers w' = <[fresh started_link := CbAnn 0]> (timers started_link)
            /\ announcers w' !! 0%nat ≫= info_timeout = Some (fresh started_link)
            /\ _reqs w' = _reqs started_link
            /\ exchanges w' = exchanges started_link.
Proof.
  assert (Hr : 0 <= 2 ^ 52 < 2 ^ 53)
    by (split; [apply Z.leb_le | apply Z.ltb_lt]; vm_compute; reflexivity).
  set (i := new_announcer (VStr "svc") (VNum 1337) (AVal VUndefined) None).
  assert (Hi : announcers started_link !! 0%nat = Some i)
    by (vm_compute; reflexivity).
  assert (Hd : random started_link = [2 ^ 52]) by (vm_compute; reflexivity).
  exists i. split; [exact Hi|].
  do 3 (split; [reflexivity|]).
  split; [exact Hd|]. split; [exact Hr|].
  apply (reannounce_delay_bounds (apply_fn 5) 0 VNull started_link i 120000
           (2 ^ 52) [] Hi eq_refl eq_refl eq_refl ltac:(lia) Hd Hr).
Defined.


(** X10 at the sample client that announces [svc]. *)
Lemma stop_ends_every_schedule_witness :
  reachable announcing_link
  /\ _announces announcing_link !! announce_id (VStr "svc") (VNum 1337) = Some 0%nat
  /\ pending_for 0 3 announcing_link
  /\ let w1 := (stop announcing_link).2 in
     (stop announcing_link).1 = Ret tt
     /\ _announces w1 = ∅
     /\ (forall type region,
           cache w1 !! type = Some region -> LRU.items region = [])
     /\ _reqs w1 = _reqs announcing_link
     /\ exchanges w1 = exchanges announcing_link
     /\ (forall id a,
           _announces announcing_link !! id = Some a ->
           stopped a w1
           /\ (forall h, ~ pending_for a h w1)
           /\ (forall fuel p,
                 let w2 := (run fuel p w1).2 in
                 stopped a w2
                 /\ scheduled a (trace w2) = scheduled a (trace w1)
                 /\ (forall h, ~ pending_for a h w2))).
Proof.
  split; [exact announcing_link_reachable|].
  split; [vm_compute; reflexivity|].
  split; [vm_compute; reflexivity|].
  apply (stop_ends_every_schedule announcing_link).
  exact announcing_link_reachable.
Defined.

(** X11 at the new sample client. *)
Lemma start_then_stop_announcing_witness :
  reachable sample_link
  /\ _announces sample_link !! announce_id (VStr "svc") (VNum 1337) = None
  /\ let r := startAnnouncing (apply_fn 1) (VStr "svc") (VNum 1337)
                (AVal VUndefined) None sample_link in
     let s := stopAnnouncing (VStr "svc") (VNum 1337) r.2 in
     r.1 = Ret VUndefined
     /\ _announces r.2
        = <[announce_id (VStr "svc") (VNum 1337) := 0%nat]> (_announces sample_link)
     /\ posts (trace r.2) = S (posts (trace sample_link))
     /\ timers r.2 = timers sample_link
     /\ s.1 = Ret VUndefined
     /\ _announces s.2 = _announces sample_link
     /\ stopped 0 s.2
     /\ stopAnnouncing (VStr "svc") (VNum 1337) s.2 = (Ret (VBool false), s.2).
Proof.
  assert (Hid : _announces sample_link !! announce_id (VStr "svc") (VNum 1337)
                = None) by (vm_compute; reflexivity).
  split; [exact sample_link_reachable|]. split; [exact Hid|].
  destruct (start_then_stop_announcing sample_link 0 (VStr "svc") (VNum 1337)
              (AVal VUndefined) None sample_link_reachable Hid)
    as (H1 & H2 & _ & _ & _ & H6 & H7 & H8 & H9 & H10 & _ & _ & H13).
  exact (conj H1 (conj H2 (conj H6 (conj H7 (conj H8 (conj H9 (conj H10 H13))))))).
Defined.

(** X12 at the new sample client with refused connections. *)
Lemma announce_makes_three_attempts_witness :
  let call := Call (CAnnounce (VStr "svc") (VNum 1337) (AVal VUndefined)
                      (Some (UFun 7 []))) in
  let down := Respond in
  reachable sample_link
  /\ truthy refused = true /\ truthy VNull = false
  /\ truthy refused && is_string "ETIMEDOUT" (prop refused "code") = false
  /\ truthy VUndefined && negb (test_2xx (prop VUndefined "statusCode")) = false
  /\ truthy ok_response && negb (test_2xx (prop ok_response "statusCode")) = false
  /\ (let r := run 4 [call; Respond 1 refused VUndefined VUndefined;
                      Respond 3 refused VUndefined VUndefined;
                      Respond 5 refused VUndefined VUndefined] sample_link in
      r.1 = Ret tt /\ posts (trace r.2) = (3 + posts (trace sample_link))%nat
      /\ head (trace r.2) = Some (EvCall 7 [refused; VUndefined])
      /\ _reqs r.2 = _reqs sample_link /\ exchanges r.2 = exchanges sample_link)
  /\ (let r := run 4 [call; Respond 1 refused VUndefined VUndefined;
                      Respond 3 VNull ok_response (VNum 1)] sample_link in
      r.1 = Ret tt /\ posts (trace r.2) = (2 + posts (trace sample_link))%nat
      /\ head (trace r.2) = Some (EvCall 7 [VNull; VNum 1])
      /\ _reqs r.2 = _reqs sample_link /\ exchanges r.2 = exchanges sample_link).
Proof.
  intros call down.
  split; [exact sample_link_reachable|].
  do 5 (split; [reflexivity|]). split.
  - apply (proj1 (announce_makes_three_attempts sample_link 0 (VStr "svc")
                    (VNum 1337) 7 refused refused refused
                    VUndefined VUndefined VUndefined
                    VUndefined VUndefined VUndefined
                    sample_link_reachable eq_refl eq_refl eq_refl eq_refl
                    eq_refl eq_refl eq_refl)).
    reflexivity.
  - apply (proj2 (announce_makes_three_attempts sample_link 0 (VStr "svc")
                    (VNum 1337) 7 refused VNull refused
                    VUndefined ok_response VUndefined
                    VUndefined (VNum 1) VUndefined
                    sample_link_reachable eq_refl eq_refl eq_refl eq_refl
                    eq_refl eq_refl eq_refl)).
    reflexivity.
Defined.

(** X13 at the new sample client, without options. *)
Lemma announce_interval_witness :
  reachable sample_link
  /\ _announces sample_link !! announce_id (VStr "svc") (VNum 1337) = None
  /\ exists i,
       announcers (startAnnouncing (apply_fn 1) (VStr "svc") (VNum 1337)
                     (AVal VUndefined) None sample_link).2 !! 0%nat = Some i
       /\ ann_interval i = VNum 120000
       /\ forall d, 0 <= d < 2 ^ 53 ->
            exists ms, jitter (ann_interval i) d = Some ms
                       /\ 60000 <= ms <= 180000.
Proof.
  assert (Hid : _announces sample_link !! announce_id (VStr "svc") (VNum 1337)
                = None) by (vm_compute; reflexivity).
  split; [exact sample_link_reachable|]. split; [exact Hid|].
  destruct (announce_interval sample_link 0 (VStr "svc") (VNum 1337)
              (AVal VUndefined) None sample_link_reachable Hid)
    as (i & Hi & Hdef & _).
  exists i. split; [exact Hi|]. apply Hdef. left. reflexivity.
Defined.

(** X14 and X15 at the sample client that announces [svc]: timer 3 is
    pending. *)
Lemma timers_are_live_schedules_witness :
  reachable announcing_link
  /\ timers announcing_link !! 3%nat = Some (CbAnn 0)
  /\ exists a i,
       CbAnn 0 = CbAnn a
       /\ announcers announcing_link !! a = Some i
       /\ info_stopped i = false
       /\ info_timeout i = Some 3%nat.
Proof.
  split; [exact announcing_link_reachable|].
  assert (H : timers announcing_link !! 3%nat = Some (CbAnn 0))
    by (vm_compute; reflexivity).
  split; [exact H|].
  exact (timers_are_live_schedules announcing_link 3 (CbAnn 0)
           announcing_link_reachable H).
Defined.

Lemma timer_fires_announce_witness :
  reachable announcing_link
  /\ is_Some (timers announcing_link !! 3%nat)
  /\ let r := do_step 1 (Fire 3) announcing_link in
     r.1 = Ret tt
     /\ timers r.2 = delete 3%nat (timers announcing_link)
     /\ posts (trace r.2) = S (posts (trace announcing_link))
     /\ exists a i req,
          announcers announcing_link !! a = Some i
          /\ info_timeout i = Some 3%nat
          /\ _reqs r.2 = <[fresh announcing_link := req]> (_reqs announcing_link)
          /\ req_type req = "announce"
          /\ req_payload req = VArr [ann_key i; ann_port i]
          /\ owner (req_cb req) = Some a.
Proof.
  assert (H : is_Some (timers announcing_link !! 3%nat)) by (vm_compute; eauto).
  split; [exact announcing_link_reachable|]. split; [exact H|].
  exact (timer_fires_announce announcing_link 0 3 announcing_link_reachable H).
Defined.
